(** * imoocdb: storage and transactional core, shallow embedding

    The Python sources are embedded module by module, keeping their names:
    [slotted_page], [lru], [common]/[entry] (heap access), [redo], [undo],
    [transaction] (the transaction manager), [lock], [bplus_tree] and
    [planner].  Mutable objects become explicit state, exceptions become the
    [Raise] case of a result, and Python's [assert] raises [AssertionError]. *)

From stdpp Require Import gmap strings list fin_maps.
From Stdlib Require Import ZArith Lia.
From Stdlib.Strings Require Import Byte.

Open Scope Z_scope.

(** ** Exceptions and the state-and-exception monad *)

Inductive exn : Type :=
| PageError | LRUError | LockConflictError | BPlusTreeError
| AssertionError | OverflowError | IndexError | ValueError
| AttributeError | KeyError | NotImplementedError | FileNotFoundError
| TypeError | OSError | UnpicklingError
(** not a Python exception: a loop of the embedding ran past its bound *)
| OutOfFuel.

Inductive result (A : Type) : Type :=
| Ok (a : A)
| Raise (e : exn).
Arguments Ok {A} a.
Arguments Raise {A} e.

Definition is_ok {A} (r : result A) : bool :=
  match r with Ok _ => true | Raise _ => false end.

(** A Python method over a mutable object: the object after the call and what
    the call returned or raised.  A raise keeps the mutations done so far. *)
Definition M (S A : Type) : Type := S -> S * result A.

Definition ret {S A} (a : A) : M S A := fun s => (s, Ok a).
Definition raise {S A} (e : exn) : M S A := fun s => (s, Raise e).
Definition bind {S A B} (m : M S A) (k : A -> M S B) : M S B :=
  fun s => match m s with
           | (s', Ok a) => k a s'
           | (s', Raise e) => (s', Raise e)
           end.
Definition get_state {S} : M S S := fun s => (s, Ok s).
Definition put_state {S} (s : S) : M S unit := fun _ => (s, Ok tt).
Definition modify {S} (f : S -> S) : M S unit := fun s => (f s, Ok tt).
Definition py_assert {S} (b : bool) : M S unit :=
  if b then ret tt else raise AssertionError.
Definition lift_result {S A} (r : result A) : M S A := fun s => (s, r).

(** [try: body except e: handler] *)
Definition try_except {S A} (body : M S A) (e : exn -> bool) (handler : M S A)
    : M S A :=
  fun s => match body s with
           | (s', Raise e0) => if e e0 then handler s' else (s', Raise e0)
           | out => out
           end.

(** [for x in l: body(x)] *)
Fixpoint for_each {S A} (l : list A) (body : A -> M S unit) : M S unit :=
  match l with
  | [] => fun s => (s, Ok tt)
  | a :: rest =>
      fun s => match body a s with
               | (s', Ok _) => for_each rest body s'
               | (s', Raise e) => (s', Raise e)
               end
  end.

(** A loop that carries local variables [acc]. *)
Fixpoint for_each_acc {S A B} (l : list A) (acc : B) (body : B -> A -> M S B)
    : M S B :=
  match l with
  | [] => fun s => (s, Ok acc)
  | a :: rest =>
      fun s => match body acc a s with
               | (s', Ok acc') => for_each_acc rest acc' body s'
               | (s', Raise e) => (s', Raise e)
               end
  end.

Definition is_PageError (e : exn) : bool :=
  match e with PageError => true | _ => false end.

Declare Scope py_scope.
Delimit Scope py_scope with py.
Notation "x <- m ;; k" := (bind m (fun x => k))
  (at level 100, m at next level, right associativity) : py_scope.
Notation "m ;;; k" := (bind m (fun _ => k))
  (at level 100, right associativity) : py_scope.

(** Pure computations that may raise. *)
Definition rbind {A B} (r : result A) (k : A -> result B) : result B :=
  match r with Ok a => k a | Raise e => Raise e end.

(** ** Python sequences *)

Abbreviation bytes := (list byte).

Definition len {A} (l : list A) : Z := Z.of_nat (length l).

(** [l[i]] with Python's negative indices; [None] stands for IndexError. *)
Definition py_norm {A} (l : list A) (i : Z) : option nat :=
  if 0 <=? i then (if i <? len l then Some (Z.to_nat i) else None)
  else (if - len l <=? i then Some (Z.to_nat (len l + i)) else None).

Definition py_index {A} (l : list A) (i : Z) : result A :=
  match py_norm l i with
  | Some n => match l !! n with Some x => Ok x | None => Raise IndexError end
  | None => Raise IndexError
  end.

(** [l[lo:hi]] for [0 <= lo <= hi]. *)
Definition slice {A} (l : list A) (lo hi : Z) : list A :=
  take (Z.to_nat (hi - lo)) (drop (Z.to_nat lo) l).

(** [range(start, stop, step)] for a positive step. *)
Definition py_range (start stop step : Z) : list Z :=
  map (fun k => start + step * Z.of_nat k)
      (seq 0 (Z.to_nat ((stop - start + step - 1) / step))).

(** ** slotted_page.py *)

Module slotted_page.

Definition PAGE_SIZE : Z := 8 * 1024.

Definition byte_of_Z (z : Z) : byte :=
  match Byte.of_N (Z.to_N (z mod 256)) with
  | Some b => b
  | None => x00
  end.
Definition Z_of_byte (b : byte) : Z := Z.of_N (Byte.to_N b).

(** [int.to_bytes(value, n, 'little', signed=False)] once the range is known. *)
Fixpoint le_encode (n : nat) (value : Z) : bytes :=
  match n with
  | O => []
  | S n' => byte_of_Z value :: le_encode n' (value / 256)
  end.

Fixpoint le_decode (buff : bytes) : Z :=
  match buff with
  | [] => 0
  | b :: rest => Z_of_byte b + 256 * le_decode rest
  end.

Definition uint8_to_bytes (value : Z) : result bytes :=
  if (0 <=? value) && (value <? 2 ^ 64) then Ok (le_encode 8 value)
  else Raise OverflowError.

Definition bytes_to_uint8 (buff : bytes) : Z := le_decode buff.

(** [BaseStructure.serialize] over the list of field values. *)
Fixpoint serialize_fields (fields : list Z) : result bytes :=
  match fields with
  | [] => Ok []
  | v :: rest =>
      rbind (uint8_to_bytes v) (fun b =>
      rbind (serialize_fields rest) (fun bs => Ok (b ++ bs)))
  end.

(** The loop of [BaseStructure.deserialize]: [n] fields of 8 bytes each. *)
Fixpoint deserialize_fields (n : nat) (buff : bytes) (position : Z) : list Z :=
  match n with
  | O => []
  | S n' => bytes_to_uint8 (slice buff position (position + 8))
            :: deserialize_fields n' buff (position + 8)
  end.

Record PageHeader : Type := mkPageHeader {
  lsn : Z;
  flags : Z;
  reserved : Z;
  free_space_start : Z;
  free_space_end : Z
}.

Definition PageHeader_new : PageHeader := mkPageHeader 0 0 0 0 0.
Definition PageHeader_fields (h : PageHeader) : list Z :=
  [lsn h; flags h; reserved h; free_space_start h; free_space_end h].
Definition PageHeader_size : Z := 5 * 8.
Definition PageHeader_serialize (h : PageHeader) : result bytes :=
  serialize_fields (PageHeader_fields h).
Definition PageHeader_deserialize (buff : bytes) : result PageHeader :=
  if len buff =? PageHeader_size then
    match deserialize_fields 5 buff 0 with
    | [a; b; c; d; e] => Ok (mkPageHeader a b c d e)
    | _ => Raise AssertionError
    end
  else Raise AssertionError.

(** class RecordState *)
Definition UNUSED : Z := 0.
Definition NORMAL : Z := 1.
Definition DEAD : Z := 2.

Record Slot : Type := mkSlot {
  offset : Z;
  length : Z;
  state : Z
}.

Definition Slot_fields (s : Slot) : list Z := [offset s; length s; state s].
Definition Slot_size : Z := 3 * 8.
Definition Slot_serialize (s : Slot) : result bytes :=
  serialize_fields (Slot_fields s).
Definition Slot_deserialize (buff : bytes) : result Slot :=
  if len buff =? Slot_size then
    match deserialize_fields 3 buff 0 with
    | [a; b; c] => Ok (mkSlot a b c)
    | _ => Raise AssertionError
    end
  else Raise AssertionError.

Definition set_state (st : Z) (s : Slot) : Slot :=
  mkSlot (offset s) (length s) st.

Record Page : Type := mkPage {
  page_header : PageHeader;
  slot_directory : list Slot;
  records : bytes
}.

(** [Page()] *)
Definition Page_new : Page := mkPage PageHeader_new [] [].

Definition total_record_size (p : Page) : Z := len (records p).
Definition total_slot_directory_size (p : Page) : Z :=
  len (slot_directory p) * Slot_size.

(** The size the page would have with one more slot and [record]. *)
Definition total_page_size (p : Page) (record : bytes) : Z :=
  PageHeader_size + (len (slot_directory p) + 1) * Slot_size
  + (total_record_size p + len record).

(** [allocate_slot] mutates nothing; [None] is Python's [None]. *)
Definition allocate_slot (p : Page) (record : bytes) : option Slot :=
  if total_page_size p record >=? PAGE_SIZE then None
  else Some (mkSlot (total_record_size p) (len record) UNUSED).

Definition set_header (lsn0 : Z) (p : Page) : Page :=
  mkPage (mkPageHeader lsn0 (flags (page_header p)) (reserved (page_header p))
            (PageHeader_size + total_slot_directory_size p)
            (PAGE_SIZE - len (records p)))
         (slot_directory p) (records p).

Definition insert (record : bytes) : M Page Z := fun p =>
  match allocate_slot p record with
  | None => (p, Raise PageError)
  | Some slot =>
      let p' := mkPage (page_header p)
                       (slot_directory p ++ [set_state NORMAL slot])
                       (records p ++ record) in
      (p', Ok (len (slot_directory p') - 1))
  end.

(** The slot object at Python index [sid], mutated in place by [f]. *)
Definition alter_slot (f : Slot -> Slot) (sid : Z) (p : Page) : Page :=
  match py_norm (slot_directory p) sid with
  | Some n => mkPage (page_header p) (alter f n (slot_directory p)) (records p)
  | None => p
  end.

Definition delete (sid : Z) : M Page bool := fun p =>
  if sid >=? len (slot_directory p) then (p, Raise PageError)
  else match py_index (slot_directory p) sid with
       | Raise e => (p, Raise e)
       | Ok _ => (alter_slot (set_state DEAD) sid p, Ok true)
       end.

Definition select (sid : Z) (p : Page) : result bytes :=
  if sid >=? len (slot_directory p) then Raise PageError
  else rbind (py_index (slot_directory p) sid) (fun slot =>
       if negb (state slot =? NORMAL) then Ok []
       else Ok (slice (records p) (offset slot) (offset slot + length slot))).

(** [self.records[lo:lo + len(record)] = record] *)
Definition overwrite (recs : bytes) (lo : Z) (record : bytes) : bytes :=
  take (Z.to_nat lo) recs ++ record ++ drop (Z.to_nat (lo + len record)) recs.

Definition update (sid : Z) (record : bytes) : M Page Z := fun p =>
  match py_index (slot_directory p) sid with
  | Raise e => (p, Raise e)
  | Ok slot =>
      if len record <=? length slot then
        let p1 := mkPage (page_header p) (slot_directory p)
                         (overwrite (records p) (offset slot) record) in
        (alter_slot (fun s => mkSlot (offset s) (len record) NORMAL) sid p1,
         Ok sid)
      else
        let old_state := state slot in
        match delete sid p with
        | (p1, Raise PageError) =>
            (alter_slot (set_state old_state) sid p1, Raise PageError)
        | (p1, Raise e) => (p1, Raise e)
        | (p1, Ok _) =>
            match insert record p1 with
            | (p2, Raise PageError) =>
                (alter_slot (set_state old_state) sid p2, Raise PageError)
            | (p2, r) => (p2, r)
            end
        end
  end.

Fixpoint serialize_slots (slots : list Slot) : result bytes :=
  match slots with
  | [] => Ok []
  | s :: rest =>
      rbind (Slot_serialize s) (fun b =>
      rbind (serialize_slots rest) (fun bs => Ok (b ++ bs)))
  end.

(** [bytes(n)]: [n] zero bytes, ValueError for a negative count. *)
Definition zero_bytes (n : Z) : result bytes :=
  if n <? 0 then Raise ValueError else Ok (replicate (Z.to_nat n) x00).

Definition serialize (p : Page) : result bytes :=
  let free_space_size :=
    free_space_end (page_header p) - free_space_start (page_header p) in
  if negb (PAGE_SIZE =? PageHeader_size + total_slot_directory_size p
                         + free_space_size + total_record_size p)
  then Raise AssertionError
  else
    rbind (serialize_slots (slot_directory p)) (fun slot_directory_bytes =>
    rbind (PageHeader_serialize (page_header p)) (fun header_bytes =>
    rbind (zero_bytes free_space_size) (fun free =>
    Ok (header_bytes ++ slot_directory_bytes ++ free ++ records p)))).

Fixpoint deserialize_slots (buff : bytes) (offsets : list Z) : result (list Slot) :=
  match offsets with
  | [] => Ok []
  | slot_offset :: rest =>
      rbind (Slot_deserialize (slice buff slot_offset (slot_offset + Slot_size)))
        (fun slot =>
      rbind (deserialize_slots buff rest) (fun slots => Ok (slot :: slots)))
  end.

Definition deserialize (buff : bytes) : result Page :=
  rbind (PageHeader_deserialize (slice buff 0 PageHeader_size)) (fun header =>
  rbind (deserialize_slots buff
           (py_range PageHeader_size (free_space_start header) Slot_size))
    (fun slots =>
  Ok (mkPage header slots (drop (Z.to_nat (free_space_end header)) buff)))).

(** *** Histories of page operations *)

Inductive page_op : Type :=
| OpInsert (record : bytes)
| OpDelete (sid : Z)
| OpUpdate (sid : Z) (record : bytes)
| OpSetHeader (lsn0 : Z).

(** What each slot index was last given: the record of the [insert] that
    returned the index, or of the [update] that returned it. *)
Definition run_op (st : Page * gmap Z bytes) (o : page_op) : Page * gmap Z bytes :=
  let '(p, written) := st in
  match o with
  | OpInsert record =>
      match insert record p with
      | (p', Ok sid) => (p', <[sid := record]> written)
      | (p', Raise _) => (p', written)
      end
  | OpDelete sid => (fst (delete sid p), written)
  | OpUpdate sid record =>
      match update sid record p with
      | (p', Ok new_sid) =>
          (p', match py_norm (slot_directory p') new_sid with
               | Some n => <[Z.of_nat n := record]> written
               | None => written
               end)
      | (p', Raise _) => (p', written)
      end
  | OpSetHeader lsn0 => (set_header lsn0 p, written)
  end.

Definition run_ops (ops : list page_op) : Page * gmap Z bytes :=
  fold_left run_op ops (Page_new, ∅).

End slotted_page.

(** ** lru.py *)

Module lru.

Section LRUCache.
Context {K V : Type} `{Countable K}.

(** [prev]/[next] of the Python node are its position in [nodes] below. *)
Record LRUNode : Type := mkLRUNode {
  key : K;
  value : V;
  pinned : bool
}.

(** [nodes] is the linked list between the two dummy nodes, from
    [head.next] (least recently used) to [tail.prev]; the dict [cache] maps
    each key to its node of the list, so [key in self.cache] is membership
    in [nodes] and [len(self.cache)] its length. *)
Record LRUCache : Type := mkLRUCache {
  capacity : Z;
  nodes : list LRUNode;
  evicted : gmap K V
}.

Definition LRUCache_new (capacity0 : Z) : LRUCache := mkLRUCache capacity0 [] ∅.

Definition has_key (k : K) (n : LRUNode) : bool := bool_decide (key n = k).

(** [self.cache[key]], [None] when [key not in self.cache]. *)
Definition cache_get (k : K) (c : LRUCache) : option LRUNode :=
  List.find (has_key k) (nodes c).

Definition in_cache (k : K) (c : LRUCache) : bool :=
  match cache_get k c with Some _ => true | None => false end.

(** [_remove(node)] for the node of key [k]. *)
Definition _remove (k : K) (l : list LRUNode) : list LRUNode :=
  List.filter (fun n => negb (has_key k n)) l.

(** [_add(node)]: link before the dummy tail. *)
Definition _add (node : LRUNode) (l : list LRUNode) : list LRUNode := l ++ [node].

(** The eviction walk from [head.next]: the first node that is not pinned;
    [None] when the walk ends on the dummy tail. *)
Definition first_unpinned (l : list LRUNode) : option LRUNode :=
  List.find (fun n => negb (pinned n)) l.

Definition put (k : K) (v : V) : M LRUCache unit := fun c =>
  let nodes1 := if in_cache k c then _remove k (nodes c) else nodes c in
  let node := mkLRUNode k v false in
  let nodes2 := _add node nodes1 in
  if len nodes2 >? capacity c then
    match first_unpinned nodes2 with
    | None =>
        (mkLRUCache (capacity c) (_remove k nodes2) (evicted c), Raise LRUError)
    | Some evicted_node =>
        (mkLRUCache (capacity c) (_remove (key evicted_node) nodes2)
           (<[key evicted_node := value evicted_node]> (evicted c)), Ok tt)
    end
  else (mkLRUCache (capacity c) nodes2 (evicted c), Ok tt).

Definition get (k : K) : M LRUCache (option V) := fun c =>
  match cache_get k c with
  | Some node =>
      (mkLRUCache (capacity c) (_add node (_remove k (nodes c))) (evicted c),
       Ok (Some (value node)))
  | None => (c, Ok None)
  end.

Definition set_pinned (b : bool) (k : K) (l : list LRUNode) : list LRUNode :=
  map (fun n => if has_key k n then mkLRUNode (key n) (value n) b else n) l.

Definition pin (k : K) : M LRUCache unit := fun c =>
  if in_cache k c
  then (mkLRUCache (capacity c) (set_pinned true k (nodes c)) (evicted c), Ok tt)
  else (c, Raise LRUError).

Definition unpin (k : K) : M LRUCache unit := fun c =>
  if in_cache k c
  then (mkLRUCache (capacity c) (set_pinned false k (nodes c)) (evicted c), Ok tt)
  else (c, Raise LRUError).

(** A cached value mutated in place through a reference to it. *)
Definition set_value (k : K) (v : V) (c : LRUCache) : LRUCache :=
  mkLRUCache (capacity c)
    (map (fun n => if has_key k n then mkLRUNode (key n) v (pinned n) else n)
         (nodes c))
    (evicted c).

End LRUCache.
Arguments LRUNode : clear implicits.
Arguments LRUCache K V {_ _}.

Definition LRU_CAPACITY : Z := 100.

(** Keys of the buffer pool: [(relation, pageno)]. *)
Abbreviation page_key := (string * Z)%type.

Section BufferPool.
Context {V : Type}.

Record BufferPool : Type := mkBufferPool {
  lru_cache : LRUCache page_key V;
  dirty_pages : gset page_key
}.

Definition BufferPool_new (buffer_size : Z) : BufferPool :=
  mkBufferPool (LRUCache_new buffer_size) ∅.

Definition __contains__ (k : page_key) (b : BufferPool) : bool :=
  in_cache k (lru_cache b).

Definition mark_dirty (k : page_key) : M BufferPool unit := fun b =>
  if __contains__ k b
  then (mkBufferPool (lru_cache b) ({[k]} ∪ dirty_pages b), Ok tt)
  else (b, Raise AssertionError).

Definition unmark_dirty (k : page_key) : M BufferPool unit := fun b =>
  if bool_decide (k ∈ dirty_pages b)
  then (mkBufferPool (lru_cache b) (dirty_pages b ∖ {[k]}), Ok tt)
  else (b, Raise KeyError).

(** The last element of the sorted dirty keys of the relation. *)
Definition find_max_pageno (relation_name : string) (b : BufferPool) : Z :=
  match List.filter (fun t => String.eqb (fst t) relation_name)
                    (elements (dirty_pages b)) with
  | [] => -1
  | t :: rest => fold_left Z.max (map snd rest) (snd t)
  end.

Definition __getitem__ (k : page_key) : M BufferPool (option V) := fun b =>
  let '(c, r) := get k (lru_cache b) in (mkBufferPool c (dirty_pages b), r).

Definition __setitem__ (k : page_key) (v : V) : M BufferPool unit := fun b =>
  let '(c, r) := put k v (lru_cache b) in (mkBufferPool c (dirty_pages b), r).

End BufferPool.
Arguments BufferPool : clear implicits.

End lru.

(** ** Python values, and what lies outside the repository *)

(** Column values: [None], integers and strings. *)
Inductive py_value : Type :=
| PyNone
| PyInt (n : Z)
| PyStr (s : string).

Abbreviation py_tuple := (list py_value).
(** A location (TID): [(pageno, sid)]. *)
Abbreviation location_t := (Z * Z)%type.

(** The [pickle] library and the index files.  [dumps_record] is
    [pickle.dumps((xid, action, relation, location, data))]; the three
    [index_*] members act on the index files, which are B+ trees written
    through [pickle] as well. *)
Class External : Type := {
  dumps_tuple : py_tuple -> bytes;
  loads_tuple : bytes -> result py_tuple;
  dumps_bytes : bytes -> bytes;
  dumps_record : Z -> Z -> option string -> option location_t -> bytes -> bytes;
  index_files : Type;
  index_insert : string -> py_tuple -> option location_t ->
                 index_files -> index_files * result unit;
  index_delete : string -> py_tuple -> option location_t ->
                 index_files -> index_files * result unit
}.

(** ** storage/transaction/redo.py *)

Module redo.

Definition REDOLOG_BUFFER_SIZE : Z := 10.

(** class RedoAction *)
Definition BEGIN : Z := 0.
Definition COMMIT : Z := 1.
Definition ABORT : Z := 2.
Definition TABLE_INSERT : Z := 3.
Definition TABLE_DELETE : Z := 4.
Definition TABLE_UPDATE : Z := 5.
Definition INDEX_INSERT : Z := 6.
Definition INDEX_DELETE : Z := 7.
Definition INDEX_UPDATE : Z := 8.
Definition CHECKPOINT : Z := 9.

Record RedoRecord : Type := mkRedoRecord {
  xid : Z;
  action : Z;
  relation : option string;
  location : option location_t;
  data : bytes
}.

(** The log file holds whole frames, one per record, in order; [None] is a
    file that does not exist. *)
Record RedoLogManager : Type := mkRedoLogManager {
  log_file : option (list RedoRecord);
  log_buffer : list RedoRecord;
  write_lsn : Z;
  flush_lsn : Z
}.

Definition RedoLogManager_new : RedoLogManager := mkRedoLogManager None [] 0 0.

Section Pickle.
Context `{External}.

(** [len(record)]: the pickled tuple and the 8 bytes of [content_size]. *)
Definition RedoRecord_len (r : RedoRecord) : Z :=
  len (dumps_record (xid r) (action r) (relation r) (location r) (data r)) + 8.

Definition total_len (l : list RedoRecord) : Z :=
  foldr (fun r acc => RedoRecord_len r + acc) 0 l.

Definition flush : M RedoLogManager unit := fun m =>
  (mkRedoLogManager
     (Some (match log_file m with Some f => f | None => [] end ++ log_buffer m))
     [] (write_lsn m) (flush_lsn m + total_len (log_buffer m)),
   Ok tt).

Definition write (record : RedoRecord) : M RedoLogManager Z := fun m =>
  let m1 := mkRedoLogManager (log_file m) (log_buffer m ++ [record])
              (write_lsn m + RedoRecord_len record) (flush_lsn m) in
  if (action record =? COMMIT) || (len (log_buffer m1) >? REDOLOG_BUFFER_SIZE)
  then (fst (flush m1), Ok (write_lsn m1))
  else (m1, Ok (write_lsn m1)).

(** [f.seek(start_lsn)] and then frame after frame to the end of the file.
    A position inside a frame yields bytes that do not unpickle. *)
Fixpoint frames_from (file : list RedoRecord) (start_lsn : Z)
    : result (list RedoRecord) :=
  if start_lsn =? 0 then Ok file
  else match file with
       | [] => Ok []
       | r :: rest =>
           if RedoRecord_len r <=? start_lsn
           then frames_from rest (start_lsn - RedoRecord_len r)
           else Raise UnpicklingError
       end.

Definition replay (m : RedoLogManager) (start_lsn : Z) : result (list RedoRecord) :=
  match log_file m with
  | None => Ok []
  | Some file => if start_lsn <? 0 then Raise OSError else frames_from file start_lsn
  end.

End Pickle.

End redo.

(** ** storage/transaction/undo.py *)

Module undo.

(** class UndoOperation *)
Definition BEGIN : Z := 0.
Definition TABLE_INSERT : Z := 1.
Definition TABLE_DELETE : Z := 2.
Definition TABLE_UPDATE : Z := 3.
Definition COMMIT : Z := 4.
Definition ABORT : Z := 5.
Definition INDEX_INSERT : Z := 6.
Definition INDEX_DELETE : Z := 7.

(** [data] is record bytes for the table operations and the index key for
    the index operations. *)
Inductive undo_data : Type :=
| Bytes (b : bytes)
| Key (k : py_tuple).

Record UndoRecord : Type := mkUndoRecord {
  xid : Z;
  operation : Z;
  relation : option string;
  location : option location_t;
  data : undo_data
}.

(** [files] are the files [undo/<xid>], as whole frames. *)
Record UndoLogManager : Type := mkUndoLogManager {
  active_transactions : gmap Z (list UndoRecord);
  files : gmap Z (list UndoRecord)
}.

Definition UndoLogManager_new : UndoLogManager := mkUndoLogManager ∅ ∅.

Definition write (record : UndoRecord) : M UndoLogManager unit := fun m =>
  match active_transactions m !! xid record with
  | None => (m, Raise AssertionError)
  | Some l =>
      (mkUndoLogManager (<[xid record := l ++ [record]]> (active_transactions m))
         (files m), Ok tt)
  end.

Definition flush (xid0 : Z) : M UndoLogManager unit := fun m =>
  let file := default [] (files m !! xid0) in
  match active_transactions m !! xid0 with
  | None => (mkUndoLogManager (active_transactions m) (<[xid0 := file]> (files m)),
             Raise KeyError)
  | Some l =>
      (mkUndoLogManager (<[xid0 := []]> (active_transactions m))
         (<[xid0 := file ++ l]> (files m)), Ok tt)
  end.

Definition start_transaction (xid0 : Z) : M UndoLogManager unit := fun m =>
  (mkUndoLogManager
     (<[xid0 := [mkUndoRecord xid0 BEGIN None None (Bytes [])]]>
        (active_transactions m))
     (files m), Ok tt).

Definition forget (xid0 : Z) : M UndoLogManager unit := fun m =>
  match active_transactions m !! xid0 with
  | None => (m, Raise KeyError)
  | Some _ => (mkUndoLogManager (base.delete xid0 (active_transactions m)) (files m),
               Ok tt)
  end.

Definition commit_transaction (xid0 : Z) : M UndoLogManager unit :=
  (write (mkUndoRecord xid0 COMMIT None None (Bytes [])) ;;;
   flush xid0 ;;;
   forget xid0)%py.

Definition abort_transaction (xid0 : Z) : M UndoLogManager unit :=
  (write (mkUndoRecord xid0 ABORT None None (Bytes [])) ;;;
   flush xid0 ;;;
   forget xid0)%py.

(** The records of [undo/<xid>], last written first. *)
Definition parse_record (xid0 : Z) (m : UndoLogManager) : result (list UndoRecord) :=
  match files m !! xid0 with
  | None => Raise FileNotFoundError
  | Some file => Ok (rev file)
  end.

End undo.

(** ** The process-wide singletons: [buffer_pool], [transaction_mgr] and the files *)

Module state.
Import slotted_page lru.

Definition INVALID_XID : Z := -1.

(** [thread_local_xid] is the [xid] attribute of the calling thread's
    [thread_local], [None] when it was never set. *)
Record TransactionManager : Type := mkTransactionManager {
  redo_mgr : redo.RedoLogManager;
  undo_mgr : undo.UndoLogManager;
  current_xid : Z;
  thread_local_xid : option Z
}.

Definition TransactionManager_new : TransactionManager :=
  mkTransactionManager redo.RedoLogManager_new undo.UndoLogManager_new 0 None.

Section DB.
Context `{External}.

(** [table_files] maps a table name to the bytes of [<name>.tbl]. *)
Record DB : Type := mkDB {
  buffer_pool : BufferPool Page;
  table_files : gmap string bytes;
  transaction_mgr : TransactionManager;
  indexes : index_files
}.

Definition on_pool {A} (m : M (BufferPool Page) A) : M DB A := fun db =>
  let '(b, r) := m (buffer_pool db) in
  (mkDB b (table_files db) (transaction_mgr db) (indexes db), r).

Definition on_mgr {A} (m : M TransactionManager A) : M DB A := fun db =>
  let '(t, r) := m (transaction_mgr db) in
  (mkDB (buffer_pool db) (table_files db) t (indexes db), r).

Definition on_redo {A} (m : M redo.RedoLogManager A) : M DB A :=
  on_mgr (fun t =>
    let '(rm, r) := m (redo_mgr t) in
    (mkTransactionManager rm (undo_mgr t) (current_xid t) (thread_local_xid t), r)).

Definition on_undo {A} (m : M undo.UndoLogManager A) : M DB A :=
  on_mgr (fun t =>
    let '(um, r) := m (undo_mgr t) in
    (mkTransactionManager (redo_mgr t) um (current_xid t) (thread_local_xid t), r)).

Definition on_indexes {A} (m : index_files -> index_files * result A) : M DB A :=
  fun db =>
    let '(i, r) := m (indexes db) in
    (mkDB (buffer_pool db) (table_files db) (transaction_mgr db) i, r).

(** A method called on the page object that [table_tuple_get_page] returned
    for [k]: the object is the value cached under [k]; [None] has no
    methods. *)
Definition on_page {A} (k : page_key) (page : option Page) (m : M Page A) : M DB A :=
  fun db =>
    match page, cache_get k (lru_cache (buffer_pool db)) with
    | Some _, Some node =>
        let '(p', r) := m (value node) in
        (mkDB (mkBufferPool (set_value k p' (lru_cache (buffer_pool db)))
                            (dirty_pages (buffer_pool db)))
              (table_files db) (transaction_mgr db) (indexes db), r)
    | _, _ => (db, Raise AttributeError)
    end.

(** The page cached under [k], if any. *)
Definition cached_page (k : page_key) (db : DB) : option Page :=
  option_map value (cache_get k (lru_cache (buffer_pool db))).

Definition session_xid (db : DB) : Z :=
  default INVALID_XID (thread_local_xid (transaction_mgr db)).

End DB.

End state.

(** ** storage/common.py *)

Module common.
Import slotted_page lru state.

Section Common.
Context `{External}.

Definition table_tuple_get_disk_pages (table_name : string) : M DB Z := fun db =>
  match table_files db !! table_name with
  | None => (db, Ok 0)
  | Some content =>
      if (len content >? 0) && negb (len content mod PAGE_SIZE =? 0)
      then (db, Raise AssertionError)
      else (db, Ok (len content / PAGE_SIZE))
  end.

Definition table_tuple_get_pages (table_name : string) : M DB Z :=
  (disk_pages <- table_tuple_get_disk_pages table_name ;;
   db <- get_state ;;
   let memory_pages := find_max_pageno table_name (buffer_pool db) + 1 in
   ret (Z.max memory_pages disk_pages))%py.

(** Reading page [pageno] of the table file and decoding it. *)
Definition read_page (table_name : string) (pageno : Z) : M DB Page := fun db =>
  match table_files db !! table_name with
  | None => (db, Raise FileNotFoundError)
  | Some content =>
      if pageno <? 0 then (db, Raise OSError)
      else (db, deserialize (slice content (pageno * PAGE_SIZE)
                                   (pageno * PAGE_SIZE + PAGE_SIZE)))
  end.

Definition file_exists (table_name : string) (db : DB) : bool :=
  match table_files db !! table_name with Some _ => true | None => false end.

(** The page object, [None] for Python's [None].  [early] is the
    [return None] inside the first branch. *)
Definition table_tuple_get_page (table_name : string) (pageno : Z)
    : M DB (option Page) :=
  let k := (table_name, pageno) in
  (db <- get_state ;;
   early <-
     (if __contains__ k (buffer_pool db) then ret false
      else
        (disk_pages <- table_tuple_get_disk_pages table_name ;;
         if pageno <? disk_pages then
           if negb (file_exists table_name db) then ret true
           else
             (page <- read_page table_name pageno ;;
              on_pool (__setitem__ k page) ;;;
              ret false)
         else
           (on_pool (__setitem__ k Page_new) ;;;
            on_pool (mark_dirty k) ;;;
            ret false))) ;;
   if early then ret None else on_pool (__getitem__ k))%py.

Definition tuple_to_bytes (tup : py_tuple) : bytes := dumps_tuple tup.

Definition bytes_to_tuple (bytes_ : bytes) : result py_tuple :=
  if len bytes_ =? 0 then Ok [] else loads_tuple bytes_.

End Common.

End common.

(** ** storage/transaction/entry.py *)

Module transaction.
Import slotted_page lru state common.

Section TransactionManager.
Context `{External}.

(** [pageno, sid = location] and the table's name. *)
Definition unpack (relation : option string) (location : option location_t)
    : M DB (string * Z * Z) :=
  match relation, location with
  | Some table_name, Some (pageno, sid) => ret (table_name, pageno, sid)
  | _, _ => raise TypeError
  end.

(** The body of the loop of [perform_undo] for one undo record. *)
Definition undo_one (lsn0 : Z) (undo_record : undo.UndoRecord) : M DB unit :=
  let op := undo.operation undo_record in
  if op =? undo.TABLE_DELETE then
    (loc <- unpack (undo.relation undo_record) (undo.location undo_record) ;;
     let '(table_name, pageno, sid) := loc in
     page <- table_tuple_get_page table_name pageno ;;
     on_page (table_name, pageno) page (delete sid) ;;;
     on_page (table_name, pageno) page (modify (set_header lsn0)) ;;;
     on_pool (mark_dirty (table_name, pageno)))%py
  else if op =? undo.TABLE_INSERT then
    (loc <- unpack (undo.relation undo_record) (undo.location undo_record) ;;
     let '(table_name, pageno, sid) := loc in
     page <- table_tuple_get_page table_name pageno ;;
     match undo.data undo_record with
     | undo.Bytes record =>
         (on_page (table_name, pageno) page (insert record) ;;;
          on_page (table_name, pageno) page (modify (set_header lsn0)) ;;;
          on_pool (mark_dirty (table_name, pageno)))
     | undo.Key _ => raise TypeError
     end)%py
  else if op =? undo.TABLE_UPDATE then
    (loc <- unpack (undo.relation undo_record) (undo.location undo_record) ;;
     let '(table_name, pageno, sid) := loc in
     page <- table_tuple_get_page table_name pageno ;;
     match undo.data undo_record with
     | undo.Bytes record =>
         (on_page (table_name, pageno) page (update sid record) ;;;
          on_page (table_name, pageno) page (modify (set_header lsn0)) ;;;
          on_pool (mark_dirty (table_name, pageno)))
     | undo.Key _ => raise TypeError
     end)%py
  else if op =? undo.INDEX_INSERT then
    match undo.relation undo_record, undo.data undo_record with
    | Some index_name, undo.Key k =>
        on_indexes (index_insert index_name k (undo.location undo_record))
    | _, _ => raise TypeError
    end
  else if op =? undo.INDEX_DELETE then
    match undo.relation undo_record, undo.data undo_record with
    | Some index_name, undo.Key k =>
        on_indexes (index_delete index_name k (undo.location undo_record))
    | _, _ => raise TypeError
    end
  else ret tt.

Definition perform_undo (xid0 : Z) (lsn0 : Z) : M DB unit :=
  (db <- get_state ;;
   undo_records <-
     lift_result (undo.parse_record xid0 (undo_mgr (transaction_mgr db))) ;;
   for_each undo_records (undo_one lsn0))%py.

(** The body of the first loop of [recovery], over the local variables
    [replay_lsn] and [checkpoint_lsn]. *)
Definition checkpoint_step (st : Z * Z) (redo_record : redo.RedoRecord) : Z * Z :=
  let '(replay_lsn, checkpoint_lsn) := st in
  let replay_lsn' := replay_lsn + redo.RedoRecord_len redo_record in
  (replay_lsn',
   if redo.action redo_record =? redo.CHECKPOINT
   then replay_lsn' else checkpoint_lsn).

(** The first loop of [recovery]: the lsn just after the last CHECKPOINT. *)
Definition find_checkpoint (records : list redo.RedoRecord) : Z :=
  snd (fold_left checkpoint_step records (0, 0)).

Definition set_current_xid (xid0 : Z) : M DB unit :=
  on_mgr (modify (fun t =>
    mkTransactionManager (redo_mgr t) (undo_mgr t) xid0 (thread_local_xid t))).

(** [transactions.remove(xid)] *)
Fixpoint list_remove (xid0 : Z) (l : list Z) : result (list Z) :=
  match l with
  | [] => Raise ValueError
  | h :: rest =>
      if h =? xid0 then Ok rest
      else rbind (list_remove xid0 rest) (fun rest' => Ok (h :: rest'))
  end.

Definition page_lsn (page : option Page) : M DB Z :=
  match page with
  | Some p => ret (lsn (page_header p))
  | None => raise AttributeError
  end.

(** The TABLE_INSERT, TABLE_DELETE and TABLE_UPDATE branches of the
    second loop of [recovery]: apply only to a page older than the record. *)
Definition redo_table_insert (redo_record : redo.RedoRecord) (replay_lsn : Z)
    : M DB unit :=
  (loc <- unpack (redo.relation redo_record) (redo.location redo_record) ;;
   let '(table_name, pageno, sid) := loc in
   page <- table_tuple_get_page table_name pageno ;;
   page_lsn0 <- page_lsn page ;;
   if page_lsn0 <? replay_lsn then
     (new_sid <- on_page (table_name, pageno) page
                   (insert (redo.data redo_record)) ;;
      on_page (table_name, pageno) page (modify (set_header replay_lsn)) ;;;
      py_assert (new_sid =? sid))
   else ret tt)%py.

Definition redo_table_delete (redo_record : redo.RedoRecord) (replay_lsn : Z)
    : M DB unit :=
  (loc <- unpack (redo.relation redo_record) (redo.location redo_record) ;;
   let '(table_name, pageno, sid) := loc in
   page <- table_tuple_get_page table_name pageno ;;
   page_lsn0 <- page_lsn page ;;
   if page_lsn0 <? replay_lsn then
     (on_page (table_name, pageno) page (delete sid) ;;;
      on_page (table_name, pageno) page (modify (set_header replay_lsn)))
   else ret tt)%py.

Definition redo_table_update (redo_record : redo.RedoRecord) (replay_lsn : Z)
    : M DB unit :=
  (loc <- unpack (redo.relation redo_record) (redo.location redo_record) ;;
   let '(table_name, pageno, sid) := loc in
   page <- table_tuple_get_page table_name pageno ;;
   page_lsn0 <- page_lsn page ;;
   if page_lsn0 <? replay_lsn then
     (on_page (table_name, pageno) page
        (update sid (redo.data redo_record)) ;;;
      on_page (table_name, pageno) page (modify (set_header replay_lsn)))
   else ret tt)%py.

(** The body of the second loop of [recovery]; the local variables are
    [replay_lsn] and [transactions]. *)
Definition replay_one (locals : Z * list Z) (redo_record : redo.RedoRecord)
    : M DB (Z * list Z) :=
  let '(replay_lsn0, transactions) := locals in
  let replay_lsn := replay_lsn0 + redo.RedoRecord_len redo_record in
  let xid0 := redo.xid redo_record in
  let act := redo.action redo_record in
  if act =? redo.BEGIN then
    (set_current_xid xid0 ;;;
     ret (replay_lsn, transactions ++ [xid0]))%py
  else if act =? redo.TABLE_INSERT then
    (redo_table_insert redo_record replay_lsn ;;;
     ret (replay_lsn, transactions))%py
  else if act =? redo.TABLE_DELETE then
    (redo_table_delete redo_record replay_lsn ;;;
     ret (replay_lsn, transactions))%py
  else if act =? redo.TABLE_UPDATE then
    (redo_table_update redo_record replay_lsn ;;;
     ret (replay_lsn, transactions))%py
  else if act =? redo.ABORT then
    (perform_undo xid0 replay_lsn ;;;
     ret (replay_lsn, transactions))%py
  else if act =? redo.COMMIT then
    (transactions' <- lift_result (list_remove xid0 transactions) ;;
     ret (replay_lsn, transactions'))%py
  else ret (replay_lsn, transactions).

(** The last loop of [recovery]: abort what is still in flight. *)
Definition abort_in_flight (xid0 : Z) : M DB unit :=
  (lsn0 <- on_redo (redo.write (redo.mkRedoRecord xid0 redo.ABORT None None [])) ;;
   perform_undo xid0 lsn0)%py.

Definition set_lsns (flush_lsn0 : Z) : M DB unit :=
  on_redo (modify (fun m =>
    redo.mkRedoLogManager (redo.log_file m) (redo.log_buffer m)
                          flush_lsn0 flush_lsn0)).

(** [recovery] up to the end of the replay loop; the result is the local
    list [transactions] at that point. *)
Definition recovery_replay : M DB (list Z) :=
  (db <- get_state ;;
   let mgr := redo_mgr (transaction_mgr db) in
   let flush_lsn0 :=
     match redo.log_file mgr with
     | None => 0
     | Some file => redo.total_len file
     end in
   set_lsns flush_lsn0 ;;;
   all_records <- lift_result (redo.replay mgr 0) ;;
   let checkpoint_lsn := find_checkpoint all_records in
   records <- lift_result (redo.replay mgr checkpoint_lsn) ;;
   locals <- for_each_acc records (checkpoint_lsn, []) replay_one ;;
   ret (snd locals))%py.

Definition recovery : M DB unit :=
  (transactions <- recovery_replay ;;
   for_each transactions abort_in_flight)%py.

Definition set_thread_local_xid (xid0 : Z) : M DB unit :=
  on_mgr (modify (fun t =>
    mkTransactionManager (redo_mgr t) (undo_mgr t) (current_xid t) (Some xid0))).

Definition start_transaction : M DB Z :=
  (db <- get_state ;;
   let xid0 := current_xid (transaction_mgr db) + 1 in
   set_current_xid xid0 ;;;
   set_thread_local_xid xid0 ;;;
   on_undo (undo.start_transaction xid0) ;;;
   on_redo (redo.write (redo.mkRedoRecord xid0 redo.BEGIN None None [])) ;;;
   ret xid0)%py.

Definition commit_transaction (xid0 : Z) : M DB unit :=
  (on_undo (undo.flush xid0) ;;;
   db <- get_state ;;
   match thread_local_xid (transaction_mgr db) with
   | None => raise AttributeError
   | Some own =>
       on_redo (redo.write (redo.mkRedoRecord own redo.COMMIT None None [])) ;;;
       on_undo (undo.commit_transaction xid0)
   end)%py.

Definition abort_transaction (xid0 : Z) : M DB unit :=
  (lsn0 <- on_redo (redo.write (redo.mkRedoRecord xid0 redo.ABORT None None [])) ;;
   on_undo (undo.flush xid0) ;;;
   perform_undo xid0 lsn0 ;;;
   on_undo (undo.abort_transaction xid0))%py.

End TransactionManager.

End transaction.

(** ** storage/entry.py: heap access *)

Module entry.
Import slotted_page lru state common.

(** [table_tuple_update_one] returns a slot index, or the pair that
    [table_tuple_insert_one] returned on the fallback path. *)
Inductive sid_or_location : Type :=
| Sid (sid : Z)
| Location (l : location_t).

Section Heap.
Context `{External}.

Definition select_ (k : page_key) (page : option Page) (sid : Z) : M DB bytes :=
  on_page k page (fun p => (p, select sid p)).

Definition table_tuple_get_one (table_name : string) (location : location_t)
    : M DB py_tuple :=
  let '(pageno, sid) := location in
  (page <- table_tuple_get_page table_name pageno ;;
   record <- select_ (table_name, pageno) page sid ;;
   lift_result (bytes_to_tuple record))%py.

Definition table_tuple_is_dead (table_name : string) (location : location_t)
    : M DB bool :=
  (tup <- table_tuple_get_one table_name location ;;
   ret (len tup =? 0))%py.

Definition table_tuple_get_last_pageno (table_name : string) : M DB Z :=
  (pages <- table_tuple_get_pages table_name ;;
   ret (Z.max (pages - 1) 0))%py.

Definition table_tuple_allocate_page (table_name : string) : M DB Z :=
  (pageno <- table_tuple_get_last_pageno table_name ;;
   table_tuple_get_page table_name pageno ;;;
   new_pageno <- table_tuple_get_last_pageno table_name ;;
   py_assert (new_pageno =? pageno + 1) ;;;
   ret new_pageno)%py.

(** The two log writes and the header stamp that follow a page mutation;
    [stamped] is the page object whose [set_header] is called. *)
Definition write_logs (undo_record : undo.UndoRecord)
    (redo_record : redo.RedoRecord) (stamped : page_key) (page : option Page)
    : M DB unit :=
  (on_undo (undo.write undo_record) ;;;
   lsn0 <- on_redo (redo.write redo_record) ;;
   on_page stamped page (modify (set_header lsn0)))%py.

(** The [except PageError] branch of [table_tuple_insert_one]; [pageno] and
    [page] are the page that was full. *)
Definition insert_one_fallback (table_name : string) (pageno : Z)
    (page : option Page) (xid0 : Z) (tuple_bytes : bytes) : M DB Z :=
  (new_pageno <- table_tuple_allocate_page table_name ;;
   new_page <- table_tuple_get_page table_name new_pageno ;;
   sid <- on_page (table_name, new_pageno) new_page (insert tuple_bytes) ;;
   on_pool (mark_dirty (table_name, new_pageno)) ;;;
   write_logs
     (undo.mkUndoRecord xid0 undo.TABLE_DELETE (Some table_name)
        (Some (new_pageno, sid)) (undo.Bytes []))
     (redo.mkRedoRecord xid0 redo.TABLE_INSERT (Some table_name)
        (Some (new_pageno, sid)) tuple_bytes)
     (table_name, pageno) page ;;;
   ret sid)%py.

Definition table_tuple_insert_one (table_name : string) (tup : py_tuple)
    : M DB location_t :=
  (pageno0 <- table_tuple_get_last_pageno table_name ;;
   pageno <- (if pageno0 <? 0 then table_tuple_allocate_page table_name
              else ret pageno0) ;;
   page <- table_tuple_get_page table_name pageno ;;
   db <- get_state ;;
   let xid0 := session_xid db in
   let tuple_bytes := tuple_to_bytes tup in
   sid <-
     try_except
       (sid <- on_page (table_name, pageno) page (insert (tuple_to_bytes tup)) ;;
        on_pool (mark_dirty (table_name, pageno)) ;;;
        write_logs
          (undo.mkUndoRecord xid0 undo.TABLE_DELETE (Some table_name)
             (Some (pageno, sid)) (undo.Bytes []))
          (redo.mkRedoRecord xid0 redo.TABLE_INSERT (Some table_name)
             (Some (pageno, sid)) tuple_bytes)
          (table_name, pageno) page ;;;
        ret sid)
       is_PageError
       (insert_one_fallback table_name pageno page xid0 tuple_bytes) ;;
   ret (pageno, sid))%py.

Definition table_tuple_delete_one (table_name : string) (location : location_t)
    : M DB unit :=
  let '(pageno, sid) := location in
  (page <- table_tuple_get_page table_name pageno ;;
   db <- get_state ;;
   let xid0 := session_xid db in
   old_tuple <- table_tuple_get_one table_name location ;;
   let old_tuple_bytes := tuple_to_bytes old_tuple in
   on_page (table_name, pageno) page (delete sid) ;;;
   on_pool (mark_dirty (table_name, pageno)) ;;;
   write_logs
     (undo.mkUndoRecord xid0 undo.TABLE_INSERT (Some table_name)
        (Some (pageno, sid)) (undo.Bytes old_tuple_bytes))
     (redo.mkRedoRecord xid0 redo.TABLE_DELETE (Some table_name)
        (Some (pageno, sid)) [])
     (table_name, pageno) page)%py.

Definition table_tuple_update_one (table_name : string) (location : location_t)
    (tup : py_tuple) : M DB sid_or_location :=
  let '(pageno, sid) := location in
  (page <- table_tuple_get_page table_name pageno ;;
   db <- get_state ;;
   let xid0 := session_xid db in
   old_record <- select_ (table_name, pageno) page sid ;;
   let old_tuple_bytes := dumps_bytes old_record in
   try_except
     (new_sid <- on_page (table_name, pageno) page
                   (update sid (tuple_to_bytes tup)) ;;
      on_pool (mark_dirty (table_name, pageno)) ;;;
      write_logs
        (undo.mkUndoRecord xid0 undo.TABLE_UPDATE (Some table_name)
           (Some (pageno, sid)) (undo.Bytes old_tuple_bytes))
        (redo.mkRedoRecord xid0 redo.TABLE_UPDATE (Some table_name)
           (Some (pageno, new_sid)) (tuple_to_bytes tup))
        (table_name, pageno) page ;;;
      ret (Sid new_sid))
     is_PageError
     (table_tuple_delete_one table_name location ;;;
      new_location <- table_tuple_insert_one table_name tup ;;
      ret (Location new_location)))%py.

Definition table_tuple_delete_multiple (table_name : string)
    (locations : list location_t) : M DB unit :=
  for_each locations (table_tuple_delete_one table_name).

End Heap.

End entry.

(** ** A stand-in for [pickle], to run the embedding on concrete inputs *)

Module sample.
Import slotted_page.

Definition string_bytes (s : string) : bytes :=
  map (fun a => byte_of_Z (Z.of_nat (Ascii.nat_of_ascii a)))
      (String.list_ascii_of_string s).

Definition bytes_string (b : bytes) : string :=
  String.string_of_list_ascii
    (map (fun x => Ascii.ascii_of_nat (Z.to_nat (Z_of_byte x))) b).

(** One value: a tag byte, then one byte of an integer, or a length byte
    and the characters of a string. *)
Definition dumps_value (v : py_value) : bytes :=
  match v with
  | PyNone => [x00]
  | PyInt n => [x01; byte_of_Z n]
  | PyStr s => [x02; byte_of_Z (len (string_bytes s))] ++ string_bytes s
  end.

Fixpoint loads_values (fuel : nat) (b : bytes) : result py_tuple :=
  match fuel with
  | O => match b with [] => Ok [] | _ => Raise UnpicklingError end
  | S fuel' =>
      match b with
      | [] => Ok []
      | x00 :: rest => rbind (loads_values fuel' rest) (fun t => Ok (PyNone :: t))
      | x01 :: n :: rest =>
          rbind (loads_values fuel' rest) (fun t => Ok (PyInt (Z_of_byte n) :: t))
      | x02 :: n :: rest =>
          let k := Z.to_nat (Z_of_byte n) in
          rbind (loads_values fuel' (drop k rest))
                (fun t => Ok (PyStr (bytes_string (take k rest)) :: t))
      | _ => Raise UnpicklingError
      end
  end.

Definition dumps_option_string (o : option string) : bytes :=
  match o with None => [x00] | Some s => dumps_value (PyStr s) end.

Definition dumps_location (o : option location_t) : bytes :=
  match o with
  | None => [x00]
  | Some (pageno, sid) => x01 :: le_encode 4 pageno ++ le_encode 4 sid
  end.

#[export] Instance pickle : External := {|
  dumps_tuple t := xff :: concat (map dumps_value t);
  loads_tuple b :=
    match b with
    | xff :: rest => loads_values (List.length rest) rest
    | _ => Raise UnpicklingError
    end;
  dumps_bytes b := xfe :: b;
  dumps_record xid0 action0 relation0 location0 data0 :=
    le_encode 8 xid0 ++ [byte_of_Z action0] ++ dumps_option_string relation0
    ++ dumps_location location0 ++ data0;
  index_files := unit;
  index_insert _ _ _ i := (i, Ok tt);
  index_delete _ _ _ i := (i, Ok tt)
|}.

End sample.

(** ** storage/bplus_tree.py *)

Module bplus_tree.

(** *** class BPlusTreeTuple: keys are tuples of column values *)

(** [a == b] on column values. *)
Definition value_eqb (a b : py_value) : bool :=
  match a, b with
  | PyNone, PyNone => true
  | PyInt m, PyInt n => m =? n
  | PyStr m, PyStr n => String.eqb m n
  | _, _ => false
  end.

(** [a < b] on column values that are not [None]; an integer and a string
    do not compare. *)
Definition value_ltb (a b : py_value) : result bool :=
  match a, b with
  | PyInt m, PyInt n => Ok (m <? n)
  | PyStr m, PyStr n => Ok (String.ltb m n)
  | _, _ => Raise TypeError
  end.

Definition _cmp (a b : py_value) : result Z :=
  match a, b with
  | PyNone, PyNone => Ok 0
  | PyNone, _ => Ok (-1)
  | _, PyNone => Ok 1
  | _, _ =>
      if value_eqb a b then Ok 0
      else rbind (value_ltb a b) (fun lt => Ok (if lt then -1 else 1))
  end.

Fixpoint tuple_eqb (x y : py_tuple) : bool :=
  match x, y with
  | [], [] => true
  | a :: x', b :: y' => value_eqb a b && tuple_eqb x' y'
  | _, _ => false
  end.

Definition __eq__ (self other : py_tuple) : bool := tuple_eqb self other.

(** The [for i in range(len(self.tup))] loop of [__lt__]. *)
Fixpoint lt_loop (x y : py_tuple) : result bool :=
  match x, y with
  | a :: x', b :: y' =>
      rbind (_cmp a b) (fun r =>
        if r =? 0 then lt_loop x' y'
        else if r <? 0 then Ok true else Ok false)
  | _, _ => Ok false
  end.

Definition __lt__ (self other : py_tuple) : result bool :=
  if len self =? len other then lt_loop self other else Raise AssertionError.

Definition __le__ (self other : py_tuple) : result bool :=
  if __eq__ self other then Ok true else __lt__ self other.

Definition __ge__ (self other : py_tuple) : result bool :=
  if __eq__ self other then Ok true
  else rbind (__lt__ self other) (fun lt => Ok (negb lt)).

Definition __gt__ (self other : py_tuple) : result bool :=
  if __eq__ self other then Ok false
  else rbind (__lt__ self other) (fun lt => Ok (negb lt)).

(** [tuple(xs) < tuple(ys)] on tuples of keys: the first position where
    the elements are not [==] decides with [<]; a proper prefix is less. *)
Fixpoint keys_lt (xs ys : list py_tuple) : result bool :=
  match xs, ys with
  | [], [] => Ok false
  | [], _ :: _ => Ok true
  | _ :: _, [] => Ok false
  | x :: xs', y :: ys' => if __eq__ x y then keys_lt xs' ys' else __lt__ x y
  end.

(** *** class BPlusTreeNode *)

(** Node objects live in the tree's [nodes], under their [pageno]; a
    reference to a node is its [pageno] ([__eq__] and [__hash__] of the
    class compare exactly that). *)
Record BPlusTreeNode : Type := mkBPlusTreeNode {
  is_leaf : bool;
  keys : list py_tuple;
  children : list Z;
  values : list location_t;
  next_leaf : option Z;
  pageno : Z
}.

Definition get_child (node : BPlusTreeNode) (i : Z) : result (option Z) :=
  if i >=? len (children node) then Ok (next_leaf node)
  else rbind (py_index (children node) i) (fun c => Ok (Some c)).

(** *** class BPlusTree *)

Record BPlusTree : Type := mkBPlusTree {
  nodes : gmap Z BPlusTreeNode;
  root : Z;
  node_count : Z
}.

Definition allocate_node (leaf : bool) : M BPlusTree Z := fun t =>
  let node := mkBPlusTreeNode leaf [] [] [] None (node_count t) in
  (mkBPlusTree (<[node_count t := node]> (nodes t)) (root t) (node_count t + 1),
   Ok (node_count t)).

(** [BPlusTree(filename)]: a new tree whose root is an empty leaf. *)
Definition BPlusTree_new : BPlusTree :=
  let '(t, _) := allocate_node true (mkBPlusTree ∅ 0 0) in
  mkBPlusTree (nodes t) 0 (node_count t).

(** The node object behind a reference; [None] has no attributes. *)
Definition node_at (t : BPlusTree) (ref : option Z) : result BPlusTreeNode :=
  match ref with
  | None => Raise AttributeError
  | Some p => match nodes t !! p with
              | Some node => Ok node
              | None => Raise AttributeError
              end
  end.

Definition set_node (node : BPlusTreeNode) : M BPlusTree unit := fun t =>
  (mkBPlusTree (<[pageno node := node]> (nodes t)) (root t) (node_count t), Ok tt).

Definition _need_split (node : BPlusTreeNode) : bool := len (keys node) >? 10.

(** The [while i < len(node.keys)] loops, from index [i]. *)
Fixpoint _find_rightmost_from (ks : list py_tuple) (key : py_tuple) (i : Z)
    : result Z :=
  match ks with
  | [] => Ok i
  | k :: rest =>
      rbind (__le__ k key) (fun le =>
        if le then _find_rightmost_from rest key (i + 1) else Ok i)
  end.

Definition _find_rightmost_key_index (node : BPlusTreeNode) (key : py_tuple)
    : result Z :=
  _find_rightmost_from (keys node) key 0.

Fixpoint _find_leftmost_from (ks : list py_tuple) (key : py_tuple) (i : Z)
    : result Z :=
  match ks with
  | [] => Ok i
  | k :: rest =>
      rbind (__le__ key k) (fun le =>
        if le then Ok i else _find_leftmost_from rest key (i + 1))
  end.

Definition _find_leftmost_key_index (node : BPlusTreeNode) (key : py_tuple)
    : result Z :=
  _find_leftmost_from (keys node) key 0.

(** The first loop of [find_leaf_node]: down from [ref] to a leaf. *)
Fixpoint descend (fuel : nat) (t : BPlusTree) (ref : option Z) (key : py_tuple)
    : result (option Z) :=
  match ref with
  | None => Ok None
  | Some _ =>
      rbind (node_at t ref) (fun node =>
      if is_leaf node then Ok ref
      else match fuel with
           | O => Raise OutOfFuel
           | S fuel' =>
               rbind (_find_leftmost_key_index node key) (fun index =>
               rbind (if index >=? len (keys node)
                      then rbind (py_index (children node) (-1))
                                 (fun c => Ok (Some c))
                      else get_child node index) (fun next =>
               descend fuel' t next key))
           end)
  end.

(** [xs[-1]] *)
Definition last_key (ks : list py_tuple) : result py_tuple := py_index ks (-1).

(** The second loop of [find_leaf_node]: rightwards while the leaf's
    largest key is below [key]. *)
Fixpoint advance (fuel : nat) (t : BPlusTree) (ref : option Z) (key : py_tuple)
    : result (option Z) :=
  rbind (node_at t ref) (fun node =>
  match keys node with
  | [] => Ok ref
  | _ :: _ =>
      rbind (last_key (keys node)) (fun k =>
      rbind (__lt__ k key) (fun lt =>
      if lt then
        match next_leaf node with
        | None => Ok ref
        | Some _ =>
            match fuel with
            | O => Raise OutOfFuel
            | S fuel' => advance fuel' t (next_leaf node) key
            end
        end
      else Ok ref))
  end).

(** Loops over the nodes of a tree end within [node_count] rounds unless
    the references form a cycle. *)
Definition fuel_of (t : BPlusTree) : nat := S (Z.to_nat (node_count t)).

Definition find_leaf_node (t : BPlusTree) (key : py_tuple) : result (option Z) :=
  rbind (descend (fuel_of t) t (Some (root t)) key) (fun leaf =>
  advance (fuel_of t) t leaf key).

(** [l.insert(i, x)] for [0 <= i]. *)
Definition list_insert {A} (i : Z) (x : A) (l : list A) : list A :=
  take (Z.to_nat i) l ++ [x] ++ drop (Z.to_nat i) l.

(** [l.index(x)] *)
Fixpoint list_index (x : Z) (l : list Z) (i : Z) : result Z :=
  match l with
  | [] => Raise ValueError
  | h :: rest => if h =? x then Ok i else list_index x rest (i + 1)
  end.

Definition mem (x : Z) (l : list Z) : bool := existsb (Z.eqb x) l.

(** [_find_parent(self.root, target)]: the root if it is a leaf or has
    [target] among its children, else the first child of the root that
    has, else [None]. *)
Fixpoint first_parent_among (t : BPlusTree) (cs : list Z) (target : Z)
    : result (option Z) :=
  match cs with
  | [] => Ok None
  | c :: rest =>
      rbind (node_at t (Some c)) (fun child =>
      if mem target (children child) then Ok (Some c)
      else first_parent_among t rest target)
  end.

Definition _find_parent (t : BPlusTree) (current target : Z) : result (option Z) :=
  rbind (node_at t (Some current)) (fun cur =>
  if is_leaf cur || mem target (children cur) then Ok (Some current)
  else first_parent_among t (children cur) target).

Definition head_key (ks : list py_tuple) : result py_tuple := py_index ks 0.

Definition set_root (p : Z) : M BPlusTree unit := fun t =>
  (mkBPlusTree (nodes t) p (node_count t), Ok tt).

(** [_split(node)]; [fuel] bounds the recursion into the parents. *)
Fixpoint _split (fuel : nat) (ref : Z) : M BPlusTree unit :=
  (t <- get_state ;;
   node <- lift_result (node_at t (Some ref)) ;;
   let middle_index := len (keys node) / 2 in
   right_ref <- allocate_node (is_leaf node) ;;
   let right_node :=
     mkBPlusTreeNode (is_leaf node)
       (drop (Z.to_nat middle_index) (keys node))
       (drop (Z.to_nat middle_index) (children node))
       (drop (Z.to_nat middle_index) (values node))
       (next_leaf node) right_ref in
   let left_node :=
     mkBPlusTreeNode (is_leaf node)
       (take (Z.to_nat middle_index) (keys node))
       (take (Z.to_nat middle_index) (children node))
       (take (Z.to_nat middle_index) (values node))
       (Some right_ref) (pageno node) in
   set_node right_node ;;;
   set_node left_node ;;;
   py_assert ((len (keys left_node) >? 0) && (len (keys right_node) >? 0)) ;;;
   ordered <- lift_result (keys_lt (keys left_node) (keys right_node)) ;;
   py_assert ordered ;;;
   separator <- lift_result (head_key (keys right_node)) ;;
   if ref =? root t then
     (new_root <- allocate_node false ;;
      set_node (mkBPlusTreeNode false [separator] [ref; right_ref] [] None
                                new_root) ;;;
      set_root new_root)
   else
     (t1 <- get_state ;;
      parent_ref <- lift_result (_find_parent t1 (root t1) ref) ;;
      parent <- lift_result (node_at t1 parent_ref) ;;
      index <- lift_result (list_index ref (children parent) 0) ;;
      let parent' :=
        mkBPlusTreeNode (is_leaf parent)
          (list_insert index separator (keys parent))
          (list_insert (index + 1) right_ref (children parent))
          (values parent) (next_leaf parent) (pageno parent) in
      set_node parent' ;;;
      if _need_split parent' then
        match fuel with
        | O => raise OutOfFuel
        | S fuel' => _split fuel' (pageno parent')
        end
      else ret tt))%py.

Definition insert (key : py_tuple) (value : location_t) : M BPlusTree unit :=
  (t <- get_state ;;
   leaf <- lift_result (find_leaf_node t key) ;;
   node <- lift_result (node_at t leaf) ;;
   index <- lift_result (_find_rightmost_key_index node key) ;;
   let node' :=
     mkBPlusTreeNode (is_leaf node)
       (list_insert index key (keys node)) (children node)
       (list_insert index value (values node)) (next_leaf node) (pageno node) in
   set_node node' ;;;
   if _need_split node' then _split (fuel_of t) (pageno node') else ret tt)%py.

(** [_find_indexes(keys, key)] *)
Fixpoint _find_indexes (ks : list py_tuple) (key : py_tuple) (i : Z)
    : result (list Z) :=
  match ks with
  | [] => Ok []
  | k :: rest =>
      if __eq__ key k
      then rbind (_find_indexes rest key (i + 1)) (fun l => Ok (i :: l))
      else rbind (__gt__ k key) (fun gt =>
             if gt then Ok [] else _find_indexes rest key (i + 1))
  end.

(** [l.pop(i)] *)
Definition list_pop {A} (i : Z) (l : list A) : list A :=
  take (Z.to_nat i) l ++ drop (S (Z.to_nat i)) l.

Definition location_eqb (a b : location_t) : bool :=
  (fst a =? fst b) && (snd a =? snd b).

(** The inner [while i < len(indexes)] loop of [delete]. *)
Fixpoint delete_at (indexes : list Z) (deleted_count : Z) (value : option location_t)
    (ks : list py_tuple) (vs : list location_t)
    : result (list py_tuple * list location_t) :=
  match indexes with
  | [] => Ok (ks, vs)
  | index :: rest =>
      let actual_index := index - deleted_count in
      match value with
      | Some v =>
          rbind (py_index vs actual_index) (fun stored =>
          if negb (location_eqb stored v)
          then delete_at rest deleted_count value ks vs
          else delete_at rest (deleted_count + 1) value
                 (list_pop actual_index ks) (list_pop actual_index vs))
      | None =>
          delete_at rest (deleted_count + 1) value
            (list_pop actual_index ks) (list_pop actual_index vs)
      end
  end.

(** The [while node] loop of [delete], along the leaves. *)
Fixpoint delete_from (fuel : nat) (ref : option Z) (key : py_tuple)
    (value : option location_t) : M BPlusTree unit :=
  match ref with
  | None => ret tt
  | Some _ =>
      (t <- get_state ;;
       node <- lift_result (node_at t ref) ;;
       indexes <- lift_result (_find_indexes (keys node) key 0) ;;
       match indexes with
       | [] => ret tt
       | _ :: _ =>
           kv <- lift_result
                   (delete_at indexes 0 value (keys node) (values node)) ;;
           set_node (mkBPlusTreeNode (is_leaf node) (fst kv) (children node)
                                     (snd kv) (next_leaf node) (pageno node)) ;;;
           match fuel with
           | O => raise OutOfFuel
           | S fuel' => delete_from fuel' (next_leaf node) key value
           end
       end)%py
  end.

Definition delete (key : py_tuple) (value : option location_t) : M BPlusTree unit :=
  (t <- get_state ;;
   leaf <- lift_result (find_leaf_node t key) ;;
   delete_from (fuel_of t) leaf key value)%py.

(** *** Reading the leaves in [next_leaf] order *)

(** The leftmost leaf: down the first children from the root. *)
Fixpoint leftmost_leaf (fuel : nat) (t : BPlusTree) (ref : Z) : result Z :=
  rbind (node_at t (Some ref)) (fun node =>
  if is_leaf node then Ok ref
  else match fuel, children node with
       | S fuel', c :: _ => leftmost_leaf fuel' t c
       | _, _ => Raise OutOfFuel
       end).

Fixpoint chain_keys (fuel : nat) (t : BPlusTree) (ref : option Z)
    : result (list py_tuple) :=
  match ref with
  | None => Ok []
  | Some _ =>
      rbind (node_at t ref) (fun node =>
      match fuel with
      | O => Raise OutOfFuel
      | S fuel' =>
          rbind (chain_keys fuel' t (next_leaf node)) (fun rest =>
          Ok (keys node ++ rest))
      end)
  end.

Definition leaf_keys (t : BPlusTree) : result (list py_tuple) :=
  rbind (leftmost_leaf (fuel_of t) t (root t)) (fun first =>
  chain_keys (fuel_of t) t (Some first)).

(** Non-decreasing order of a list of keys. *)
Fixpoint non_decreasing (ks : list py_tuple) : result bool :=
  match ks with
  | a :: (b :: _) as rest =>
      rbind (__le__ a b) (fun le =>
      if le then non_decreasing rest else Ok false)
  | _ => Ok true
  end.

Inductive tree_op : Type :=
| Insert (key : py_tuple) (value : location_t)
| Delete (key : py_tuple) (value : option location_t).

Definition run_tree_op (o : tree_op) : M BPlusTree unit :=
  match o with
  | Insert key value => insert key value
  | Delete key value => delete key value
  end.

Definition run_tree_ops (ops : list tree_op) : M BPlusTree unit :=
  for_each ops run_tree_op.

End bplus_tree.

(** ** lock/lock.py *)

Module lock.

Definition lock_wait_timeout : Z := 1.

(** The two strings ['s'] and ['x'] that [acquire_lock] asserts. *)
Inductive mode : Type := s | x.

Definition mode_eqb (a b : mode) : bool :=
  match a, b with s, s => true | x, x => true | _, _ => false end.

(** [set(l) == {e}] *)
Definition if_only_duplicated_elements (l : list Z) (e : Z) : bool :=
  bool_decide ((list_to_set l : gset Z) = {[e]}).

Record lock_entry : Type := mk_lock_entry {
  lock_mode : mode;
  holders : list Z
}.

Section LockManager.
Context {R : Type} `{Countable R}.

(** What the calling thread does, in order: a try under the mutex with its
    outcome, or a [time.sleep]. *)
Inductive event : Type :=
| Tried (success : bool)
| Slept (seconds : Z).

Record LockManager : Type := mkLockManager {
  locks : gmap R lock_entry;
  trace : list event
}.

(** What the other threads do to the lock table while this one sleeps. *)
Variable others : gmap R lock_entry -> gmap R lock_entry.

Definition _acquire_lock (resource : R) (xid : Z) (md : mode)
    (lk : gmap R lock_entry) : gmap R lock_entry * bool :=
  match lk !! resource with
  | None => (<[resource := mk_lock_entry md [xid]]> lk, true)
  | Some e =>
      if mode_eqb (lock_mode e) s && mode_eqb md s then
        (<[resource := mk_lock_entry (lock_mode e) (holders e ++ [xid])]> lk, true)
      else if mode_eqb (lock_mode e) s && mode_eqb md x then
        if if_only_duplicated_elements (holders e) xid
        then (<[resource := mk_lock_entry x (holders e ++ [xid])]> lk, true)
        else (lk, false)
      else if mode_eqb (lock_mode e) x && mode_eqb md s then
        if if_only_duplicated_elements (holders e) xid
        then (<[resource := mk_lock_entry (lock_mode e) (holders e ++ [xid])]> lk,
              true)
        else (lk, false)
      else (lk, false)
  end.

Definition try_lock (resource : R) (xid : Z) (md : mode) : M LockManager bool :=
  fun m =>
    let '(lk, success) := _acquire_lock resource xid md (locks m) in
    (mkLockManager lk (trace m ++ [Tried success]), Ok success).

Definition sleep (seconds : Z) : M LockManager unit := fun m =>
  (mkLockManager (others (locks m)) (trace m ++ [Slept seconds]), Ok tt).

(** The [while not success and try_count < 2] loop; [remaining] is
    [2 - try_count], and the result is the final [success]. *)
Fixpoint acquire_loop (remaining : nat) (resource : R) (xid : Z) (md : mode)
    : M LockManager bool :=
  match remaining with
  | O => ret false
  | S remaining' =>
      (success <- try_lock resource xid md ;;
       if success then ret true
       else (sleep lock_wait_timeout ;;;
             acquire_loop remaining' resource xid md))%py
  end.

Definition acquire_lock (resource : R) (xid : Z) (md : mode) : M LockManager unit :=
  (success <- acquire_loop 2 resource xid md ;;
   if success then ret tt else raise LockConflictError)%py.

(** [holders.remove(xid)]: the first occurrence. *)
Fixpoint remove_first (xid : Z) (l : list Z) : list Z :=
  match l with
  | [] => []
  | h :: rest => if h =? xid then rest else h :: remove_first xid rest
  end.

Definition release_lock (resource : R) (xid : Z) : M LockManager unit := fun m =>
  match locks m !! resource with
  | Some e =>
      if bool_decide (xid ∈ holders e) then
        let holders' := remove_first xid (holders e) in
        match holders' with
        | [] => (mkLockManager (base.delete resource (locks m)) (trace m), Ok tt)
        | _ => (mkLockManager
                  (<[resource := mk_lock_entry (lock_mode e) holders']> (locks m))
                  (trace m), Ok tt)
        end
      else (m, Ok tt)
  | None => (m, Ok tt)
  end.

End LockManager.
Arguments LockManager R {_ _}.

(** The grant matrix, in the words of the specification (section 4.8). *)
Definition sole_holder (xid : Z) (held_by : list Z) : bool :=
  forallb (Z.eqb xid) held_by.

Definition grant_matrix (held : option lock_entry) (xid : Z) (requested : mode)
    : bool :=
  match held, requested with
  | None, _ => true
  | Some (mk_lock_entry s _), s => true
  | Some (mk_lock_entry s held_by), x => sole_holder xid held_by
  | Some (mk_lock_entry x held_by), s => sole_holder xid held_by
  | Some (mk_lock_entry x _), x => false
  end.

End lock.

(** ** sql/optimizier/planner.py: access-path selection *)

Module planner.

(** A [TableColumn]. *)
Record TableColumn : Type := mkTableColumn {
  tc_table_name : string;
  column_name : string
}.

Inductive constant : Type :=
| CInt (n : Z)
| CStr (s : string).

(** One side of a [Condition]: a [TableColumn] or a constant's value. *)
Inductive operand : Type :=
| Column (c : TableColumn)
| Const (v : constant).

Record Condition : Type := mkCondition {
  sign : string;
  left : operand;
  right : operand
}.

(** A [ScanOperator]: the table, its columns and the pushed-down filter. *)
Record ScanOperator : Type := mkScanOperator {
  table_name : string;
  columns : list string;
  condition : option Condition
}.

(** A row of [catalog_index]. *)
Record CatalogIndexForm : Type := mkCatalogIndexForm {
  index_name : string;
  index_table_name : string;
  index_columns : list string
}.

Inductive physical_scan : Type :=
| TableScan (table : string) (cond : option Condition)
| IndexScan (index : string) (cond : option Condition)
| CoveredIndexScan (index : string) (cond : option Condition).

Definition is_table_column (o : operand) : list TableColumn :=
  match o with Column c => [c] | Const _ => [] end.

(** The inner [for index_column in catalog_index_form.columns] loop. *)
Fixpoint match_index_columns (condition_column : TableColumn)
    (cols : list string) (matched : bool) : bool :=
  match cols with
  | [] => matched
  | index_column :: rest =>
      if negb (String.eqb (column_name condition_column) index_column)
      then false
      else match_index_columns condition_column rest matched
  end.

(** The outer [for condition_column in condition_columns] loop, from
    [matched = True]. *)
Definition index_matched (condition_columns : list TableColumn)
    (form : CatalogIndexForm) : bool :=
  fold_left (fun matched cc => match_index_columns cc (index_columns form) matched)
            condition_columns true.

(** The first candidate as long as the scan's column list, if any. *)
Definition covering (node : ScanOperator) (candidates : list CatalogIndexForm)
    : option CatalogIndexForm :=
  List.find (fun c => len (columns node) =? len (index_columns c)) candidates.

Definition shortest (first : CatalogIndexForm) (candidates : list CatalogIndexForm)
    : CatalogIndexForm :=
  fold_left (fun shortest_index c =>
               if len (index_columns c) <? len (index_columns shortest_index)
               then c else shortest_index)
            candidates first.

Definition implement_scan (catalog_index : list CatalogIndexForm)
    (node : ScanOperator) : result physical_scan :=
  let results :=
    List.filter (fun r => String.eqb (index_table_name r) (table_name node))
                catalog_index in
  match results, condition node with
  | [], _ | _, None => Ok (TableScan (table_name node) (condition node))
  | _ :: _, Some cond =>
      let condition_columns :=
        is_table_column (left cond) ++ is_table_column (right cond) in
      if len condition_columns >=? 2 then Raise NotImplementedError
      else if len condition_columns =? 0
      then Ok (TableScan (table_name node) (condition node))
      else
        let candidate_indexes :=
          List.filter (index_matched condition_columns) results in
        match candidate_indexes with
        | [] => Ok (TableScan (table_name node) (condition node))
        | first :: _ =>
            match covering node candidate_indexes with
            | Some candidate_index =>
                Ok (CoveredIndexScan (index_name candidate_index) (condition node))
            | None =>
                Ok (IndexScan (index_name (shortest first candidate_indexes))
                              (condition node))
            end
        end
  end.

End planner.

(* ===================================================================== *)
(** * Verification *)
(* ===================================================================== *)

(** ** Python sequences *)

Lemma len_nonneg {A} (l : list A) : 0 <= len l.
Proof. unfold len. lia. Qed.

Lemma len_app {A} (l1 l2 : list A) : len (l1 ++ l2) = len l1 + len l2.
Proof. unfold len. rewrite length_app. lia. Qed.

Lemma len_nil {A} : len (@nil A) = 0.
Proof. reflexivity. Qed.

Lemma slice_app_tail {A} (l1 l2 : list A) :
  slice (l1 ++ l2) (len l1) (len l1 + len l2) = l2.
Proof.
  unfold slice, len.
  replace (Z.of_nat (length l1) + Z.of_nat (length l2) - Z.of_nat (length l1))
    with (Z.of_nat (length l2)) by lia.
  rewrite !Nat2Z.id, drop_app_length. apply firstn_all.
Qed.

Lemma py_norm_lt {A} (l : list A) i n :
  py_norm l i = Some n -> (n < length l)%nat.
Proof.
  unfold py_norm, len. intros H.
  destruct (0 <=? i) eqn:E1.
  - destruct (i <? Z.of_nat (length l)) eqn:E2; inversion H; subst. lia.
  - destruct (- Z.of_nat (length l) <=? i) eqn:E2; inversion H; subst. lia.
Qed.

Lemma py_norm_nonneg {A} (l : list A) i :
  0 <= i < len l -> py_norm l i = Some (Z.to_nat i).
Proof.
  intros [H1 H2]. unfold py_norm.
  apply Z.leb_le in H1. apply Z.ltb_lt in H2. now rewrite H1, H2.
Qed.

(** ** slotted_page.py: insertion (claim C4) *)

Module slotted_page_props.
Import slotted_page.

Lemma select_last (hd : PageHeader) (slots : list Slot) (recs record : bytes) :
  select (len slots)
    (mkPage hd (slots ++ [mkSlot (len recs) (len record) NORMAL]) (recs ++ record))
  = Ok record.
Proof.
  unfold select. cbn [slot_directory records].
  pose proof (len_nonneg slots) as Hn.
  rewrite len_app. change (len [_]) with 1.
  destruct (len slots >=? len slots + 1) eqn:E; [lia |].
  unfold py_index. rewrite py_norm_nonneg by (rewrite len_app; change (len [_]) with 1; lia).
  unfold len at 1. rewrite Nat2Z.id.
  rewrite lookup_app_r by lia. rewrite Nat.sub_diag. cbn.
  now rewrite slice_app_tail.
Qed.

(** C4, as the code has it: [insert] raises the page-full error exactly when
    header + enlarged slot directory + enlarged record region reaches or
    exceeds the page size; a failed insert leaves the page as it was; a
    successful one appends the record and a NORMAL slot pointing at it and
    returns that slot's index. *)
Theorem insert_full_or_appends (p : Page) (record : bytes) :
  let total := total_page_size p record in
  (snd (insert record p) = Raise PageError <-> PAGE_SIZE <= total)
  /\ (if PAGE_SIZE <=? total
      then insert record p = (p, Raise PageError)
      else exists p',
          insert record p = (p', Ok (len (slot_directory p)))
          /\ page_header p' = page_header p
          /\ slot_directory p'
             = slot_directory p ++ [mkSlot (len (records p)) (len record) NORMAL]
          /\ records p' = records p ++ record
          /\ select (len (slot_directory p)) p' = Ok record).
Proof.
  intros total. unfold insert, allocate_slot. fold total.
  destruct (total >=? PAGE_SIZE) eqn:E.
  - assert (PAGE_SIZE <= total) as Hle by lia.
    split; [cbn; tauto |].
    apply Z.leb_le in Hle. now rewrite Hle.
  - assert (total < PAGE_SIZE) as Hlt by lia.
    split.
    + cbn. split; [discriminate | lia].
    + destruct (PAGE_SIZE <=? total) eqn:E2; [lia |].
      eexists. split; [| split; [| split; [| split]]].
      * cbn [slot_directory]. rewrite len_app. change (len [_]) with 1.
        f_equal. f_equal. lia.
      * reflexivity.
      * reflexivity.
      * reflexivity.
      * unfold set_state, total_record_size. cbn [offset length].
        destruct p as [hd slots recs]. apply select_last.
Qed.

(** A record that fills an empty page to the last byte: 40 + 24 + 8128. *)
Definition exact_fit : bytes := replicate (Z.to_nat 8128) x00.

(** C4 as stated fails: a record that makes the page exactly full does not
    exceed the page size, yet [insert] raises. *)
Lemma insert_raises_on_exact_fit :
  ~ (forall (p : Page) (record : bytes),
        snd (insert record p) = Raise PageError
        <-> total_page_size p record > PAGE_SIZE).
Proof.
  intros H.
  specialize (H Page_new exact_fit).
  destruct H as [H _].
  assert (total_page_size Page_new exact_fit = PAGE_SIZE) as Heq
    by (vm_compute; reflexivity).
  rewrite Heq in H.
  assert (snd (insert exact_fit Page_new) = Raise PageError) as Hr
    by (vm_compute; reflexivity).
  specialize (H Hr). lia.
Qed.

End slotted_page_props.

(** ** slotted_page.py: the byte layout (claim C5) *)

Module slotted_page_layout.
Import slotted_page.

Lemma Z_of_byte_of_Z (z : Z) : Z_of_byte (byte_of_Z z) = z mod 256.
Proof.
  unfold Z_of_byte, byte_of_Z.
  pose proof (Z.mod_pos_bound z 256 ltac:(lia)) as Hb.
  destruct (Byte.of_N (Z.to_N (z mod 256))) as [b |] eqn:E.
  - apply Byte.to_of_N in E. rewrite E. lia.
  - apply Byte.of_N_None_iff in E. lia.
Qed.

Lemma length_le_encode (n : nat) (v : Z) : List.length (le_encode n v) = n.
Proof. revert v. induction n as [| n IH]; intros v; cbn; [| rewrite IH]; reflexivity. Qed.

Lemma le_decode_encode (n : nat) (v : Z) :
  le_decode (le_encode n v) = v mod 256 ^ Z.of_nat n.
Proof.
  revert v. induction n as [| n IH]; intros v.
  - cbn. now rewrite Z.mod_1_r.
  - cbn [le_encode le_decode]. rewrite Z_of_byte_of_Z, IH.
    rewrite Nat2Z.inj_succ, Z.pow_succ_r by lia.
    rewrite Z.rem_mul_r by lia. reflexivity.
Qed.

Lemma uint8_roundtrip (v : Z) :
  0 <= v < 2 ^ 64 ->
  exists b, uint8_to_bytes v = Ok b /\ len b = 8 /\ bytes_to_uint8 b = v.
Proof.
  intros [H0 H1]. unfold uint8_to_bytes.
  apply Z.leb_le in H0 as H0'. apply Z.ltb_lt in H1 as H1'. rewrite H0', H1'.
  cbn [andb]. eexists. split; [reflexivity |]. split.
  - unfold len. now rewrite length_le_encode.
  - unfold bytes_to_uint8. rewrite le_decode_encode.
    change (256 ^ Z.of_nat 8) with (2 ^ 64). apply Z.mod_small. lia.
Qed.

Lemma slice_middle {A} (pre mid post : list A) :
  slice (pre ++ mid ++ post) (len pre) (len pre + len mid) = mid.
Proof.
  unfold slice, len.
  replace (Z.of_nat (List.length pre) + Z.of_nat (List.length mid)
           - Z.of_nat (List.length pre))
    with (Z.of_nat (List.length mid)) by lia.
  rewrite !Nat2Z.id, drop_app_length. apply take_app_length.
Qed.

Definition in_u64 (v : Z) : Prop := 0 <= v < 2 ^ 64.

(** Writing a list of fields and reading it back at the same position. *)
Lemma fields_roundtrip (fields : list Z) :
  Forall in_u64 fields ->
  exists bs, serialize_fields fields = Ok bs
    /\ len bs = 8 * len fields
    /\ forall pre post,
        deserialize_fields (List.length fields) (pre ++ bs ++ post) (len pre)
        = fields.
Proof.
  induction 1 as [| v rest Hv Hrest IH].
  - exists []. repeat split; reflexivity.
  - destruct IH as (bs & Hs & Hl & Hd).
    destruct (uint8_roundtrip v Hv) as (b & Hb & Hlb & Hvb).
    exists (b ++ bs). cbn [serialize_fields]. rewrite Hb, Hs. cbn [rbind].
    split; [reflexivity |]. split.
    + rewrite len_app, Hl, Hlb. unfold len. cbn [List.length]. lia.
    + intros pre post. cbn [List.length deserialize_fields]. f_equal.
      * rewrite <- Hlb, <- app_assoc, slice_middle. exact Hvb.
      * replace (len pre + 8) with (len (pre ++ b)) by (rewrite len_app; lia).
        rewrite <- app_assoc.
        replace (pre ++ b ++ bs ++ post) with ((pre ++ b) ++ bs ++ post)
          by now rewrite <- app_assoc.
        apply Hd.
Qed.

Definition slot_u64 (s : Slot) : Prop :=
  in_u64 (offset s) /\ in_u64 (length s) /\ in_u64 (state s).

Lemma Slot_roundtrip (s : Slot) :
  slot_u64 s ->
  exists b, Slot_serialize s = Ok b /\ len b = Slot_size
    /\ Slot_deserialize b = Ok s.
Proof.
  intros (Ho & Hl & Hs).
  destruct (fields_roundtrip (Slot_fields s)) as (b & Hb & Hlen & Hd).
  { unfold Slot_fields. repeat (apply List.Forall_cons; [assumption |]). apply List.Forall_nil. }
  exists b. split; [exact Hb |]. split; [exact Hlen |].
  unfold Slot_deserialize. rewrite Hlen.
  change (8 * len (Slot_fields s) =? Slot_size) with true. cbn match.
  specialize (Hd [] []). rewrite app_nil_r in Hd.
  change (len (@nil byte)) with 0 in Hd. change ([] ++ b) with b in Hd.
  change (List.length (Slot_fields s)) with 3%nat in Hd.
  rewrite Hd. now destruct s.
Qed.

Lemma slots_roundtrip (slots : list Slot) :
  Forall slot_u64 slots ->
  exists sb, serialize_slots slots = Ok sb
    /\ len sb = Slot_size * len slots
    /\ forall pre post,
        deserialize_slots (pre ++ sb ++ post)
          (map (fun k => len pre + Slot_size * Z.of_nat k)
               (seq 0 (List.length slots)))
        = Ok slots.
Proof.
  induction 1 as [| s rest Hs Hrest IH].
  - exists []. repeat split; reflexivity.
  - destruct IH as (sb & Hsb & Hl & Hd).
    destruct (Slot_roundtrip s Hs) as (b & Hb & Hlb & Hdb).
    exists (b ++ sb). cbn [serialize_slots]. rewrite Hb, Hsb. cbn [rbind].
    split; [reflexivity |]. split.
    + rewrite len_app, Hl, Hlb. unfold len, Slot_size. cbn [List.length]. lia.
    + intros pre post. cbn [List.length seq map deserialize_slots].
      replace (len pre + Slot_size * Z.of_nat 0) with (len pre) by lia.
      rewrite <- Hlb at 1. rewrite <- app_assoc, slice_middle, Hdb. cbn [rbind].
      rewrite <- seq_shift, map_map.
      replace (pre ++ b ++ sb ++ post) with ((pre ++ b) ++ sb ++ post)
        by now rewrite <- app_assoc.
      erewrite map_ext; [rewrite Hd; reflexivity |].
      intros k. cbn beta. rewrite len_app, Hlb. lia.
Qed.

(** A page whose header was just set and whose fields fit their 8 bytes. *)
Definition storable (p : Page) : Prop :=
  in_u64 (lsn (page_header p))
  /\ in_u64 (flags (page_header p))
  /\ in_u64 (reserved (page_header p))
  /\ free_space_start (page_header p)
     = PageHeader_size + total_slot_directory_size p
  /\ free_space_end (page_header p) = PAGE_SIZE - len (records p)
  /\ PageHeader_size + total_slot_directory_size p + len (records p) <= PAGE_SIZE
  /\ Forall slot_u64 (slot_directory p).

Lemma py_range_slots {A} (l : list A) :
  py_range PageHeader_size (PageHeader_size + len l * Slot_size) Slot_size
  = map (fun k => PageHeader_size + Slot_size * Z.of_nat k)
        (seq 0 (List.length l)).
Proof.
  unfold py_range. f_equal. f_equal.
  replace (PageHeader_size + len l * Slot_size - PageHeader_size
           + Slot_size - 1) with (len l * Slot_size + (Slot_size - 1)) by lia.
  rewrite Z.div_add_l by (unfold Slot_size; lia).
  change ((Slot_size - 1) / Slot_size) with 0. unfold len. lia.
Qed.

Lemma storable_roundtrip (p : Page) :
  storable p ->
  exists buff, serialize p = Ok buff /\ len buff = PAGE_SIZE
    /\ deserialize buff = Ok p.
Proof.
  intros (Hlsn & Hfl & Hre & Hfs & Hfe & Hsz & Hslots).
  destruct p as [[l f r fs fe] slots recs]. cbn [page_header slot_directory
    records lsn flags reserved free_space_start free_space_end] in *.
  unfold total_slot_directory_size in *. cbn [slot_directory] in *.
  destruct (slots_roundtrip slots Hslots) as (sb & Hsb & Hlsb & Hdsb).
  pose proof (len_nonneg slots) as Hn. pose proof (len_nonneg recs) as Hr.
  assert (in_u64 fs) as Hfs64
    by (subst fs; unfold in_u64, PageHeader_size, Slot_size, PAGE_SIZE in *; lia).
  assert (in_u64 fe) as Hfe64
    by (subst fe; unfold in_u64, PageHeader_size, Slot_size, PAGE_SIZE in *; lia).
  destruct (fields_roundtrip [l; f; r; fs; fe]) as (hb & Hhb & Hlhb & Hdhb).
  { repeat (apply List.Forall_cons; [assumption |]). apply List.Forall_nil. }
  change (8 * len [l; f; r; fs; fe]) with PageHeader_size in Hlhb.
  set (free := fe - fs).
  assert (0 <= free) as Hfree by (subst free fe fs; lia).
  exists (hb ++ sb ++ replicate (Z.to_nat free) x00 ++ recs).
  assert (len (replicate (Z.to_nat free) x00) = free) as Hlfree
    by (unfold len; rewrite length_replicate; lia).
  split; [| split].
  - unfold serialize, total_slot_directory_size, total_record_size.
    cbn [page_header slot_directory records free_space_start free_space_end].
    fold free.
    replace (PAGE_SIZE =? PageHeader_size + len slots * Slot_size + free + len recs)
      with true by (symmetry; apply Z.eqb_eq; subst free fe fs; lia).
    cbn [negb]. rewrite Hsb. cbn [rbind].
    unfold PageHeader_serialize, PageHeader_fields.
    cbn [lsn flags reserved free_space_start free_space_end].
    rewrite Hhb. cbn [rbind]. unfold zero_bytes.
    destruct (free <? 0) eqn:E; [lia |]. reflexivity.
  - rewrite !len_app, Hlhb, Hlsb, Hlfree. subst free fe fs. lia.
  - unfold deserialize.
    replace (slice (hb ++ sb ++ replicate (Z.to_nat free) x00 ++ recs) 0
               PageHeader_size) with hb.
    2:{ symmetry. rewrite <- Hlhb.
        apply (slice_middle [] hb (sb ++ replicate (Z.to_nat free) x00 ++ recs)). }
    unfold PageHeader_deserialize. rewrite Hlhb, Z.eqb_refl.
    specialize (Hdhb [] []). rewrite app_nil_r in Hdhb. cbn [app] in Hdhb.
    change (len (@nil byte)) with 0 in Hdhb.
    change (List.length [l; f; r; fs; fe]) with 5%nat in Hdhb.
    rewrite Hdhb. cbn [rbind free_space_start free_space_end].
    replace (py_range PageHeader_size fs Slot_size)
      with (map (fun k => PageHeader_size + Slot_size * Z.of_nat k)
                (seq 0 (List.length slots)))
      by (rewrite Hfs; symmetry; apply py_range_slots).
    rewrite <- Hlhb. rewrite (Hdsb hb (replicate (Z.to_nat free) x00 ++ recs)).
    cbn [rbind]. f_equal. f_equal.
    replace (Z.to_nat fe)
      with (List.length (hb ++ sb ++ replicate (Z.to_nat free) x00)).
    + rewrite !app_assoc. rewrite <- !app_assoc.
      replace (hb ++ sb ++ replicate (Z.to_nat free) x00 ++ recs)
        with ((hb ++ sb ++ replicate (Z.to_nat free) x00) ++ recs)
        by now rewrite <- !app_assoc.
      apply drop_app_length.
    + apply Nat2Z.inj. fold (len (hb ++ sb ++ replicate (Z.to_nat free) x00)).
      rewrite !len_app, Hlhb, Hlsb, Hlfree.
      subst free fs. unfold PAGE_SIZE, PageHeader_size, Slot_size in *. lia.
Qed.

End slotted_page_layout.

(** ** slotted_page.py: what a history of operations preserves (claim C5) *)

Module slotted_page_history.
Import slotted_page slotted_page_layout.

Definition region (recs : bytes) (s : Slot) : bytes :=
  slice recs (offset s) (offset s + length s).

Definition valid_state (st : Z) : Prop :=
  st = UNUSED \/ st = NORMAL \/ st = DEAD.

(** The slots tile a prefix of the record region in index order, and every
    slot's bytes are the ones last written for its index. *)
Record page_inv (p : Page) (written : gmap Z bytes) : Prop := mk_page_inv {
  inv_size :
    PageHeader_size + total_slot_directory_size p + len (records p) < PAGE_SIZE;
  inv_flags : in_u64 (flags (page_header p));
  inv_reserved : in_u64 (reserved (page_header p));
  inv_slot : forall n s, slot_directory p !! n = Some s ->
    0 <= offset s /\ 0 <= length s
    /\ offset s + length s <= len (records p) /\ valid_state (state s);
  inv_apart : forall i j si sj, (i < j)%nat ->
    slot_directory p !! i = Some si -> slot_directory p !! j = Some sj ->
    offset si + length si <= offset sj;
  inv_written : forall n s, slot_directory p !! n = Some s ->
    written !! Z.of_nat n = Some (region (records p) s)
}.

Lemma page_inv_new : page_inv Page_new ∅.
Proof.
  split.
  - reflexivity.
  - split; [discriminate | reflexivity].
  - split; [discriminate | reflexivity].
  - intros n s H. change (slot_directory Page_new) with (@nil Slot) in H.
    rewrite lookup_nil in H. discriminate.
  - intros i j si sj _ H. change (slot_directory Page_new) with (@nil Slot) in H.
    rewrite lookup_nil in H. discriminate.
  - intros n s H. change (slot_directory Page_new) with (@nil Slot) in H.
    rewrite lookup_nil in H. discriminate.
Qed.

Lemma lookup_slice {A} (l : list A) (a b : Z) (i : nat) :
  0 <= a -> 0 <= b ->
  slice l a (a + b) !! i
  = if decide (i < Z.to_nat b)%nat then l !! (Z.to_nat a + i)%nat else None.
Proof.
  intros Ha Hb. unfold slice. replace (a + b - a) with b by lia.
  rewrite lookup_take. case_decide; [apply lookup_drop | reflexivity].
Qed.

Lemma slice_app_l {A} (l1 l2 : list A) (a b : Z) :
  0 <= a -> 0 <= b -> a + b <= len l1 ->
  slice (l1 ++ l2) a (a + b) = slice l1 a (a + b).
Proof.
  intros Ha Hb Hab. apply list_eq. intros i.
  rewrite !lookup_slice by assumption. case_decide; [| reflexivity].
  apply lookup_app_l. unfold len in Hab. lia.
Qed.

Lemma length_overwrite (recs : bytes) (lo : Z) (record : bytes) :
  0 <= lo -> lo + len record <= len recs ->
  List.length (overwrite recs lo record) = List.length recs.
Proof.
  intros Hlo Hfit. unfold overwrite, len in *.
  rewrite !length_app, length_take, length_drop. lia.
Qed.

Lemma lookup_overwrite_outside (recs : bytes) (lo : Z) (record : bytes) (k : nat) :
  0 <= lo -> lo + len record <= len recs ->
  (k < Z.to_nat lo \/ Z.to_nat (lo + len record) <= k)%nat ->
  overwrite recs lo record !! k = recs !! k.
Proof.
  intros Hlo Hfit Hk. unfold overwrite, len in *.
  assert (List.length (take (Z.to_nat lo) recs) = Z.to_nat lo) as Hlt
    by (rewrite length_take; lia).
  destruct Hk as [Hk | Hk].
  - rewrite lookup_app_l by lia. now apply lookup_take_lt.
  - rewrite lookup_app_r by lia. rewrite lookup_app_r by lia.
    rewrite lookup_drop. f_equal. lia.
Qed.

Lemma slice_overwrite_same (recs : bytes) (lo : Z) (record : bytes) :
  0 <= lo -> lo + len record <= len recs ->
  slice (overwrite recs lo record) lo (lo + len record) = record.
Proof.
  intros Hlo Hfit. unfold overwrite.
  assert (len (take (Z.to_nat lo) recs) = lo) as Hl
    by (unfold len in *; rewrite length_take; lia).
  pose proof (slice_middle (take (Z.to_nat lo) recs) record
                (drop (Z.to_nat (lo + len record)) recs)) as H.
  now rewrite Hl in H.
Qed.

Lemma slice_overwrite_apart (recs : bytes) (lo : Z) (record : bytes) (a b : Z) :
  0 <= lo -> lo + len record <= len recs -> 0 <= a -> 0 <= b ->
  a + b <= lo \/ lo + len record <= a ->
  slice (overwrite recs lo record) a (a + b) = slice recs a (a + b).
Proof.
  intros Hlo Hfit Ha Hb Hapart. apply list_eq. intros i.
  rewrite !lookup_slice by assumption. case_decide; [| reflexivity].
  apply lookup_overwrite_outside; try assumption.
  pose proof (len_nonneg record). lia.
Qed.

Lemma py_norm_same_length {A B} (l1 : list A) (l2 : list B) (i : Z) :
  List.length l1 = List.length l2 -> py_norm l1 i = py_norm l2 i.
Proof. intros H. unfold py_norm, len. now rewrite H. Qed.

Lemma lookup_alter_set_state (slots : list Slot) (n k : nat) (st : Z) (s' : Slot) :
  alter (set_state st) n slots !! k = Some s' ->
  exists s, slots !! k = Some s /\ offset s' = offset s /\ length s' = length s
            /\ (state s' = state s \/ state s' = st).
Proof.
  rewrite list_lookup_alter. case_decide as E.
  - subst k. destruct (slots !! n) as [s |]; [| discriminate].
    cbn. intros [= <-]. exists s. cbn. tauto.
  - intros H. exists s'. tauto.
Qed.

(** Flipping a slot's state (tombstone, or the restore in [update]). *)
Lemma page_inv_set_state (p : Page) (written : gmap Z bytes) (sid st : Z) :
  page_inv p written -> valid_state st ->
  page_inv (alter_slot (set_state st) sid p) written.
Proof.
  intros [Hsz Hfl Hre Hsl Hap Hwr] Hst. unfold alter_slot.
  destruct (py_norm (slot_directory p) sid) as [n |]; [| now split].
  split; cbn [page_header slot_directory records]; try assumption.
  - unfold total_slot_directory_size, len in *. cbn [slot_directory].
    now rewrite length_alter.
  - intros k s' Hk. apply lookup_alter_set_state in Hk as (s & Hs & Ho & Hl & Hstate).
    destruct (Hsl k s Hs) as (? & ? & ? & ?). rewrite Ho, Hl.
    repeat split; try assumption. destruct Hstate as [-> | ->]; assumption.
  - intros i j si sj Hij Hi Hj.
    apply lookup_alter_set_state in Hi as (si0 & Hi & Hoi & Hli & _).
    apply lookup_alter_set_state in Hj as (sj0 & Hj & Hoj & Hlj & _).
    rewrite Hoi, Hli, Hoj. eapply Hap; eassumption.
  - intros k s' Hk. apply lookup_alter_set_state in Hk as (s & Hs & Ho & Hl & _).
    rewrite (Hwr k s Hs). unfold region. now rewrite Ho, Hl.
Qed.

Lemma page_inv_insert (p p' : Page) (written : gmap Z bytes) (record : bytes)
    (r : result Z) :
  page_inv p written -> insert record p = (p', r) ->
  match r with
  | Ok sid => sid = len (slot_directory p)
              /\ page_inv p' (<[sid := record]> written)
  | Raise _ => p' = p
  end.
Proof.
  intros [Hsz Hfl Hre Hsl Hap Hwr]. unfold insert, allocate_slot.
  destruct (total_page_size p record >=? PAGE_SIZE) eqn:E.
  { intros [= <- <-]. reflexivity. }
  intros [= <- <-]. cbn [slot_directory].
  assert (len (slot_directory p ++ [set_state NORMAL
            (mkSlot (total_record_size p) (len record) UNUSED)]) - 1
          = len (slot_directory p)) as Hsid
    by (rewrite len_app; change (len [_]) with 1; lia).
  rewrite Hsid. split; [reflexivity |].
  pose proof (len_nonneg record) as Hrec.
  pose proof (len_nonneg (records p)) as Hrecs.
  split; cbn [page_header slot_directory records]; try assumption.
  - unfold total_page_size, total_slot_directory_size, total_record_size in *.
    cbn [slot_directory]. rewrite !len_app. change (len [_]) with 1. lia.
  - intros n s Hn. rewrite len_app. apply lookup_app_Some in Hn as [Hn | [Hge Hn]].
    + destruct (Hsl n s Hn) as (? & ? & ? & ?). repeat split; try assumption. lia.
    + destruct (n - List.length (slot_directory p))%nat; [| discriminate].
      injection Hn as <-. cbn. unfold total_record_size, valid_state. 
      repeat split; try lia; right; left; reflexivity.
  - intros i j si sj Hij Hi Hj.
    apply lookup_app_Some in Hi as [Hi | [Hgi Hi]];
      apply lookup_app_Some in Hj as [Hj | [Hgj Hj]].
    + eapply Hap; eassumption.
    + destruct (j - List.length (slot_directory p))%nat; [| discriminate].
      injection Hj as <-. cbn. unfold total_record_size.
      destruct (Hsl i si Hi) as (? & ? & ? & ?). assumption.
    + apply lookup_lt_Some in Hj. lia.
    + destruct (i - List.length (slot_directory p))%nat eqn:Ei; [| discriminate].
      destruct (j - List.length (slot_directory p))%nat eqn:Ej; [| discriminate].
      lia.
  - intros n s Hn. apply lookup_app_Some in Hn as [Hn | [Hge Hn]].
    + rewrite lookup_insert_ne
        by (apply lookup_lt_Some in Hn; unfold len; lia).
      rewrite (Hwr n s Hn). f_equal. unfold region.
      destruct (Hsl n s Hn) as (? & ? & ? & ?).
      symmetry. now apply slice_app_l.
    + destruct (n - List.length (slot_directory p))%nat eqn:En; [| discriminate].
      injection Hn as <-.
      replace (Z.of_nat n) with (len (slot_directory p)) by (unfold len; lia).
      rewrite lookup_insert_eq. f_equal. unfold region, total_record_size. cbn.
      symmetry. apply slice_app_tail.
Qed.

Lemma page_inv_overwrite (p : Page) (written : gmap Z bytes) (n : nat)
    (slot : Slot) (record : bytes) :
  page_inv p written -> slot_directory p !! n = Some slot ->
  len record <= length slot ->
  page_inv
    (mkPage (page_header p)
       (alter (fun s => mkSlot (offset s) (len record) NORMAL) n (slot_directory p))
       (overwrite (records p) (offset slot) record))
    (<[Z.of_nat n := record]> written).
Proof.
  intros [Hsz Hfl Hre Hsl Hap Hwr] Hn Hle.
  destruct (Hsl n slot Hn) as (Ho & Hl & Hfit & Hst).
  pose proof (len_nonneg record) as Hrec.
  assert (len (overwrite (records p) (offset slot) record) = len (records p))
    as Hlen by (unfold len; rewrite length_overwrite; [reflexivity | assumption | lia]).
  split; cbn [page_header slot_directory records]; try assumption.
  - unfold total_slot_directory_size, len in *. cbn [slot_directory records] in *.
    rewrite length_alter. lia.
  - intros k s' Hk. rewrite Hlen. rewrite list_lookup_alter in Hk.
    case_decide as E.
    + rewrite Hn in Hk. injection Hk as <-. cbn.
      repeat split; try lia. right; left; reflexivity.
    + apply Hsl in Hk. exact Hk.
  - intros i j si sj Hij Hi Hj. rewrite list_lookup_alter in Hi, Hj.
    destruct (decide (n = i)) as [<- | Ei]; destruct (decide (n = j)) as [<- | Ej].
    + lia.
    + rewrite Hn in Hi. injection Hi as <-. cbn.
      pose proof (Hap n j slot sj Hij Hn Hj). lia.
    + rewrite Hn in Hj. injection Hj as <-. cbn.
      exact (Hap i n si slot Hij Hi Hn).
    + eapply Hap; eassumption.
  - intros k s' Hk. rewrite list_lookup_alter in Hk.
    destruct (decide (n = k)) as [<- | E].
    + rewrite Hn in Hk. injection Hk as <-.
      rewrite lookup_insert_eq. f_equal. unfold region. cbn.
      symmetry. apply slice_overwrite_same; [assumption | lia].
    + rewrite lookup_insert_ne by lia. rewrite (Hwr k s' Hk). f_equal.
      unfold region. destruct (Hsl k s' Hk) as (Hok & Hlk & _ & _).
      symmetry. apply slice_overwrite_apart; try assumption; try lia.
      destruct (Nat.lt_ge_cases k n) as [Hlt | Hge].
      * left. exact (Hap k n s' slot Hlt Hk Hn).
      * right. assert (n < k)%nat as Hlt by lia.
        pose proof (Hap n k slot s' Hlt Hn Hk). lia.
Qed.

Lemma page_inv_delete (p : Page) (written : gmap Z bytes) (sid : Z) :
  page_inv p written -> page_inv (fst (delete sid p)) written.
Proof.
  intros Hinv. unfold delete.
  destruct (sid >=? len (slot_directory p)); [exact Hinv |].
  destruct (py_index (slot_directory p) sid); [| exact Hinv].
  apply page_inv_set_state; [exact Hinv |]. right; right; reflexivity.
Qed.

Lemma py_index_Ok {A} (l : list A) (i : Z) (x : A) :
  py_index l i = Ok x -> exists n, py_norm l i = Some n /\ l !! n = Some x.
Proof.
  unfold py_index. destruct (py_norm l i) as [n |]; [| discriminate].
  destruct (l !! n) as [y |] eqn:E; [| discriminate].
  intros [= <-]. eauto.
Qed.

Lemma page_inv_update (p p' : Page) (written : gmap Z bytes) (sid : Z)
    (record : bytes) (r : result Z) :
  page_inv p written -> update sid record p = (p', r) ->
  match r with
  | Ok new_sid =>
      page_inv p' (match py_norm (slot_directory p') new_sid with
                   | Some n => <[Z.of_nat n := record]> written
                   | None => written
                   end)
  | Raise _ => page_inv p' written
  end.
Proof.
  intros Hinv. unfold update.
  destruct (py_index (slot_directory p) sid) as [slot | e] eqn:Hidx.
  2:{ intros [= <- <-]. exact Hinv. }
  apply py_index_Ok in Hidx as (n & Hnorm & Hn).
  assert (valid_state (state slot)) as Hold by (apply (inv_slot _ _ Hinv n slot Hn)).
  destruct (len record <=? length slot) eqn:Hfit.
  - intros [= <- <-]. unfold alter_slot. cbn [slot_directory].
    rewrite Hnorm. cbn [slot_directory page_header records].
    rewrite (py_norm_same_length _ (slot_directory p)) by apply length_alter.
    rewrite Hnorm. apply page_inv_overwrite; [assumption .. | lia].
  - pose proof (page_inv_delete p written sid Hinv) as Hdel.
    destruct (delete sid p) as [p1 r1]. cbn [fst] in Hdel.
    destruct r1 as [b | e1].
    + destruct (insert record p1) as [p2 r2] eqn:Hins.
      pose proof (page_inv_insert p1 p2 written record r2 Hdel Hins) as Hi.
      destruct r2 as [new_sid | e2].
      * intros [= <- <-]. destruct Hi as [Hsid Hi].
        assert (len (slot_directory p2) = len (slot_directory p1) + 1) as Hlen2.
        { unfold insert in Hins. destruct (allocate_slot p1 record); [| discriminate].
          injection Hins as <- _. cbn [slot_directory]. rewrite len_app. reflexivity. }
        pose proof (len_nonneg (slot_directory p1)).
        rewrite py_norm_nonneg by lia.
        rewrite Z2Nat.id by lia. exact Hi.
      * subst p2. destruct e2; intros [= <- <-]; try exact Hdel.
        now apply page_inv_set_state.
    + destruct e1; intros [= <- <-]; try exact Hdel.
      now apply page_inv_set_state.
Qed.

Lemma page_inv_set_header (p : Page) (written : gmap Z bytes) (lsn0 : Z) :
  page_inv p written -> page_inv (set_header lsn0 p) written.
Proof. intros [Hsz Hfl Hre Hsl Hap Hwr]. split; assumption. Qed.

Lemma page_inv_run_op (st : Page * gmap Z bytes) (o : page_op) :
  page_inv (fst st) (snd st) ->
  page_inv (fst (run_op st o)) (snd (run_op st o)).
Proof.
  destruct st as [p written]. cbn [fst snd]. intros Hinv.
  destruct o as [record | sid | sid record | lsn0]; cbn [run_op].
  - destruct (insert record p) as [p' r] eqn:Hins.
    pose proof (page_inv_insert p p' written record r Hinv Hins) as Hi.
    destruct r as [sid | e]; cbn [fst snd]; [tauto | now subst].
  - cbn [fst snd]. now apply page_inv_delete.
  - destruct (update sid record p) as [p' r] eqn:Hupd.
    pose proof (page_inv_update p p' written sid record r Hinv Hupd) as Hu.
    destruct r as [new_sid | e]; exact Hu.
  - cbn [fst snd]. now apply page_inv_set_header.
Qed.

Lemma page_inv_run_ops (ops : list page_op) :
  page_inv (fst (run_ops ops)) (snd (run_ops ops)).
Proof.
  unfold run_ops.
  assert (page_inv (fst (Page_new, (∅ : gmap Z bytes))) (snd (Page_new, (∅ : gmap Z bytes))))
    as Hstart by apply page_inv_new.
  revert Hstart. generalize (Page_new, (∅ : gmap Z bytes)).
  induction ops as [| o ops IH]; intros st Hst; cbn [fold_left].
  - exact Hst.
  - apply IH. now apply page_inv_run_op.
Qed.

Lemma page_inv_storable (p : Page) (written : gmap Z bytes) (lsn0 : Z) :
  page_inv p written -> in_u64 lsn0 -> storable (set_header lsn0 p).
Proof.
  intros [Hsz Hfl Hre Hsl Hap Hwr] Hlsn.
  unfold storable, set_header, total_slot_directory_size.
  cbn [page_header slot_directory records lsn flags reserved free_space_start
       free_space_end].
  repeat split; try assumption; try apply Hlsn; try apply Hfl; try apply Hre.
  - unfold total_slot_directory_size in Hsz. lia.
  - apply Forall_forall. intros s Hin.
    apply list_elem_of_lookup in Hin as [n Hn].
    destruct (Hsl n s Hn) as (Ho & Hl & Hfit & Hst).
    pose proof (len_nonneg (slot_directory p)).
    unfold total_slot_directory_size, PageHeader_size, Slot_size, PAGE_SIZE in Hsz.
    unfold slot_u64, in_u64.
    destruct Hst as [-> | [-> | ->]]; unfold UNUSED, NORMAL, DEAD; lia.
Qed.

(** C5: a page reached by any history of insert, delete and update, with
    its header then set by [set_header] to an lsn that fits 8 bytes,
    serializes to exactly one page of bytes; deserializing them gives the
    page back (header, slot directory and record region); and [select] on
    the page read back returns, for every NORMAL slot, the bytes last
    written for that slot. *)
Theorem serialize_deserialize_roundtrip (ops : list page_op) (lsn0 : Z) :
  0 <= lsn0 < 2 ^ 64 ->
  let p := set_header lsn0 (fst (run_ops ops)) in
  let written := snd (run_ops ops) in
  exists buff,
    serialize p = Ok buff
    /\ len buff = PAGE_SIZE
    /\ deserialize buff = Ok p
    /\ forall (sid : nat) (slot : Slot),
        slot_directory p !! sid = Some slot -> state slot = NORMAL ->
        exists record,
          written !! Z.of_nat sid = Some record
          /\ rbind (deserialize buff) (select (Z.of_nat sid)) = Ok record.
Proof.
  intros Hlsn p written.
  pose proof (page_inv_run_ops ops) as Hinv.
  destruct (storable_roundtrip p) as (buff & Hser & Hlen & Hdes).
  { eapply page_inv_storable; [exact Hinv | exact Hlsn]. }
  exists buff. repeat split; try assumption.
  intros sid slot Hsid Hnormal. rewrite Hdes. cbn [rbind].
  exists (region (records p) slot). split.
  - exact (inv_written _ _ Hinv sid slot Hsid).
  - unfold select. apply lookup_lt_Some in Hsid as Hlt.
    destruct (Z.of_nat sid >=? len (slot_directory p)) eqn:E;
      [unfold len in E; lia |].
    unfold py_index. rewrite py_norm_nonneg by (unfold len; lia).
    rewrite Nat2Z.id, Hsid. cbn [rbind]. rewrite Hnormal. reflexivity.
Qed.

(** The round trip on a page built by an insert, a tombstone, an in-place
    update and a relocating update. *)
Lemma serialize_deserialize_roundtrip_witness :
  0 <= 7 < 2 ^ 64
  /\ exists buff,
      serialize (set_header 7 (fst (run_ops
          [OpInsert [x61; x62; x63]; OpInsert [x64]; OpDelete 0;
           OpUpdate 1 [x65; x66]; OpUpdate 0 [x67]]))) = Ok buff
      /\ len buff = PAGE_SIZE.
Proof.
  split; [lia |].
  destruct (serialize_deserialize_roundtrip
              [OpInsert [x61; x62; x63]; OpInsert [x64]; OpDelete 0;
               OpUpdate 1 [x65; x66]; OpUpdate 0 [x67]] 7 ltac:(lia))
    as (buff & Hser & Hlen & _).
  exists buff. split; assumption.
Defined.

End slotted_page_history.

(** ** lru.py: eviction when everything else is pinned (claim C7) *)

Module lru_props.
Import lru.

Section Put.
Context {K V : Type} `{Countable K}.

Lemma first_unpinned_app_new (l : list (LRUNode K V)) (k : K) (v : V) :
  exists victim, first_unpinned (_add (mkLRUNode k v false) l) = Some victim.
Proof.
  unfold first_unpinned, _add. induction l as [| n l IH]; cbn.
  - eauto.
  - destruct (pinned n); cbn; eauto.
Qed.

(** The no-space branch of [put] is dead code: the node just linked in is
    never pinned, so the eviction walk always stops before the dummy tail. *)
Lemma put_never_raises (c : LRUCache K V) (k : K) (v : V) :
  snd (put k v c) = Ok tt.
Proof.
  unfold put. destruct (len _ >? capacity c); [| reflexivity].
  destruct (first_unpinned_app_new
              (if in_cache k c then _remove k (nodes c) else nodes c) k v)
    as [victim ->].
  reflexivity.
Qed.

End Put.

(** A cache of capacity 2 holding two pinned pages. *)
Definition full_pinned_cache : LRUCache (string * Z) Z :=
  let c0 := LRUCache_new 2 in
  let c1 := fst (put ("t"%string, 0) 10 c0) in
  let c2 := fst (put ("t"%string, 1) 11 c1) in
  let c3 := fst (pin ("t"%string, 0) c2) in
  fst (pin ("t"%string, 1) c3).

(** C7 at the failing input: with every cached entry pinned, [put] of a new
    key raises nothing; it evicts the new entry itself into [evicted]. *)
Theorem put_all_pinned_evicts_new_entry :
  let r := put ("t"%string, 2) 12 full_pinned_cache in
  snd r = Ok tt
  /\ nodes (fst r) = nodes full_pinned_cache
  /\ in_cache ("t"%string, 2) (fst r) = false
  /\ evicted full_pinned_cache !! ("t"%string, 2) = None
  /\ evicted (fst r) !! ("t"%string, 2) = Some 12.
Proof. vm_compute. repeat split; reflexivity. Qed.

End lru_props.

(** ** lock/lock.py: the grant matrix and the retry (claim C8) *)

Module lock_props.
Import lock.

Lemma if_only_duplicated_elements_spec (l : list Z) (e : Z) :
  if_only_duplicated_elements l e = true
  <-> l <> [] /\ forall h, h ∈ l -> h = e.
Proof.
  unfold if_only_duplicated_elements. rewrite bool_decide_eq_true. split.
  - intros Heq. split.
    + intros ->. cbn in Heq. set_solver.
    + intros h Hh. assert (h ∈ (list_to_set l : gset Z)) as Hin by set_solver.
      rewrite Heq in Hin. set_solver.
  - intros [Hne Hall]. apply set_eq. intros y. rewrite elem_of_list_to_set.
    rewrite elem_of_singleton. split; [apply Hall |].
    intros ->. destruct l as [| h rest]; [congruence |].
    rewrite <- (Hall h) by set_solver. set_solver.
Qed.

Lemma sole_holder_spec (xid : Z) (held_by : list Z) :
  sole_holder xid held_by = true <-> forall h, h ∈ held_by -> h = xid.
Proof.
  unfold sole_holder. rewrite forallb_forall. split.
  - intros Hall h Hh. apply list_elem_of_In in Hh. apply Hall in Hh. lia.
  - intros Hall h Hh. apply list_elem_of_In in Hh. apply Hall in Hh. lia.
Qed.

Lemma only_duplicated_is_sole_holder (xid : Z) (held_by : list Z) :
  held_by <> [] ->
  if_only_duplicated_elements held_by xid = sole_holder xid held_by.
Proof.
  intros Hne. apply eq_true_iff_eq.
  rewrite if_only_duplicated_elements_spec, sole_holder_spec. tauto.
Qed.

Section LockManager.
Context {R : Type} `{Countable R}.

(** Entries are dropped when their last holder releases. *)
Definition wf_locks (lk : gmap R lock_entry) : Prop :=
  forall r e, lk !! r = Some e -> holders e <> [].

Lemma _acquire_lock_matrix (lk : gmap R lock_entry) (r : R) (xid : Z) (md : mode) :
  wf_locks lk ->
  snd (_acquire_lock r xid md lk) = grant_matrix (lk !! r) xid md.
Proof.
  intros Hwf. unfold _acquire_lock, grant_matrix.
  destruct (lk !! r) as [[held held_by] |] eqn:E; [| now destruct md].
  apply Hwf in E. cbn [holders lock_mode] in *.
  pose proof (only_duplicated_is_sole_holder xid held_by E) as Hsole.
  destruct held, md; cbn [mode_eqb andb]; try reflexivity;
    rewrite Hsole; now destruct (sole_holder xid held_by).
Qed.

Lemma _acquire_lock_denied_keeps (lk : gmap R lock_entry) (r : R) (xid : Z)
    (md : mode) :
  snd (_acquire_lock r xid md lk) = false -> fst (_acquire_lock r xid md lk) = lk.
Proof.
  unfold _acquire_lock.
  destruct (lk !! r) as [[held held_by] |]; [| discriminate].
  cbn [holders lock_mode].
  destruct held, md; cbn [mode_eqb andb]; try discriminate; try reflexivity;
    destruct (if_only_duplicated_elements held_by xid); try discriminate;
    reflexivity.
Qed.

Lemma _acquire_lock_wf (lk : gmap R lock_entry) (r : R) (xid : Z) (md : mode) :
  wf_locks lk -> wf_locks (fst (_acquire_lock r xid md lk)).
Proof.
  intros Hwf. unfold _acquire_lock.
  assert (forall e, holders e <> [] ->
                    wf_locks (<[r := e]> lk)) as Hins.
  { intros e He r' e' Hr'. destruct (decide (r = r')) as [<- | Hne].
    - rewrite lookup_insert_eq in Hr'. now injection Hr' as <-.
    - rewrite lookup_insert_ne in Hr' by assumption. eapply Hwf, Hr'. }
  destruct (lk !! r) as [[held held_by] |].
  - cbn [holders lock_mode].
    destruct held, md; cbn [mode_eqb andb fst];
      try destruct (if_only_duplicated_elements held_by xid); cbn [fst];
      try assumption; apply Hins; cbn; now destruct held_by.
  - cbn [fst]. apply Hins. discriminate.
Qed.

(** What a grant records, in the words of the comment table of
    [acquire_lock]: a free resource gets an entry in the requested mode held
    by the requester; otherwise the requester joins the holders, and the
    entry is in mode ['x'] as soon as ['x'] was requested. *)
Definition granted_entry (held : option lock_entry) (xid : Z) (requested : mode)
    : lock_entry :=
  match held with
  | None => mk_lock_entry requested [xid]
  | Some e =>
      mk_lock_entry (match requested with x => x | s => lock_mode e end)
                    (holders e ++ [xid])
  end.

(** The lock table after one try: a grant is recorded, a denial leaves the
    table as it was. *)
Definition after_try (lk : gmap R lock_entry) (r : R) (xid : Z) (md : mode)
    : gmap R lock_entry :=
  if grant_matrix (lk !! r) xid md
  then <[r := granted_entry (lk !! r) xid md]> lk
  else lk.

Lemma _acquire_lock_records (lk : gmap R lock_entry) (r : R) (xid : Z) (md : mode) :
  wf_locks lk ->
  _acquire_lock r xid md lk
  = (after_try lk r xid md, grant_matrix (lk !! r) xid md).
Proof.
  intros Hwf. unfold _acquire_lock, after_try, grant_matrix, granted_entry.
  destruct (lk !! r) as [[held held_by] |] eqn:E; [| now destruct md].
  apply Hwf in E. cbn [holders lock_mode] in *.
  pose proof (only_duplicated_is_sole_holder xid held_by E) as Hsole.
  destruct held, md; cbn [mode_eqb andb]; try reflexivity;
    rewrite Hsole; now destruct (sole_holder xid held_by).
Qed.

(** C8: under the mutex a request is granted exactly when the S/X matrix
    grants it, and a grant is recorded in the lock table (the entry is
    created, or the requester is appended to the holders and the mode is
    ['x'] once ['x'] was requested) while a denial leaves the table as it
    was; a denied request sleeps [lock_wait_timeout] and is tried once more
    against the table the other threads left; a second denial sleeps again
    and raises LockConflictError without having changed the table. *)
Theorem acquire_lock_matrix_and_retry
    (others : gmap R lock_entry -> gmap R lock_entry)
    (m : LockManager R) (r : R) (xid : Z) (md : mode) :
  wf_locks (locks m) ->
  (forall lk, wf_locks lk -> wf_locks (others lk)) ->
  let first := grant_matrix (locks m !! r) xid md in
  let second := grant_matrix (others (locks m) !! r) xid md in
  let out := acquire_lock others r xid md m in
  _acquire_lock r xid md (locks m) = (after_try (locks m) r xid md, first)
  /\ (first = true ->
      snd out = Ok tt /\ trace (fst out) = trace m ++ [Tried true]
      /\ locks (fst out)
         = <[r := granted_entry (locks m !! r) xid md]> (locks m))
  /\ (first = false -> second = true ->
      snd out = Ok tt
      /\ trace (fst out)
         = trace m ++ [Tried false; Slept lock_wait_timeout; Tried true]
      /\ locks (fst out)
         = <[r := granted_entry (others (locks m) !! r) xid md]>
             (others (locks m)))
  /\ (first = false -> second = false ->
      snd out = Raise LockConflictError
      /\ trace (fst out)
         = trace m ++ [Tried false; Slept lock_wait_timeout;
                       Tried false; Slept lock_wait_timeout]
      /\ locks (fst out) = others (others (locks m))).
Proof.
  intros Hwf Hothers first second out.
  pose proof (_acquire_lock_records (locks m) r xid md Hwf) as H1.
  fold first in H1. split; [exact H1 |].
  subst out. unfold acquire_lock, acquire_loop, bind, try_lock, sleep, ret, raise.
  rewrite H1. unfold after_try. fold first.
  destruct first eqn:Hfirst.
  - split; [| split]; try discriminate. intros _. cbn.
    split; [reflexivity | split; reflexivity].
  - cbn [locks trace].
    pose proof (_acquire_lock_records (others (locks m)) r xid md
                  (Hothers _ Hwf)) as H2.
    fold second in H2. rewrite H2. unfold after_try. fold second.
    split; [discriminate |]. destruct second eqn:Hsecond.
    + split; [| discriminate]. intros _ _. cbn [fst snd trace locks].
      split; [reflexivity |]. split; [now rewrite <- !app_assoc | reflexivity].
    + split; [discriminate |]. intros _ _. cbn [fst snd trace locks].
      split; [reflexivity |]. split; [now rewrite <- !app_assoc | reflexivity].
Qed.

End LockManager.

(** Scenario S6: T1 holds S(r) alone and upgrades to X; T2 then asks for S
    and is refused twice. *)
Definition t1_holds_s : LockManager string :=
  mkLockManager {[ "r"%string := mk_lock_entry s [1] ]} [].

Lemma t1_holds_s_wf : wf_locks (locks t1_holds_s).
Proof.
  intros r e Hr. cbn in Hr. apply lookup_singleton_Some in Hr as [_ <-].
  discriminate.
Defined.

Definition t1_upgraded : LockManager string :=
  fst (acquire_lock (fun lk => lk) "r"%string 1 x t1_holds_s).

Lemma acquire_lock_matrix_and_retry_witness :
  snd (acquire_lock (fun lk => lk) "r"%string 1 x t1_holds_s) = Ok tt
  /\ locks t1_upgraded = {[ "r"%string := mk_lock_entry x [1; 1] ]}
  /\ snd (acquire_lock (fun lk => lk) "r"%string 2 x t1_holds_s)
     = Raise LockConflictError
  /\ locks (fst (acquire_lock (fun lk => lk) "r"%string 2 x t1_holds_s))
     = locks t1_holds_s.
Proof.
  destruct (acquire_lock_matrix_and_retry (fun lk => lk) t1_holds_s
              "r"%string 1 x t1_holds_s_wf (fun lk Hlk => Hlk))
    as (_ & Hgrant & _ & _).
  destruct (Hgrant eq_refl) as (Hok & _ & Hlocks).
  destruct (acquire_lock_matrix_and_retry (fun lk => lk) t1_holds_s
              "r"%string 2 x t1_holds_s_wf (fun lk Hlk => Hlk))
    as (_ & _ & _ & Hdeny).
  destruct (Hdeny eq_refl eq_refl) as (Hraise & _ & Hkept).
  split; [exact Hok |]. split; [| split; [exact Hraise | exact Hkept]].
  unfold t1_upgraded. rewrite Hlocks. vm_compute. reflexivity.
Defined.

End lock_props.

(** ** planner.py: the left-prefix rule (claim C9) *)

Module planner_props.
Import planner.

(** An index is kept as a candidate only if every one of its columns has
    the predicate's column name. *)
Lemma index_matched_single (cc : TableColumn) (form : CatalogIndexForm) :
  index_matched [cc] form
  = forallb (String.eqb (column_name cc)) (index_columns form).
Proof.
  unfold index_matched. cbn [fold_left].
  induction (index_columns form) as [| c rest IH]; [reflexivity |].
  cbn [match_index_columns forallb].
  destruct (String.eqb (column_name cc) c); cbn [negb andb]; [exact IH | reflexivity].
Qed.

Definition where_a_eq_1 : Condition :=
  mkCondition "=" (Column (mkTableColumn "t" "a")) (Const (CInt 1)).

Definition scan_t : ScanOperator :=
  mkScanOperator "t" ["a"; "b"; "c"]%string (Some where_a_eq_1).

(** C9 at the failing input: the only index on [t] is [ix_ab(a, b)], whose
    leading column is the predicate's column, and the planner still falls
    back to a table scan; an index on [(a)] alone is used. *)
Theorem implement_scan_drops_leading_column_match :
  implement_scan [mkCatalogIndexForm "ix_ab" "t" ["a"; "b"]%string] scan_t
  = Ok (TableScan "t" (Some where_a_eq_1))
  /\ implement_scan [mkCatalogIndexForm "ix_a" "t" ["a"]%string] scan_t
     = Ok (IndexScan "ix_a" (Some where_a_eq_1)).
Proof. split; reflexivity. Qed.

End planner_props.

(** ** transaction/entry.py: where recovery starts and what it keeps in flight
    (claim C10) *)

Module recovery_props.
Import slotted_page lru state common transaction.

Section Recovery.
Context `{External}.

Lemma RedoRecord_len_pos (r : redo.RedoRecord) : 8 <= redo.RedoRecord_len r.
Proof. unfold redo.RedoRecord_len. pose proof (len_nonneg (dumps_record (redo.xid r) (redo.action r) (redo.relation r) (redo.location r) (redo.data r))). lia. Qed.

Lemma total_len_cons (r : redo.RedoRecord) (l : list redo.RedoRecord) :
  redo.total_len (r :: l) = redo.RedoRecord_len r + redo.total_len l.
Proof. reflexivity. Qed.

Lemma total_len_nonneg (l : list redo.RedoRecord) : 0 <= redo.total_len l.
Proof.
  induction l as [| r l IH]; [reflexivity |].
  rewrite total_len_cons. pose proof (RedoRecord_len_pos r). lia.
Qed.

Lemma total_len_app (l1 l2 : list redo.RedoRecord) :
  redo.total_len (l1 ++ l2) = redo.total_len l1 + redo.total_len l2.
Proof.
  induction l1 as [| r l1 IH]; [reflexivity |].
  rewrite <- app_comm_cons, !total_len_cons, IH. lia.
Qed.

(** Seeking to the end of a run of whole frames yields the frames after it. *)
Lemma frames_from_prefix (l1 l2 : list redo.RedoRecord) :
  redo.frames_from (l1 ++ l2) (redo.total_len l1) = Ok l2.
Proof.
  induction l1 as [| r l1 IH].
  - cbn. now destruct l2.
  - rewrite <- app_comm_cons, total_len_cons. cbn [redo.frames_from].
    pose proof (RedoRecord_len_pos r). pose proof (total_len_nonneg l1).
    destruct (redo.RedoRecord_len r + redo.total_len l1 =? 0) eqn:E0; [lia |].
    destruct (redo.RedoRecord_len r <=? redo.RedoRecord_len r + redo.total_len l1)
      eqn:E1; [| lia].
    replace (redo.RedoRecord_len r + redo.total_len l1 - redo.RedoRecord_len r)
      with (redo.total_len l1) by lia.
    exact IH.
Qed.

Lemma find_checkpoint_fold (l : list redo.RedoRecord) :
  find_checkpoint l = snd (fold_left checkpoint_step l (0, 0)).
Proof. reflexivity. Qed.

Definition no_checkpoint (l : list redo.RedoRecord) : Prop :=
  Forall (fun r => redo.action r <> redo.CHECKPOINT) l.

Lemma fold_checkpoint_none (l : list redo.RedoRecord) (a c : Z) :
  no_checkpoint l ->
  fold_left checkpoint_step l (a, c) = (a + redo.total_len l, c).
Proof.
  revert a. induction l as [| r l IH]; intros a Hno.
  - cbn. f_equal. lia.
  - inversion Hno as [| ? ? Hr Hl]; subst. cbn [fold_left checkpoint_step].
    apply Z.eqb_neq in Hr. rewrite Hr, IH by assumption.
    rewrite total_len_cons. f_equal. lia.
Qed.

Lemma fold_checkpoint_fst (l : list redo.RedoRecord) (a c : Z) :
  fst (fold_left checkpoint_step l (a, c)) = a + redo.total_len l.
Proof.
  revert a c. induction l as [| r l IH]; intros a c.
  - cbn. lia.
  - cbn [fold_left checkpoint_step]. rewrite IH, total_len_cons. lia.
Qed.

(** [before] is empty or ends with a CHECKPOINT record. *)
Definition ends_with_checkpoint (before : list redo.RedoRecord) : Prop :=
  before = [] \/ exists b ck, before = b ++ [ck] /\ redo.action ck = redo.CHECKPOINT.

Lemma find_checkpoint_split (before after : list redo.RedoRecord) :
  ends_with_checkpoint before -> no_checkpoint after ->
  find_checkpoint (before ++ after) = redo.total_len before.
Proof.
  intros Hb Ha. rewrite find_checkpoint_fold, fold_left_app.
  destruct Hb as [-> | (b & ck & -> & Hck)].
  - cbn [fold_left]. now rewrite fold_checkpoint_none.
  - rewrite fold_left_app. cbn [fold_left].
    destruct (fold_left checkpoint_step b (0, 0)) as [a c] eqn:E.
    pose proof (fold_checkpoint_fst b 0 0) as Hfst. rewrite E in Hfst.
    cbn [fst] in Hfst. unfold checkpoint_step at 2. rewrite Hck, Z.eqb_refl.
    rewrite fold_checkpoint_none by assumption. cbn [snd].
    rewrite total_len_app, total_len_cons. cbn [redo.total_len foldr]. lia.
Qed.

Lemma list_remove_absent (x : Z) (l : list Z) :
  x ∉ l -> list_remove x l = Raise ValueError.
Proof.
  induction l as [| h l IH]; intros Hx; [reflexivity |].
  cbn. destruct (h =? x) eqn:E.
  - apply Z.eqb_eq in E. subst. set_solver.
  - rewrite IH by set_solver. reflexivity.
Qed.

Lemma list_remove_subset (x : Z) (l l' : list Z) :
  list_remove x l = Ok l' -> forall y, y ∈ l' -> y ∈ l.
Proof.
  revert l'. induction l as [| h l IH]; intros l' Hr y Hy; [discriminate |].
  cbn in Hr. destruct (h =? x).
  - injection Hr as <-. set_solver.
  - destruct (list_remove x l) as [rest |]; [| discriminate].
    injection Hr as <-. specialize (IH rest eq_refl y). set_solver.
Qed.

Lemma bind_ret_Ok {S A B} (m : M S A) (b : B) (st st' : S) (b' : B) :
  bind m (fun _ => ret b) st = (st', Ok b') -> b' = b.
Proof.
  unfold bind, ret. destruct (m st) as [s1 [a | e]]; [| discriminate].
  now intros [= _ <-].
Qed.

(** A COMMIT whose xid is not in flight stops [recovery] with ValueError. *)
Lemma replay_one_commit_unknown (replay_lsn : Z) (transactions : list Z)
    (c : redo.RedoRecord) (db : DB) :
  redo.action c = redo.COMMIT -> redo.xid c ∉ transactions ->
  replay_one (replay_lsn, transactions) c db = (db, Raise ValueError).
Proof.
  intros Hc Hx. unfold replay_one. rewrite Hc.
  change (redo.COMMIT =? redo.BEGIN) with false.
  change (redo.COMMIT =? redo.TABLE_INSERT) with false.
  change (redo.COMMIT =? redo.TABLE_DELETE) with false.
  change (redo.COMMIT =? redo.TABLE_UPDATE) with false.
  change (redo.COMMIT =? redo.ABORT) with false.
  change (redo.COMMIT =? redo.COMMIT) with true. cbn match.
  unfold bind, lift_result. now rewrite list_remove_absent.
Qed.

(** What is in flight was begun by a replayed BEGIN. *)
Lemma replay_one_in_flight (locals locals' : Z * list Z) (r : redo.RedoRecord)
    (db db' : DB) :
  replay_one locals r db = (db', Ok locals') ->
  forall y, y ∈ snd locals' ->
            y ∈ snd locals \/ (redo.action r = redo.BEGIN /\ y = redo.xid r).
Proof.
  destruct locals as [l0 txs]. unfold replay_one. intros Hstep y Hy.
  destruct (redo.action r =? redo.BEGIN) eqn:Eb.
  { apply bind_ret_Ok in Hstep. subst locals'. cbn [snd] in *.
    apply elem_of_app in Hy as [Hy | Hy]; [now left |].
    right. split; [lia | set_solver]. }
  destruct (redo.action r =? redo.TABLE_INSERT);
    [apply bind_ret_Ok in Hstep; subst; now left |].
  destruct (redo.action r =? redo.TABLE_DELETE);
    [apply bind_ret_Ok in Hstep; subst; now left |].
  destruct (redo.action r =? redo.TABLE_UPDATE);
    [apply bind_ret_Ok in Hstep; subst; now left |].
  destruct (redo.action r =? redo.ABORT);
    [apply bind_ret_Ok in Hstep; subst; now left |].
  destruct (redo.action r =? redo.COMMIT).
  - unfold bind, lift_result, ret in Hstep.
    destruct (list_remove (redo.xid r) txs) as [txs' |] eqn:Er; [| discriminate].
    injection Hstep as _ <-. cbn [snd] in *. left.
    eapply list_remove_subset; eassumption.
  - unfold ret in Hstep. injection Hstep as _ <-. now left.
Qed.

Lemma for_each_acc_in_flight (records : list redo.RedoRecord)
    (locals locals' : Z * list Z) (db db' : DB) :
  for_each_acc records locals replay_one db = (db', Ok locals') ->
  forall y, y ∈ snd locals' ->
            y ∈ snd locals
            \/ exists r, r ∈ records /\ redo.action r = redo.BEGIN /\ y = redo.xid r.
Proof.
  revert locals db. induction records as [| r records IH]; intros locals db Hrun y Hy.
  - cbn in Hrun. injection Hrun as _ <-. now left.
  - cbn [for_each_acc] in Hrun.
    destruct (replay_one locals r db) as [db1 [locals1 | e]] eqn:E1; [| discriminate].
    destruct (IH _ _ Hrun y Hy) as [Hin | (r' & Hr' & Hb & ->)].
    + destruct (replay_one_in_flight _ _ _ _ _ E1 y Hin) as [? | [Hb ->]];
        [now left |].
      right. exists r. set_solver.
    + right. exists r'. set_solver.
Qed.

Lemma for_each_acc_app {S A B} (l1 l2 : list A) (acc : B) (body : B -> A -> M S B)
    (st : S) :
  for_each_acc (l1 ++ l2) acc body st
  = match for_each_acc l1 acc body st with
    | (st1, Ok acc1) => for_each_acc l2 acc1 body st1
    | (st1, Raise e) => (st1, Raise e)
    end.
Proof.
  revert acc st. induction l1 as [| a l1 IH]; intros acc st; [reflexivity |].
  cbn [app for_each_acc]. destruct (body acc a st) as [st1 [acc1 | e]];
    [apply IH | reflexivity].
Qed.

Lemma frames_from_start (file : list redo.RedoRecord) :
  redo.frames_from file 0 = Ok file.
Proof. now destruct file. Qed.

(** The state in which the replay loop starts. *)
Definition at_replay_start (db : DB) : DB :=
  fst (set_lsns
         (match redo.log_file (redo_mgr (transaction_mgr db)) with
          | None => 0
          | Some file => redo.total_len file
          end) db).

(** [recovery] replays exactly the records after the last CHECKPOINT. *)
Lemma recovery_replay_after_checkpoint (db : DB)
    (before after : list redo.RedoRecord) :
  redo.log_file (redo_mgr (transaction_mgr db)) = Some (before ++ after) ->
  ends_with_checkpoint before -> no_checkpoint after ->
  recovery_replay db
  = match for_each_acc after (redo.total_len before, []) replay_one
            (at_replay_start db) with
    | (db1, Ok locals) => (db1, Ok (snd locals))
    | (db1, Raise e) => (db1, Raise e)
    end.
Proof.
  intros Hfile Hb Ha. unfold recovery_replay, at_replay_start.
  unfold bind at 1. unfold get_state at 1. cbv beta iota.
  rewrite Hfile. unfold bind at 1.
  destruct (set_lsns (redo.total_len (before ++ after)) db) as [db0 r0] eqn:E0.
  assert (r0 = Ok tt) as -> by (unfold set_lsns, on_redo, on_mgr, modify in E0;
                                 now injection E0 as _ <-).
  cbn [fst]. unfold redo.replay. rewrite Hfile.
  change (0 <? 0) with false. cbv iota. rewrite frames_from_start.
  unfold bind at 1. unfold lift_result at 1. cbv beta iota.
  rewrite find_checkpoint_split by assumption.
  pose proof (total_len_nonneg before) as Hnn.
  destruct (redo.total_len before <? 0) eqn:E; [lia |].
  rewrite frames_from_prefix.
  unfold bind at 1. unfold lift_result at 1. cbv beta iota.
  unfold bind, ret.
  destruct (for_each_acc after (redo.total_len before, []) replay_one db0)
    as [db1 [locals | e]]; reflexivity.
Qed.

(** C10: a COMMIT record after the last CHECKPOINT whose transaction has no
    BEGIN between that CHECKPOINT and the COMMIT (its BEGIN came before the
    CHECKPOINT) makes [recovery] raise: it never completes, and when the
    records before the COMMIT replay cleanly the error is the ValueError of
    [transactions.remove(xid)]. *)
Theorem recovery_raises_on_commit_without_begin (db : DB)
    (before pre post : list redo.RedoRecord) (c : redo.RedoRecord) :
  redo.log_file (redo_mgr (transaction_mgr db)) = Some (before ++ pre ++ c :: post) ->
  ends_with_checkpoint before ->
  no_checkpoint (pre ++ c :: post) ->
  redo.action c = redo.COMMIT ->
  (forall r, r ∈ pre -> redo.action r = redo.BEGIN -> redo.xid r <> redo.xid c) ->
  is_ok (snd (recovery db)) = false
  /\ forall db1 locals,
      for_each_acc pre (redo.total_len before, []) replay_one (at_replay_start db)
      = (db1, Ok locals) ->
      recovery db = (db1, Raise ValueError).
Proof.
  intros Hfile Hb Hno Hc Hbegin.
  unfold recovery, bind.
  rewrite (recovery_replay_after_checkpoint db before (pre ++ c :: post))
    by assumption.
  rewrite for_each_acc_app.
  destruct (for_each_acc pre (redo.total_len before, []) replay_one
              (at_replay_start db)) as [db1 [[l1 txs1] | e]] eqn:Epre.
  - assert (redo.xid c ∉ txs1) as Hx.
    { intros Hin.
      destruct (for_each_acc_in_flight _ _ _ _ _ Epre (redo.xid c) Hin)
        as [Hnil | (r & Hr & Hbeg & Heq)].
      - cbn in Hnil. set_solver.
      - now apply (Hbegin r Hr Hbeg). }
    cbn [for_each_acc]. rewrite replay_one_commit_unknown by assumption.
    split; [reflexivity |]. now intros db1' locals' [= <- _].
  - split; [reflexivity |]. intros db1' locals'. discriminate.
Qed.

End Recovery.

(** A transaction that began before the checkpoint and committed after it. *)
Definition commit_after_checkpoint : list redo.RedoRecord :=
  [redo.mkRedoRecord 7 redo.BEGIN None None [];
   redo.mkRedoRecord (-1) redo.CHECKPOINT None None [];
   redo.mkRedoRecord 7 redo.COMMIT None None []].

Definition db_with_log (file : list redo.RedoRecord) : @DB sample.pickle :=
  @mkDB sample.pickle (BufferPool_new LRU_CAPACITY) ∅
        (mkTransactionManager (redo.mkRedoLogManager (Some file) [] 0 0)
                              undo.UndoLogManager_new 0 None)
        tt.

Lemma recovery_raises_on_commit_without_begin_witness :
  recovery (db_with_log commit_after_checkpoint)
  = (at_replay_start (db_with_log commit_after_checkpoint), Raise ValueError).
Proof.
  refine (proj2 (recovery_raises_on_commit_without_begin
           (db_with_log commit_after_checkpoint)
           [redo.mkRedoRecord 7 redo.BEGIN None None [];
            redo.mkRedoRecord (-1) redo.CHECKPOINT None None []]
           [] [] (redo.mkRedoRecord 7 redo.COMMIT None None [])
           _ _ _ _ _) _ (_, []) _).
  - reflexivity.
  - right. exists [redo.mkRedoRecord 7 redo.BEGIN None None []],
      (redo.mkRedoRecord (-1) redo.CHECKPOINT None None []).
    split; reflexivity.
  - repeat constructor; discriminate.
  - reflexivity.
  - intros r Hr. apply elem_of_nil in Hr. destruct Hr.
  - reflexivity.
Defined.

End recovery_props.

(** ** transaction/entry.py: an ABORT record met during replay (claim C1) *)

Module abort_replay.
Import slotted_page lru state common transaction sample.

Definition row : bytes := dumps_tuple [PyInt 1; PyInt 2].

(** Transaction 1 inserted [row] into [t] and committed, a checkpoint wrote
    the page, transaction 2 deleted the row and aborted, transaction 3
    committed (which flushed the log), and the process stopped. *)
Definition redo_file : list redo.RedoRecord :=
  [redo.mkRedoRecord 1 redo.BEGIN None None [];
   redo.mkRedoRecord 1 redo.TABLE_INSERT (Some "t"%string) (Some (0, 0)) row;
   redo.mkRedoRecord 1 redo.COMMIT None None [];
   redo.mkRedoRecord (-1) redo.CHECKPOINT None None [];
   redo.mkRedoRecord 2 redo.BEGIN None None [];
   redo.mkRedoRecord 2 redo.TABLE_DELETE (Some "t"%string) (Some (0, 0)) [];
   redo.mkRedoRecord 2 redo.ABORT None None [];
   redo.mkRedoRecord 3 redo.BEGIN None None [];
   redo.mkRedoRecord 3 redo.COMMIT None None []].

Definition undo_file_2 : list undo.UndoRecord :=
  [undo.mkUndoRecord 2 undo.BEGIN None None (undo.Bytes []);
   undo.mkUndoRecord 2 undo.TABLE_INSERT (Some "t"%string) (Some (0, 0))
     (undo.Bytes row);
   undo.mkUndoRecord 2 undo.ABORT None None (undo.Bytes [])].

Definition page_on_disk : Page :=
  set_header (redo.total_len (take 2 redo_file)) (fst (insert row Page_new)).

Definition table_file : bytes :=
  match serialize page_on_disk with Ok buff => buff | Raise _ => [] end.

Definition after_crash : DB :=
  mkDB (BufferPool_new LRU_CAPACITY) {[ "t"%string := table_file ]}
       (mkTransactionManager
          (redo.mkRedoLogManager (Some redo_file) [] 0 0)
          (undo.mkUndoLogManager ∅ {[ 2 := undo_file_2 ]}) 0 None)
       tt.

Definition slot_states (db : DB) (k : page_key) : option (list Z) :=
  option_map (fun p => map state (slot_directory p)) (cached_page k db).

(** Whatever the log and the pickled sizes, the ABORT branch hands the
    list [transactions] on unchanged. *)
Lemma replay_one_abort_keeps_in_flight `{External} (l l' : Z)
    (txs txs' : list Z) (r : redo.RedoRecord) (db db' : DB) :
  redo.action r = redo.ABORT ->
  replay_one (l, txs) r db = (db', Ok (l', txs')) ->
  txs' = txs.
Proof.
  intros Ha. unfold replay_one. rewrite Ha.
  change (redo.ABORT =? redo.BEGIN) with false.
  change (redo.ABORT =? redo.TABLE_INSERT) with false.
  change (redo.ABORT =? redo.TABLE_DELETE) with false.
  change (redo.ABORT =? redo.TABLE_UPDATE) with false.
  change (redo.ABORT =? redo.ABORT) with true. cbv iota.
  intros Hrun. apply recovery_props.bind_ret_Ok in Hrun. now injection Hrun.
Qed.

(** C1 at the failing input: the replay loop reaches the ABORT of
    transaction 2 and undoes it, but leaves 2 in [transactions]; the final
    loop then writes a second ABORT and undoes it again, so the deleted row
    comes back twice. *)
Theorem recovery_undoes_aborted_transaction_twice :
  snd (recovery_replay after_crash) = Ok [2]
  /\ slot_states (fst (recovery_replay after_crash)) ("t"%string, 0)
     = Some [DEAD; NORMAL]
  /\ snd (recovery after_crash) = Ok tt
  /\ slot_states (fst (recovery after_crash)) ("t"%string, 0)
     = Some [DEAD; NORMAL; NORMAL]
  /\ map redo.xid
       (redo.log_buffer (redo_mgr (transaction_mgr (fst (recovery after_crash)))))
     = [2].
Proof. vm_compute. repeat split; reflexivity. Qed.

End abort_replay.

(** ** storage/entry.py: logging of heap mutations (claim C3) *)

Module heap_logging.
Import slotted_page lru state common transaction entry sample.

Definition fresh : DB :=
  mkDB (BufferPool_new LRU_CAPACITY) ∅ TransactionManager_new tt.

(** A row that leaves 1 free byte in an empty page. *)
Definition wide_row : py_tuple := replicate (Z.to_nat 4063) (PyInt 0).

(** A transaction has started and filled the only page of [t]. *)
Definition one_full_page : DB :=
  fst (table_tuple_insert_one "t" wide_row (fst (start_transaction fresh))).

Definition undo_written (db : DB) (xid0 : Z) : Z :=
  len (default [] (undo.active_transactions (undo_mgr (transaction_mgr db)) !! xid0)).

Definition redo_written (db : DB) : Z :=
  len (redo.log_buffer (redo_mgr (transaction_mgr db))).

Definition header_lsn (db : DB) (k : page_key) : option Z :=
  option_map (fun p => lsn (page_header p)) (cached_page k db).

(** The path without fallback does what C3 says: one undo record, one redo
    record, the page stamped with the redo lsn and marked dirty. *)
Lemma table_tuple_insert_one_logs :
  snd (table_tuple_insert_one "t" wide_row (fst (start_transaction fresh)))
  = Ok (0, 0)
  /\ undo_written (fst (start_transaction fresh)) 1 = 1
  /\ undo_written one_full_page 1 = 2
  /\ redo_written (fst (start_transaction fresh)) = 1
  /\ redo_written one_full_page = 2
  /\ header_lsn one_full_page ("t"%string, 0)
     = Some (redo.write_lsn (redo_mgr (transaction_mgr one_full_page)))
  /\ bool_decide (("t"%string, 0) ∈ dirty_pages (buffer_pool one_full_page)) = true.
Proof. vm_compute. repeat split; reflexivity. Qed.

(** C3 at the failing input: on the page-full path of
    [table_tuple_insert_one] no page is allocated; [table_tuple_allocate_page]
    fetches the last page again, its assertion fails, and the insert raises
    with nothing inserted and nothing logged. *)
Theorem table_tuple_insert_one_page_full_raises :
  snd (table_tuple_allocate_page "t" one_full_page) = Raise AssertionError
  /\ snd (table_tuple_insert_one "t" [PyInt 1] one_full_page) = Raise AssertionError
  /\ undo_written (fst (table_tuple_insert_one "t" [PyInt 1] one_full_page)) 1
     = undo_written one_full_page 1
  /\ redo_written (fst (table_tuple_insert_one "t" [PyInt 1] one_full_page))
     = redo_written one_full_page
  /\ cached_page ("t"%string, 1)
       (fst (table_tuple_insert_one "t" [PyInt 1] one_full_page)) = None
  /\ cached_page ("t"%string, 0)
       (fst (table_tuple_insert_one "t" [PyInt 1] one_full_page))
     = cached_page ("t"%string, 0) one_full_page.
Proof. vm_compute. repeat split; reflexivity. Qed.

End heap_logging.

(** ** The buffer pool seen as a map from keys to pages *)

Module pool_props.
Import slotted_page lru state common.

Lemma bind_inv {S A B} (m : M S A) (k : A -> M S B) (st st' : S) (r : result B) :
  bind m k st = (st', r) ->
  (exists st1 a, m st = (st1, Ok a) /\ k a st1 = (st', r))
  \/ (exists e, m st = (st', Raise e) /\ r = Raise e).
Proof.
  unfold bind. destruct (m st) as [st1 [a | e]]; intros Hk.
  - left. eauto.
  - right. injection Hk as <- <-. eauto.
Qed.

Lemma bind_Ok_inv {S A B} (m : M S A) (k : A -> M S B) (st st' : S) (b : B) :
  bind m k st = (st', Ok b) ->
  exists st1 a, m st = (st1, Ok a) /\ k a st1 = (st', Ok b).
Proof.
  intros Hb. apply bind_inv in Hb as [Hb | (e & _ & He)]; [exact Hb | discriminate].
Qed.

Section Cache.
Context {K V : Type} `{Countable K}.

Lemma find_app_first {A} (f : A -> bool) (l1 l2 : list A) :
  List.find f (l1 ++ l2)
  = match List.find f l1 with Some a => Some a | None => List.find f l2 end.
Proof.
  induction l1 as [| a l1 IH]; [reflexivity |].
  cbn. destruct (f a); [reflexivity | exact IH].
Qed.

Lemma has_key_true (k : K) (n : LRUNode K V) : has_key k n = true <-> key n = k.
Proof. unfold has_key. apply bool_decide_eq_true. Qed.

Lemma find_remove_other (k k' : K) (l : list (LRUNode K V)) :
  k' <> k -> List.find (has_key k') (_remove k l) = List.find (has_key k') l.
Proof.
  intros Hne. unfold _remove. induction l as [| n l IH]; [reflexivity |].
  cbn. destruct (has_key k n) eqn:Ek; cbn.
  - apply has_key_true in Ek.
    destruct (has_key k' n) eqn:Ek'; [| exact IH].
    apply has_key_true in Ek'. congruence.
  - destruct (has_key k' n); [reflexivity | exact IH].
Qed.

Lemma find_remove_self (k : K) (l : list (LRUNode K V)) :
  List.find (has_key k) (_remove k l) = None.
Proof.
  unfold _remove. induction l as [| n l IH]; [reflexivity |].
  cbn. destruct (has_key k n) eqn:Ek; cbn; [exact IH |]. now rewrite Ek.
Qed.

Lemma find_has_key (k : K) (l : list (LRUNode K V)) (n : LRUNode K V) :
  List.find (has_key k) l = Some n -> key n = k.
Proof. intros Hf. apply find_some in Hf as [_ Hk]. now apply has_key_true. Qed.

(** [get] only reorders the list. *)
Lemma get_lookup (k : K) (c c' : LRUCache K V) (r : result (option V)) :
  get k c = (c', r) ->
  r = Ok (option_map value (cache_get k c))
  /\ forall k', option_map value (cache_get k' c')
                = option_map value (cache_get k' c).
Proof.
  unfold get. destruct (cache_get k c) as [node |] eqn:E.
  - intros [= <- <-]. split; [reflexivity |]. intros k'.
    unfold cache_get, _add in *. cbn [nodes]. rewrite find_app_first.
    destruct (decide (k' = k)) as [-> | Hne].
    + rewrite find_remove_self, E. cbn.
      apply find_has_key in E as Hk. unfold has_key.
      now rewrite bool_decide_eq_true_2 by assumption.
    + rewrite find_remove_other by assumption.
      destruct (List.find (has_key k') (nodes c)); [reflexivity |].
      cbn. apply find_has_key in E. unfold has_key.
      rewrite bool_decide_eq_false_2 by congruence. reflexivity.
  - intros [= <- <-]. split; reflexivity.
Qed.

(** [put] may drop other keys but never changes what they map to. *)
Lemma put_lookup (k : K) (v : V) (c c' : LRUCache K V) (r : result unit) :
  put k v c = (c', r) ->
  (forall k' n, k' <> k -> cache_get k' c' = Some n -> cache_get k' c = Some n)
  /\ (forall n, cache_get k c' = Some n -> value n = v).
Proof.
  unfold put. set (nodes1 := if in_cache k c then _remove k (nodes c) else nodes c).
  set (node := mkLRUNode k v false).
  assert (forall k', k' <> k ->
            List.find (has_key k') (_add node nodes1) = cache_get k' c) as Hother.
  { intros k' Hne. unfold _add. rewrite find_app_first. subst nodes1.
    destruct (in_cache k c); [rewrite find_remove_other by assumption |];
      fold (cache_get k' c); destruct (cache_get k' c); try reflexivity;
      cbn; unfold has_key; cbn; now rewrite bool_decide_eq_false_2 by congruence. }
  assert (forall n, List.find (has_key k) (_add node nodes1) = Some n -> value n = v)
    as Hself.
  { intros n. unfold _add. rewrite find_app_first. subst nodes1.
    destruct (in_cache k c) eqn:Ein.
    - rewrite find_remove_self. cbn. unfold has_key. cbn.
      rewrite bool_decide_eq_true_2 by reflexivity. now intros [= <-].
    - unfold in_cache in Ein. fold (cache_get k c).
      destruct (cache_get k c); [discriminate |]. cbn. unfold has_key. cbn.
      rewrite bool_decide_eq_true_2 by reflexivity. now intros [= <-]. }
  assert (forall kv k' n,
            List.find (has_key k') (_remove kv (_add node nodes1)) = Some n ->
            List.find (has_key k') (_add node nodes1) = Some n) as Hrm.
  { intros kv k' n. destruct (decide (k' = kv)) as [-> | Hne].
    - now rewrite find_remove_self.
    - now rewrite find_remove_other. }
  destruct (len (_add node nodes1) >? capacity c).
  - destruct (first_unpinned (_add node nodes1)) as [victim |];
      intros [= <- <-]; unfold cache_get; cbn [nodes]; split.
    + intros k' n Hne Hf. apply Hrm in Hf. now rewrite Hother in Hf.
    + intros n Hf. apply Hrm in Hf. now apply Hself.
    + intros k' n Hne Hf. apply Hrm in Hf. now rewrite Hother in Hf.
    + intros n Hf. apply Hrm in Hf. now apply Hself.
  - intros [= <- <-]. unfold cache_get at 1 3. cbn [nodes]. split.
    + intros k' n Hne Hf. now rewrite Hother in Hf.
    + exact Hself.
Qed.

Lemma find_map_same_key (k' : K) (f : LRUNode K V -> LRUNode K V)
    (l : list (LRUNode K V)) :
  (forall n, key (f n) = key n) ->
  List.find (has_key k') (map f l) = option_map f (List.find (has_key k') l).
Proof.
  intros Hf. induction l as [| n l IH]; [reflexivity |].
  cbn. unfold has_key at 1 3. rewrite Hf. fold (has_key k' n).
  destruct (has_key k' n); [reflexivity | exact IH].
Qed.

(** Writing through a reference to the value cached under [k]. *)
Lemma set_value_lookup (k k' : K) (v : V) (c : LRUCache K V) :
  option_map value (cache_get k' (set_value k v c))
  = if decide (k' = k)
    then option_map (fun _ => v) (cache_get k c)
    else option_map value (cache_get k' c).
Proof.
  unfold cache_get, set_value. cbn [nodes].
  rewrite find_map_same_key by (intros n; now destruct (has_key k n)).
  destruct (decide (k' = k)) as [-> | Hne].
  - destruct (List.find (has_key k) (nodes c)) as [n |] eqn:E; [| reflexivity].
    cbn. apply find_some in E as [_ E]. now rewrite E.
  - destruct (List.find (has_key k') (nodes c)) as [n |] eqn:E; [| reflexivity].
    cbn. apply find_has_key in E. unfold has_key.
    rewrite bool_decide_eq_false_2 by congruence. reflexivity.
Qed.

End Cache.

End pool_props.

(** ** storage/entry.py: [table_tuple_allocate_page] on every state *)

Module allocate_page_props.
Import slotted_page lru state common entry pool_props.

Lemma fold_max_spec (l : list Z) (a : Z) :
  (fold_left Z.max l a = a \/ In (fold_left Z.max l a) l)
  /\ a <= fold_left Z.max l a
  /\ forall x, In x l -> x <= fold_left Z.max l a.
Proof.
  revert a. induction l as [| y l IH]; intros a; cbn.
  - split; [now left | split; [lia | intros x []]].
  - destruct (IH (Z.max a y)) as (Hin & Hle & Hub).
    split; [| split].
    + destruct Hin as [Heq | Hin]; [| now right; right].
      destruct (Z.max_spec a y) as [[_ Hm] | [_ Hm]]; rewrite Hm in Heq |- *.
      * right. left. now symmetry.
      * now left.
    + lia.
    + intros x [<- | Hx]; [lia | now apply Hub].
Qed.

Section Allocate.
Context `{External}.

(** [find_max_pageno] is the largest dirty page number of the relation, and
    [-1] when the relation has no dirty page. *)
Lemma find_max_pageno_spec (t : string) (b : BufferPool Page) :
  (find_max_pageno t b = -1 /\ forall n, (t, n) ∉ dirty_pages b)
  \/ ((t, find_max_pageno t b) ∈ dirty_pages b
      /\ forall n, (t, n) ∈ dirty_pages b -> n <= find_max_pageno t b).
Proof.
  unfold find_max_pageno.
  set (f := fun k : page_key => String.eqb (fst k) t).
  assert (forall k, In k (List.filter f (elements (dirty_pages b)))
                    <-> k ∈ dirty_pages b /\ fst k = t) as Hmem.
  { intros k. rewrite filter_In, <- list_elem_of_In, elem_of_elements.
    unfold f. now rewrite String.eqb_eq. }
  destruct (List.filter f (elements (dirty_pages b))) as [| k0 rest].
  - left. split; [reflexivity |]. intros n Hn.
    apply (proj2 (Hmem (t, n))). now split.
  - right. destruct (fold_max_spec (map snd rest) (snd k0)) as (Hin & Hle & Hub).
    split.
    + destruct Hin as [-> | Hin].
      * destruct (proj1 (Hmem k0) (or_introl eq_refl)) as [Hd Ht].
        destruct k0 as [t0 n0]. cbn in *. now subst t0.
      * apply in_map_iff in Hin as ([t1 n1] & Hsnd & Hin1). cbn in Hsnd.
        destruct (proj1 (Hmem (t1, n1)) (or_intror Hin1)) as [Hd Ht].
        cbn in Ht. subst t1. now rewrite <- Hsnd.
    + intros n Hn.
      destruct (proj2 (Hmem (t, n)) (conj Hn eq_refl)) as [-> | Hin1]; [exact Hle |].
      apply Hub. apply in_map_iff. now exists (t, n).
Qed.

(** [table_tuple_get_page] leaves the table files alone and marks dirty at
    most the page it was asked for. *)
Lemma get_page_dirty (t : string) (n : Z) (db : DB) :
  table_files (fst (table_tuple_get_page t n db)) = table_files db
  /\ (dirty_pages (buffer_pool (fst (table_tuple_get_page t n db)))
      = dirty_pages (buffer_pool db)
      \/ dirty_pages (buffer_pool (fst (table_tuple_get_page t n db)))
         = {[(t, n)]} ∪ dirty_pages (buffer_pool db)).
Proof.
  unfold table_tuple_get_page, table_tuple_get_disk_pages, read_page, bind,
    get_state, ret, on_pool, __getitem__, __setitem__, mark_dirty.
  repeat (case_match; cbn [fst snd buffer_pool table_files dirty_pages lru_cache]);
    simplify_eq; cbn; auto.
Qed.

Lemma get_last_pageno_inv (t : string) (db db' : DB) (n : Z) :
  table_tuple_get_last_pageno t db = (db', Ok n) ->
  db' = db
  /\ exists disk, snd (table_tuple_get_disk_pages t db) = Ok disk
     /\ n = Z.max (Z.max (find_max_pageno t (buffer_pool db) + 1) disk - 1) 0.
Proof.
  unfold table_tuple_get_last_pageno, table_tuple_get_pages,
    table_tuple_get_disk_pages, bind, get_state, ret.
  repeat case_match; intros; simplify_eq; split; try reflexivity; eauto.
Qed.

Lemma get_disk_pages_files (t : string) (db db' : DB) :
  table_files db' = table_files db ->
  snd (table_tuple_get_disk_pages t db') = snd (table_tuple_get_disk_pages t db).
Proof.
  unfold table_tuple_get_disk_pages. intros ->.
  now repeat case_match.
Qed.

(** The second [table_tuple_get_last_pageno] of [table_tuple_allocate_page]
    returns what the first one did: fetching page [pageno] can make dirty only
    [pageno] itself, which is already the last page. *)
Lemma last_pageno_after_get_page (t : string) (db db1 db2 : DB) (n n' : Z)
    (r : result (option Page)) :
  table_tuple_get_last_pageno t db = (db, Ok n) ->
  table_tuple_get_page t n db = (db1, r) ->
  table_tuple_get_last_pageno t db1 = (db2, Ok n') ->
  n' = n.
Proof.
  intros Hfirst Hget Hsecond.
  apply get_last_pageno_inv in Hfirst as (_ & disk & Hdisk & ->).
  apply get_last_pageno_inv in Hsecond as (_ & disk' & Hdisk' & ->).
  pose proof (get_page_dirty t
    (Z.max (Z.max (find_max_pageno t (buffer_pool db) + 1) disk - 1) 0) db)
    as [Hfiles Hdirty].
  rewrite Hget in Hfiles, Hdirty. cbn [fst] in Hfiles, Hdirty.
  rewrite (get_disk_pages_files t db db1 Hfiles), Hdisk in Hdisk'.
  injection Hdisk' as <-.
  set (m := find_max_pageno t (buffer_pool db)) in *.
  set (m' := find_max_pageno t (buffer_pool db1)).
  set (n := Z.max (Z.max (m + 1) disk - 1) 0) in *.
  assert (m <= m' <= n) as Hm.
  { pose proof (find_max_pageno_spec t (buffer_pool db)) as Hold.
    pose proof (find_max_pageno_spec t (buffer_pool db1)) as Hnew.
    fold m in Hold. fold m' in Hnew.
    destruct Hdirty as [Heq | Heq]; rewrite Heq in Hnew.
    - destruct Hold as [[Hm Hno] | [Hin Hub]], Hnew as [[Hm' Hno'] | [Hin' Hub']].
      + lia.
      + now apply Hno in Hin'.
      + now apply Hno' in Hin.
      + specialize (Hub _ Hin'). specialize (Hub' _ Hin). lia.
    - destruct Hnew as [[Hm' Hno'] | [Hin' Hub']].
      { exfalso. apply (Hno' n). set_solver. }
      assert (n <= m') by (apply Hub'; set_solver).
      apply elem_of_union in Hin' as [Hin' | Hin'].
      + apply elem_of_singleton in Hin'. injection Hin' as Hin'. lia.
      + destruct Hold as [[Hm Hno] | [Hin Hub]]; [now apply Hno in Hin' |].
        specialize (Hub _ Hin'). lia. }
  lia.
Qed.

(** [table_tuple_allocate_page] never returns: on every state it raises
    (its own assertion, or an error of a call before it). *)
Lemma table_tuple_allocate_page_raises (t : string) (db : DB) :
  exists e, snd (table_tuple_allocate_page t db) = Raise e.
Proof.
  destruct (table_tuple_allocate_page t db) as [db' [n' | e]] eqn:Erun;
    [exfalso | now exists e].
  unfold table_tuple_allocate_page in Erun.
  apply bind_Ok_inv in Erun as (db0 & n & Hfirst & Erun).
  pose proof (get_last_pageno_inv _ _ _ _ Hfirst) as [-> _].
  apply bind_Ok_inv in Erun as (db1 & pg & Hget & Erun).
  apply bind_Ok_inv in Erun as (db2 & n2 & Hsecond & Erun).
  pose proof (last_pageno_after_get_page _ _ _ _ _ _ _ Hfirst Hget Hsecond) as ->.
  apply bind_Ok_inv in Erun as (db3 & u & Hassert & _).
  unfold py_assert in Hassert.
  replace (n =? n + 1) with false in Hassert by (symmetry; apply Z.eqb_neq; lia).
  discriminate.
Qed.

(** Hence the [except PageError] branch of [table_tuple_insert_one] never
    completes either. *)
Corollary insert_one_fallback_raises (t : string) (pageno : Z)
    (page : option Page) (xid0 : Z) (tuple_bytes : bytes) (db : DB) :
  exists e, snd (insert_one_fallback t pageno page xid0 tuple_bytes db) = Raise e.
Proof.
  destruct (table_tuple_allocate_page_raises t db) as [e He].
  exists e. unfold insert_one_fallback, bind.
  destruct (table_tuple_allocate_page t db) as [db' [n | e']]; [discriminate |].
  exact He.
Qed.

End Allocate.

End allocate_page_props.

(** ** transaction/entry.py: what one replayed record does to the pool *)

Module replay_props.
Import slotted_page lru state common transaction pool_props.

Section Replay.
Context `{External}.


(** Pages may leave the pool (eviction); those that stay keep their value. *)
Definition others_kept (k : page_key) (db db' : DB) : Prop :=
  forall k' p, k' <> k -> cached_page k' db' = Some p -> cached_page k' db = Some p.

Definition same_pages (db db' : DB) : Prop :=
  forall k', cached_page k' db' = cached_page k' db.

Lemma contains_cached (k : page_key) (db : DB) :
  __contains__ k (buffer_pool db) = true <-> exists p, cached_page k db = Some p.
Proof.
  unfold __contains__, in_cache, cached_page.
  destruct (cache_get k (lru_cache (buffer_pool db))) as [n |]; cbn.
  - split; eauto.
  - split; [discriminate | intros [p Hp]; discriminate].
Qed.

Lemma getitem_effect (k : page_key) (db db' : DB) (r : result (option Page)) :
  on_pool (__getitem__ k) db = (db', r) ->
  r = Ok (cached_page k db) /\ same_pages db db'
  /\ transaction_mgr db' = transaction_mgr db.
Proof.
  unfold on_pool, __getitem__.
  destruct (get k (lru_cache (buffer_pool db))) as [c r0] eqn:E.
  intros [= <- <-]. apply get_lookup in E as [-> Hsame].
  repeat split. intros k'. unfold cached_page. cbn. apply Hsame.
Qed.

Lemma setitem_effect (k : page_key) (v : Page) (db db' : DB) (r : result unit) :
  on_pool (__setitem__ k v) db = (db', r) ->
  others_kept k db db'
  /\ (forall p, cached_page k db' = Some p -> p = v)
  /\ transaction_mgr db' = transaction_mgr db.
Proof.
  unfold on_pool, __setitem__.
  destruct (put k v (lru_cache (buffer_pool db))) as [c r0] eqn:E.
  intros [= <- <-]. apply put_lookup in E as [Hother Hself].
  repeat split.
  - intros k' p Hne. unfold cached_page. cbn.
    destruct (cache_get k' c) as [n |] eqn:En; [| discriminate].
    rewrite (Hother k' n Hne En). exact (fun x => x).
  - intros p. unfold cached_page. cbn.
    destruct (cache_get k c) as [n |] eqn:En; [| discriminate].
    cbn. intros [= <-]. now apply Hself.
Qed.

Lemma mark_dirty_effect (k : page_key) (db db' : DB) (r : result unit) :
  on_pool (mark_dirty k) db = (db', r) ->
  same_pages db db' /\ transaction_mgr db' = transaction_mgr db.
Proof.
  unfold on_pool, mark_dirty.
  destruct (__contains__ k (buffer_pool db)); intros [= <- <-];
    (split; [intros k'; reflexivity | reflexivity]).
Qed.

Lemma get_disk_pages_pure (t : string) (db db' : DB) (r : result Z) :
  table_tuple_get_disk_pages t db = (db', r) -> db' = db.
Proof.
  unfold table_tuple_get_disk_pages.
  destruct (table_files db !! t); [destruct (_ && _) |]; now intros [= <- _].
Qed.

Lemma read_page_pure (t : string) (n : Z) (db db' : DB) (r : result Page) :
  read_page t n db = (db', r) -> db' = db.
Proof.
  unfold read_page.
  destruct (table_files db !! t); [destruct (n <? 0) |]; now intros [= <- _].
Qed.

Lemma others_kept_refl (k : page_key) (db : DB) : others_kept k db db.
Proof. now intros k' p _ Hp. Qed.

Lemma others_kept_trans (k : page_key) (db1 db2 db3 : DB) :
  others_kept k db1 db2 -> others_kept k db2 db3 -> others_kept k db1 db3.
Proof. intros H12 H23 k' p Hne Hp. eauto. Qed.

Lemma same_pages_others_kept (k : page_key) (db db' : DB) :
  same_pages db db' -> others_kept k db db'.
Proof. intros Hs k' p _ Hp. now rewrite <- Hs. Qed.

(** [table_tuple_get_page] returns the page cached under the key; a page
    already cached is returned as it is. *)
Lemma get_page_effect (t : string) (n : Z) (db db' : DB)
    (r : result (option Page)) :
  table_tuple_get_page t n db = (db', r) ->
  transaction_mgr db' = transaction_mgr db
  /\ others_kept (t, n) db db'
  /\ (forall pg, r = Ok (Some pg) -> cached_page (t, n) db' = Some pg)
  /\ (forall p0, cached_page (t, n) db = Some p0 ->
                 r = Ok (Some p0) /\ same_pages db db').
Proof.
  unfold table_tuple_get_page. intros Hrun.
  apply bind_inv in Hrun as [(db0 & dbv & Hget & Hrun) | (e & Hget & _)];
    [| discriminate].
  unfold get_state in Hget. injection Hget as <- <-.
  destruct (__contains__ (t, n) (buffer_pool db)) eqn:Ec.
  - (* already cached *)
    unfold bind at 1, ret at 1 in Hrun. cbv beta iota in Hrun.
    apply getitem_effect in Hrun as (-> & Hsame & Hmgr).
    apply contains_cached in Ec as [p Hp].
    split; [assumption | split; [| split]].
    + now apply same_pages_others_kept.
    + intros pg [= Hpg]. rewrite Hsame. congruence.
    + intros p0 Hp0. split; [congruence | assumption].
  - assert (cached_page (t, n) db = None) as Hnone.
    { destruct (cached_page (t, n) db) eqn:E; [| reflexivity].
      assert (__contains__ (t, n) (buffer_pool db) = true)
        by (apply contains_cached; eauto). congruence. }
    assert (forall db1 (r1 : result bool),
              transaction_mgr db1 = transaction_mgr db ->
              others_kept (t, n) db db1 ->
              forall db2 r2,
                (match r1 with
                 | Ok early => if early then ret None else on_pool (__getitem__ (t, n))
                 | Raise e => raise e
                 end) db1 = (db2, r2) ->
                transaction_mgr db2 = transaction_mgr db
                /\ others_kept (t, n) db db2
                /\ (forall pg, r2 = Ok (Some pg) -> cached_page (t, n) db2 = Some pg)
                /\ (forall p0, cached_page (t, n) db = Some p0 ->
                               r2 = Ok (Some p0) /\ same_pages db db2)) as Hfinish.
    { intros db1 r1 Hm1 Hk1 db2 r2 Hfin.
      assert (forall p0, cached_page (t, n) db = Some p0 ->
                         r2 = Ok (Some p0) /\ same_pages db db2) as Hvac
        by (intros p0 Hp0; congruence).
      destruct r1 as [[|] | e].
      - unfold ret in Hfin. injection Hfin as <- <-.
        split; [assumption | split; [assumption | split; [discriminate | exact Hvac]]].
      - apply getitem_effect in Hfin as (-> & Hsame & Hmgr).
        split; [congruence | split; [| split; [| exact Hvac]]].
        + eapply others_kept_trans; [exact Hk1 |].
          now apply same_pages_others_kept.
        + intros pg [= Hpg]. now rewrite Hsame.
      - unfold raise in Hfin. injection Hfin as <- <-.
        split; [assumption | split; [assumption | split; [discriminate | exact Hvac]]]. }
    unfold bind at 1 in Hrun.
    match type of Hrun with
    | context [match ?m db with _ => _ end] =>
        destruct (m db) as [db1 r1] eqn:Efirst
    end.
    assert (transaction_mgr db1 = transaction_mgr db /\ others_kept (t, n) db db1)
      as [Hm1 Hk1].
    { clear Hrun Hfinish.
      apply bind_inv in Efirst as [(dbd & disk & Hdisk & Efirst) | (e & Hdisk & _)].
      2:{ apply get_disk_pages_pure in Hdisk as ->.
          split; [reflexivity | apply others_kept_refl]. }
      apply get_disk_pages_pure in Hdisk as ->.
      destruct (n <? disk).
      - destruct (negb (file_exists t db)).
        + unfold ret in Efirst. injection Efirst as <- _.
          split; [reflexivity | apply others_kept_refl].
        + apply bind_inv in Efirst
            as [(dbr & page & Hread & Efirst) | (e & Hread & _)].
          2:{ apply read_page_pure in Hread as ->.
              split; [reflexivity | apply others_kept_refl]. }
          apply read_page_pure in Hread as ->.
          apply bind_inv in Efirst as [(dbs & u & Hset & Efirst) | (e & Hset & _)].
          * unfold ret in Efirst. injection Efirst as <- _.
            apply setitem_effect in Hset as (Hk & _ & Hm). now split.
          * apply setitem_effect in Hset as (Hk & _ & Hm). now split.
      - apply bind_inv in Efirst as [(dbs & u & Hset & Efirst) | (e & Hset & _)].
        2:{ apply setitem_effect in Hset as (Hk & _ & Hm). now split. }
        apply setitem_effect in Hset as (Hk & _ & Hm).
        apply bind_inv in Efirst as [(dbm & u' & Hmark & Efirst) | (e & Hmark & _)].
        + unfold ret in Efirst. injection Efirst as <- _.
          apply mark_dirty_effect in Hmark as (Hs & Hm').
          split; [congruence |].
          eapply others_kept_trans; [exact Hk |].
          now apply same_pages_others_kept.
        + apply mark_dirty_effect in Hmark as (Hs & Hm').
          split; [congruence |].
          eapply others_kept_trans; [exact Hk |].
          now apply same_pages_others_kept. }
    eapply (Hfinish db1 r1 Hm1 Hk1 db' r).
    destruct r1 as [early | e]; [exact Hrun |].
    unfold raise. exact Hrun.
Qed.

Lemma on_page_effect {A} (k : page_key) (pg : Page) (m : M Page A)
    (db db' : DB) (r : result A) :
  on_page k (Some pg) m db = (db', r) ->
  transaction_mgr db' = transaction_mgr db
  /\ ((exists p0, cached_page k db = Some p0 /\ r = snd (m p0)
                  /\ cached_page k db' = Some (fst (m p0))
                  /\ forall k', k' <> k -> cached_page k' db' = cached_page k' db)
      \/ (cached_page k db = None /\ db' = db /\ r = Raise AttributeError)).
Proof.
  unfold on_page, cached_page.
  destruct (cache_get k (lru_cache (buffer_pool db))) as [node |] eqn:E.
  - destruct (m (value node)) as [p' r'] eqn:Em. intros [= <- <-].
    split; [reflexivity |]. left. exists (value node). cbn [option_map].
    rewrite Em. cbn [fst snd buffer_pool lru_cache].
    split; [reflexivity |]. split; [reflexivity |]. split.
    + rewrite set_value_lookup, E. now rewrite decide_True by reflexivity.
    + intros k' Hne. rewrite set_value_lookup. now rewrite decide_False by assumption.
  - intros [= <- <-]. split; [reflexivity |]. right. now repeat split.
Qed.


Lemma bind_ret_unit {S} (m : M S unit) (st : S) :
  bind m (fun _ => ret tt) st = m st.
Proof. unfold bind, ret. now destruct (m st) as [st' [[] | e]]. Qed.























End Replay.

End replay_props.

(** ** transaction/entry.py: running recovery twice (claim C2) *)

Module recovery_twice.
Import slotted_page lru state common transaction sample.
Import recovery_props replay_props abort_replay.




Definition once : DB := fst (recovery after_crash).


End recovery_twice.

(** ** bplus_tree.py: order of the leaves (claim C6) *)

Module bplus_tree_props.
Import bplus_tree.

Definition key (n : Z) : py_tuple := [PyInt n].
Definition keys_from (first count : nat) : list py_tuple :=
  map (fun i => key (Z.of_nat i)) (seq first count).

(** Keys 1 .. n inserted in ascending order, key [i] at location [(0, i)]. *)
Definition ascending (n : nat) : list tree_op :=
  map (fun i => Insert (key (Z.of_nat i)) (0, Z.of_nat i)) (seq 1 n).

(** 61 ascending inserts split the root as an internal node (its 11th key
    arrives with the 61st insert); the five keys of the leaf that the left
    half keeps as its last child are then deleted. *)
Definition emptied_leaf : list tree_op :=
  ascending 61 ++ map (fun i => Delete (key i) None) [21; 22; 23; 24; 25].

Definition after (ops : list tree_op) : BPlusTree :=
  fst (run_tree_ops ops BPlusTree_new).

(** C6 at the failing input: the split of the internal root gave the left
    half as many children as keys, so keys between its last key and the
    separator are sent to its last child; once that leaf is empty the
    rightward walk does not leave it, and key 28 lands before the leaf
    that holds 26 and 27. *)
Theorem leaves_out_of_order_after_internal_split :
  snd (run_tree_ops (emptied_leaf ++ [Insert (key 28) (0, 28)]) BPlusTree_new)
  = Ok tt
  /\ rbind (leaf_keys (after emptied_leaf)) non_decreasing = Ok true
  /\ leaf_keys (after (emptied_leaf ++ [Insert (key 28) (0, 28)]))
     = Ok (keys_from 1 20 ++ [key 28] ++ keys_from 26 36)
  /\ rbind (leaf_keys (after (emptied_leaf ++ [Insert (key 28) (0, 28)])))
           non_decreasing
     = Ok false.
Proof. vm_compute. repeat split; reflexivity. Qed.

End bplus_tree_props.

(* ===================================================================== *)
(** * More of the storage layer *)
(* ===================================================================== *)

(** ** slotted_page.py: update, delete and serialize on their own *)

Module page_ops_props.
Import slotted_page slotted_page_props slotted_page_layout slotted_page_history.

Lemma page_eta (p : Page) :
  mkPage (page_header p) (slot_directory p) (records p) = p.
Proof. now destruct p. Qed.

Lemma py_norm_bound {A} (l : list A) (i : Z) (n : nat) :
  py_norm l i = Some n -> i < len l.
Proof.
  unfold py_norm. pose proof (len_nonneg l).
  destruct (0 <=? i) eqn:E1.
  - destruct (i <? len l) eqn:E2; [lia | discriminate].
  - lia.
Qed.

Lemma alter_slot_restore (p : Page) (sid : Z) (slot : Slot) (st : Z) :
  py_index (slot_directory p) sid = Ok slot ->
  alter_slot (set_state (state slot)) sid (alter_slot (set_state st) sid p) = p.
Proof.
  intros Hidx. apply py_index_Ok in Hidx as (n & Hnorm & Hn).
  unfold alter_slot. rewrite Hnorm. cbn [slot_directory page_header records].
  rewrite (py_norm_same_length _ (slot_directory p)) by apply length_alter.
  rewrite Hnorm. cbn [slot_directory page_header records].
  rewrite list_alter_alter_eq.
  replace (alter (set_state (state slot) ∘ set_state st) n (slot_directory p))
    with (slot_directory p); [apply page_eta |].
  apply list_eq. intros i. rewrite list_lookup_alter. case_decide as E.
  - subst i. rewrite Hn. cbn. now destruct slot.
  - reflexivity.
Qed.

Lemma delete_in_range (p : Page) (sid : Z) (slot : Slot) :
  py_index (slot_directory p) sid = Ok slot ->
  delete sid p = (alter_slot (set_state DEAD) sid p, Ok true).
Proof.
  intros Hidx. unfold delete. rewrite Hidx.
  apply py_index_Ok in Hidx as (n & Hnorm & _).
  apply py_norm_bound in Hnorm.
  destruct (sid >=? len (slot_directory p)) eqn:E; [lia | reflexivity].
Qed.

(** X1: an [update] that raises leaves the page exactly as it was: when the
    longer record does not fit after the old slot was tombstoned, the
    slot's state is put back before PageError is re-raised. *)
Theorem update_raise_keeps_page (p : Page) (sid : Z) (record : bytes) (e : exn) :
  snd (update sid record p) = Raise e -> fst (update sid record p) = p.
Proof.
  unfold update.
  destruct (py_index (slot_directory p) sid) as [slot | e0] eqn:Hidx;
    [| reflexivity].
  destruct (len record <=? length slot); [discriminate |].
  rewrite (delete_in_range p sid slot Hidx).
  unfold insert.
  destruct (allocate_slot (alter_slot (set_state DEAD) sid p) record);
    [discriminate |].
  intros _. cbn [fst]. now apply alter_slot_restore.
Qed.

(** A page whose only record leaves no room for a longer copy of it. *)
Definition crowded : Page :=
  fst (run_ops [OpInsert (replicate (Z.to_nat 8000) x00)]).

Lemma update_raise_keeps_page_witness :
  snd (update 0 (replicate (Z.to_nat 8001) x00) crowded) = Raise PageError
  /\ fst (update 0 (replicate (Z.to_nat 8001) x00) crowded) = crowded.
Proof.
  split; [vm_compute; reflexivity |].
  apply (update_raise_keeps_page crowded 0 _ PageError).
  vm_compute. reflexivity.
Defined.

Lemma select_altered (p : Page) (sid : Z) (n : nat) (slot : Slot)
    (f : Slot -> Slot) (recs : bytes) :
  py_norm (slot_directory p) sid = Some n ->
  slot_directory p !! n = Some slot ->
  select sid (mkPage (page_header p) (alter f n (slot_directory p)) recs)
  = if negb (state (f slot) =? NORMAL) then Ok []
    else Ok (slice recs (offset (f slot)) (offset (f slot) + length (f slot))).
Proof.
  intros Hnorm Hn. unfold select. cbn [slot_directory records].
  assert (len (alter f n (slot_directory p)) = len (slot_directory p)) as Hlen
    by (unfold len; now rewrite length_alter).
  rewrite Hlen. pose proof (py_norm_bound _ _ _ Hnorm).
  destruct (sid >=? len (slot_directory p)) eqn:E; [lia |].
  unfold py_index.
  rewrite (py_norm_same_length _ (slot_directory p)) by apply length_alter.
  rewrite Hnorm, list_lookup_alter. case_decide; [| congruence].
  rewrite Hn. reflexivity.
Qed.

(** X2: on a page reached by any history of operations, a successful
    [update] can be read back: [select] at the slot index it returned gives
    the new record, whether it was written in place or relocated. *)
Theorem update_then_select (ops : list page_op) (sid : Z) (record : bytes)
    (p' : Page) (sid' : Z) :
  update sid record (fst (run_ops ops)) = (p', Ok sid') ->
  select sid' p' = Ok record.
Proof.
  pose proof (page_inv_run_ops ops) as Hinv.
  set (p := fst (run_ops ops)) in *. unfold update.
  destruct (py_index (slot_directory p) sid) as [slot | e0] eqn:Hidx;
    [| discriminate].
  destruct (len record <=? length slot) eqn:Hfit.
  - intros [= <- <-].
    apply py_index_Ok in Hidx as (n & Hnorm & Hn).
    unfold alter_slot. cbn [slot_directory page_header records]. rewrite Hnorm.
    rewrite (select_altered
               (mkPage (page_header p) (slot_directory p)
                       (overwrite (records p) (offset slot) record))
               sid n slot _ _ Hnorm Hn).
    cbn [state offset length negb Z.eqb NORMAL].
    destruct (inv_slot _ _ Hinv n slot Hn) as (Ho & Hl & Hin & _).
    f_equal. apply slice_overwrite_same; [assumption | lia].
  - rewrite (delete_in_range p sid slot Hidx).
    unfold insert, allocate_slot.
    destruct (total_page_size (alter_slot (set_state DEAD) sid p) record
              >=? PAGE_SIZE); [discriminate |].
    intros [= <- <-]. cbn [slot_directory]. rewrite len_app.
    change (len [_]) with 1.
    replace (len (slot_directory (alter_slot (set_state DEAD) sid p)) + 1 - 1)
      with (len (slot_directory (alter_slot (set_state DEAD) sid p))) by lia.
    apply select_last.
Qed.

Lemma update_then_select_witness :
  select 2 (fst (update 0 [x64; x65; x66]
                   (fst (run_ops [OpInsert [x61; x62]; OpInsert [x63]]))))
  = Ok [x64; x65; x66].
Proof.
  apply (update_then_select [OpInsert [x61; x62]; OpInsert [x63]] 0
           [x64; x65; x66]).
  reflexivity.
Defined.

(** X3: an [update] with a record longer than the slot relocates it: the
    record is appended as a new slot whose index is the old slot count, the
    old bytes stay in the record region, and the old slot (for a
    non-negative index) reads as deleted. *)
Theorem update_relocates (p p' : Page) (sid sid' : Z) (slot : Slot)
    (record : bytes) :
  0 <= sid ->
  py_index (slot_directory p) sid = Ok slot ->
  length slot < len record ->
  update sid record p = (p', Ok sid') ->
  sid' = len (slot_directory p)
  /\ len (slot_directory p') = len (slot_directory p) + 1
  /\ records p' = records p ++ record
  /\ select sid p' = Ok [].
Proof.
  intros Hsid Hidx Hlong. unfold update. rewrite Hidx.
  destruct (len record <=? length slot) eqn:Hfit; [lia |].
  rewrite (delete_in_range p sid slot Hidx).
  unfold insert, allocate_slot.
  destruct (total_page_size (alter_slot (set_state DEAD) sid p) record
            >=? PAGE_SIZE); [discriminate |].
  apply py_index_Ok in Hidx as (n & Hnorm & Hn).
  unfold alter_slot. rewrite Hnorm. cbn [slot_directory page_header records].
  intros [= <- <-]. cbn [slot_directory records].
  assert (len (alter (set_state DEAD) n (slot_directory p))
          = len (slot_directory p)) as Hlen
    by (unfold len; now rewrite length_alter).
  rewrite !len_app, Hlen. change (len [_]) with 1.
  split; [lia | split; [reflexivity | split; [reflexivity |]]].
  pose proof (py_norm_bound _ _ _ Hnorm) as Hlt.
  unfold select. cbn [slot_directory records].
  rewrite len_app, Hlen. change (len [_]) with 1.
  destruct (sid >=? len (slot_directory p) + 1) eqn:E; [lia |].
  unfold py_index. rewrite py_norm_nonneg
    by (rewrite len_app, Hlen; change (len [_]) with 1; lia).
  assert (n = Z.to_nat sid) as ->.
  { rewrite py_norm_nonneg in Hnorm by lia. now injection Hnorm. }
  rewrite lookup_app_l
    by (rewrite length_alter; apply lookup_lt_Some in Hn; exact Hn).
  rewrite list_lookup_alter. case_decide; [| congruence].
  rewrite Hn. reflexivity.
Qed.

Definition two_rows : Page :=
  fst (run_ops [OpInsert [x61; x62]; OpInsert [x63]]).

Lemma update_relocates_witness :
  0 <= 0
  /\ py_index (slot_directory two_rows) 0 = Ok (mkSlot 0 2 NORMAL)
  /\ length (mkSlot 0 2 NORMAL) < len [x64; x65; x66]
  /\ select 0 (fst (update 0 [x64; x65; x66] two_rows)) = Ok [].
Proof.
  split; [lia | split; [reflexivity | split; [reflexivity |]]].
  exact (proj2 (proj2 (proj2
    (update_relocates two_rows (fst (update 0 [x64; x65; x66] two_rows))
       0 2 (mkSlot 0 2 NORMAL) [x64; x65; x66]
       ltac:(lia) eq_refl eq_refl eq_refl)))).
Defined.

(** X4: [delete] only sets a tombstone.  For a valid non-negative index it
    returns [True], the slot then reads as the empty record, and neither the
    slot count, the record bytes nor any other slot changes; an index past
    the directory raises PageError and changes nothing. *)
Theorem delete_sets_tombstone (p : Page) (sid : Z) :
  0 <= sid ->
  if sid <? len (slot_directory p) then
    snd (delete sid p) = Ok true
    /\ select sid (fst (delete sid p)) = Ok []
    /\ len (slot_directory (fst (delete sid p))) = len (slot_directory p)
    /\ records (fst (delete sid p)) = records p
    /\ page_header (fst (delete sid p)) = page_header p
    /\ forall i, 0 <= i -> i <> sid ->
         select i (fst (delete sid p)) = select i p
  else delete sid p = (p, Raise PageError).
Proof.
  intros Hsid. destruct (sid <? len (slot_directory p)) eqn:Hlt.
  2:{ unfold delete. destruct (sid >=? len (slot_directory p)) eqn:E;
        [reflexivity | lia]. }
  assert (py_norm (slot_directory p) sid = Some (Z.to_nat sid)) as Hnorm
    by (apply py_norm_nonneg; lia).
  destruct (slot_directory p !! Z.to_nat sid) as [slot |] eqn:Hn.
  2:{ apply lookup_ge_None in Hn. unfold len in Hlt. lia. }
  assert (py_index (slot_directory p) sid = Ok slot) as Hidx
    by (unfold py_index; now rewrite Hnorm, Hn).
  rewrite (delete_in_range p sid slot Hidx). cbn [fst snd].
  unfold alter_slot. rewrite Hnorm. cbn [slot_directory records page_header].
  assert (len (alter (set_state DEAD) (Z.to_nat sid) (slot_directory p))
          = len (slot_directory p)) as Hlen
    by (unfold len; now rewrite length_alter).
  split; [reflexivity | split; [| split; [exact Hlen | split; [reflexivity |
    split; [reflexivity |]]]]].
  - now rewrite (select_altered p sid _ slot _ _ Hnorm Hn).
  - intros i Hi Hne. unfold select. cbn [slot_directory records]. rewrite Hlen.
    destruct (i >=? len (slot_directory p)) eqn:E; [reflexivity |].
    unfold py_index.
    rewrite (py_norm_same_length _ (slot_directory p)) by apply length_alter.
    rewrite py_norm_nonneg by lia.
    rewrite list_lookup_alter. case_decide; [lia | reflexivity].
Qed.

Lemma delete_sets_tombstone_witness :
  0 <= 1
  /\ snd (delete 1 two_rows) = Ok true
  /\ select 1 (fst (delete 1 two_rows)) = Ok [].
Proof.
  split; [lia |].
  pose proof (delete_sets_tombstone two_rows 1 ltac:(lia)) as H.
  change (1 <? len (slot_directory two_rows)) with true in H.
  split; [exact (proj1 H) | exact (proj1 (proj2 H))].
Defined.

Lemma serialize_fields_length (fields : list Z) (b : bytes) :
  serialize_fields fields = Ok b -> len b = 8 * len fields.
Proof.
  revert b. induction fields as [| v rest IH]; intros b; cbn [serialize_fields].
  - now intros [= <-].
  - unfold uint8_to_bytes. destruct ((0 <=? v) && (v <? 2 ^ 64)); [| discriminate].
    cbn [rbind]. destruct (serialize_fields rest) as [bs |]; [| discriminate].
    cbn [rbind]. intros [= <-]. specialize (IH bs eq_refl).
    unfold len in *. cbn [List.length]. lia.
Qed.

Lemma serialize_slots_length (slots : list Slot) (b : bytes) :
  serialize_slots slots = Ok b -> len b = Slot_size * len slots.
Proof.
  revert b. induction slots as [| s rest IH]; intros b; cbn [serialize_slots].
  - now intros [= <-].
  - destruct (Slot_serialize s) as [sb |] eqn:Hs; [| discriminate].
    cbn [rbind]. destruct (serialize_slots rest) as [bs |]; [| discriminate].
    cbn [rbind]. intros [= <-]. rewrite len_app, (IH bs eq_refl).
    apply serialize_fields_length in Hs. rewrite Hs.
    unfold Slot_size, len. cbn [List.length Slot_fields]. lia.
Qed.

(** X5: whatever the page, [serialize] either raises or returns exactly
    [PAGE_SIZE] bytes: its assertion rejects a header that [set_header] has
    not brought up to date with the slots and records. *)
Theorem serialize_length (p : Page) (buff : bytes) :
  serialize p = Ok buff -> len buff = PAGE_SIZE.
Proof.
  unfold serialize.
  destruct (PAGE_SIZE =? _) eqn:Hassert; [| discriminate]. cbn [negb].
  destruct (serialize_slots (slot_directory p)) as [sb |] eqn:Hs; [| discriminate].
  cbn [rbind].
  destruct (PageHeader_serialize (page_header p)) as [hb |] eqn:Hh; [| discriminate].
  cbn [rbind]. unfold zero_bytes.
  destruct (_ <? 0) eqn:Hneg; [discriminate |].
  cbn [rbind]. intros [= <-].
  apply serialize_slots_length in Hs. apply serialize_fields_length in Hh.
  rewrite !len_app, Hs, Hh.
  set (free := free_space_end (page_header p) - free_space_start (page_header p))
    in *.
  assert (len (replicate (Z.to_nat free) x00) = free) as ->
    by (unfold len; rewrite length_replicate; lia).
  apply Z.eqb_eq in Hassert.
  unfold total_slot_directory_size, total_record_size, PageHeader_size in Hassert.
  change (len (PageHeader_fields (page_header p))) with 5. lia.
Qed.

Lemma serialize_length_witness :
  exists buff, serialize (set_header 7 two_rows) = Ok buff
               /\ len buff = PAGE_SIZE.
Proof.
  destruct (serialize (set_header 7 two_rows)) as [buff |] eqn:E;
    [| vm_compute in E; discriminate].
  exists buff. split; [reflexivity |].
  exact (serialize_length (set_header 7 two_rows) buff E).
Defined.

End page_ops_props.

(** ** lru.py: what [put] and [get] guarantee *)

Module lru_cache_props.
Import lru pool_props.

Section Cache.
Context {K V : Type} `{Countable K}.

Lemma In_remove (k : K) (l : list (LRUNode K V)) (n : LRUNode K V) :
  In n (_remove k l) <-> In n l /\ key n <> k.
Proof.
  unfold _remove. rewrite filter_In. unfold has_key.
  rewrite negb_true_iff, bool_decide_eq_false. reflexivity.
Qed.

Lemma length_remove_le (k : K) (l : list (LRUNode K V)) :
  (List.length (_remove k l) <= List.length l)%nat.
Proof.
  unfold _remove. induction l as [| n l IH]; cbn; [lia |].
  destruct (negb (has_key k n)); cbn; lia.
Qed.

Lemma length_remove_lt (l : list (LRUNode K V)) (n : LRUNode K V) :
  In n l -> (List.length (_remove (key n) l) < List.length l)%nat.
Proof.
  unfold _remove. induction l as [| m l IH]; cbn; [intros [] |].
  intros [-> | Hin].
  - unfold has_key at 1. rewrite bool_decide_eq_true_2 by reflexivity. cbn.
    pose proof (length_remove_le (key n) l) as Hle. unfold _remove in Hle. lia.
  - specialize (IH Hin). destruct (negb (has_key (key n) m)); cbn; lia.
Qed.

(** The list after the first two steps of [put]: the old node of the key
    unlinked, the new one linked before the tail. *)
Definition relinked (k : K) (v : V) (c : LRUCache K V) : list (LRUNode K V) :=
  _add (mkLRUNode k v false)
       (if in_cache k c then _remove k (nodes c) else nodes c).

Lemma put_unfold (k : K) (v : V) (c : LRUCache K V) :
  put k v c
  = if len (relinked k v c) >? capacity c then
      match first_unpinned (relinked k v c) with
      | None => (mkLRUCache (capacity c) (_remove k (relinked k v c)) (evicted c),
                 Raise LRUError)
      | Some evicted_node =>
          (mkLRUCache (capacity c) (_remove (key evicted_node) (relinked k v c))
             (<[key evicted_node := value evicted_node]> (evicted c)), Ok tt)
      end
    else (mkLRUCache (capacity c) (relinked k v c) (evicted c), Ok tt).
Proof. reflexivity. Qed.

Lemma In_relinked (k : K) (v : V) (c : LRUCache K V) (n : LRUNode K V) :
  In n (relinked k v c) -> In n (nodes c) \/ n = mkLRUNode k v false.
Proof.
  unfold relinked, _add. rewrite in_app_iff. intros [Hin | [<- | []]]; [| now right].
  left. destruct (in_cache k c); [| exact Hin].
  now apply In_remove in Hin as [Hin _].
Qed.

Lemma find_relinked_other (k k' : K) (v : V) (c : LRUCache K V) :
  k' <> k -> List.find (has_key k') (relinked k v c) = cache_get k' c.
Proof.
  intros Hne. unfold relinked, _add. rewrite find_app_first.
  assert (List.find (has_key k')
            (if in_cache k c then _remove k (nodes c) else nodes c)
          = cache_get k' c) as ->.
  { destruct (in_cache k c); [now apply find_remove_other | reflexivity]. }
  destruct (cache_get k' c); [reflexivity |].
  cbn. unfold has_key. cbn. now rewrite bool_decide_eq_false_2 by congruence.
Qed.

Lemma find_relinked_self (k : K) (v : V) (c : LRUCache K V) :
  List.find (has_key k) (relinked k v c) = Some (mkLRUNode k v false).
Proof.
  unfold relinked, _add. rewrite find_app_first.
  assert (List.find (has_key k)
            (if in_cache k c then _remove k (nodes c) else nodes c) = None) as ->.
  { destruct (in_cache k c) eqn:E; [apply find_remove_self |].
    unfold in_cache, cache_get in E.
    now destruct (List.find (has_key k) (nodes c)). }
  cbn. unfold has_key. cbn. now rewrite bool_decide_eq_true_2 by reflexivity.
Qed.

(** X6: [put] never raises, and a cache that holds at most [capacity]
    entries still does after any [put]: whenever the new entry makes it
    overflow, one entry is evicted. *)
Theorem put_within_capacity (c : LRUCache K V) (k : K) (v : V) :
  len (nodes c) <= capacity c ->
  snd (put k v c) = Ok tt
  /\ len (nodes (fst (put k v c))) <= capacity c
  /\ capacity (fst (put k v c)) = capacity c.
Proof.
  intros Hcap. rewrite put_unfold.
  assert (len (relinked k v c) <= len (nodes c) + 1) as Hlen.
  { unfold relinked, _add. rewrite len_app. change (len [_]) with 1.
    destruct (in_cache k c); [| lia].
    pose proof (length_remove_le k (nodes c)). unfold len. lia. }
  destruct (len (relinked k v c) >? capacity c) eqn:Hover.
  - destruct (first_unpinned (relinked k v c)) as [victim |] eqn:Hv.
    + cbn [fst snd nodes capacity]. split; [reflexivity | split; [| reflexivity]].
      apply find_some in Hv as [Hin _].
      pose proof (length_remove_lt _ _ Hin). unfold len in *. lia.
    + exfalso. unfold first_unpinned in Hv.
      assert (In (mkLRUNode k v false) (relinked k v c)) as Hin
        by (unfold relinked, _add; apply in_app_iff; right; now left).
      pose proof (find_none _ _ Hv _ Hin) as Hf. discriminate.
  - cbn [fst snd nodes capacity]. split; [reflexivity | split; [lia | reflexivity]].
Qed.

(** A pinned entry is never the victim: when every node of key [k] is
    pinned, a [put] of another key leaves what the cache holds under [k]
    untouched, and the nodes of key [k] stay pinned. *)
Definition all_pinned (k : K) (c : LRUCache K V) : bool :=
  forallb (fun n => negb (has_key k n) || pinned n) (nodes c).

Lemma put_keeps_pinned (c : LRUCache K V) (k k' : K) (v : V) :
  k' <> k ->
  all_pinned k c = true ->
  cache_get k (fst (put k' v c)) = cache_get k c
  /\ all_pinned k (fst (put k' v c)) = true.
Proof.
  unfold all_pinned. intros Hne Hpinned. rewrite forallb_forall in Hpinned.
  assert (forall n, In n (relinked k' v c) ->
                    negb (has_key k n) || pinned n = true) as Hrel.
  { intros n Hn. apply In_relinked in Hn as [Hn | ->]; [now apply Hpinned |].
    unfold has_key. cbn. now rewrite bool_decide_eq_false_2 by congruence. }
  assert (forall kv n, In n (_remove kv (relinked k' v c)) ->
                       negb (has_key k n) || pinned n = true) as Hrem.
  { intros kv n Hn. apply In_remove in Hn as [Hn _]. now apply Hrel. }
  rewrite put_unfold.
  assert (List.find (has_key k) (relinked k' v c) = cache_get k c) as Hfind
    by (apply find_relinked_other; congruence).
  destruct (len (relinked k' v c) >? capacity c).
  - destruct (first_unpinned (relinked k' v c)) as [victim |] eqn:Hv;
      cbn [fst]; unfold cache_get at 1; cbn [nodes];
      (split; [| apply forallb_forall; now apply Hrem]).
    + rewrite find_remove_other; [exact Hfind |].
      apply find_some in Hv as [Hin Hun].
      apply In_relinked in Hin as [Hin | ->]; [| cbn; congruence].
      specialize (Hpinned victim Hin). intros Hk.
      unfold has_key in Hpinned. rewrite bool_decide_eq_true_2 in Hpinned
        by congruence.
      cbn in Hpinned. rewrite Hpinned in Hun. discriminate.
    + rewrite find_remove_other by congruence. exact Hfind.
  - cbn [fst nodes]. split; [exact Hfind |]. apply forallb_forall. exact Hrel.
Qed.

(** A run of [put]s. *)
Definition put_all (kvs : list (K * V)) (c : LRUCache K V) : LRUCache K V :=
  fold_left (fun c0 kv => fst (put (fst kv) (snd kv) c0)) kvs c.

(** X7: [pin] protects an entry from eviction.  [pin] of a cached key
    returns normally and keeps its value; after it, no sequence of [put]s of
    other keys, however long, evicts the entry or changes it.  [pin] of a
    key that is not cached raises LRUError and changes nothing. *)
Theorem pin_protects_from_eviction (c : LRUCache K V) (k : K)
    (kvs : list (K * V)) :
  forallb (fun kv => negb (bool_decide (fst kv = k))) kvs = true ->
  if in_cache k c then
    snd (pin k c) = Ok tt
    /\ option_map value (cache_get k (fst (pin k c)))
       = option_map value (cache_get k c)
    /\ cache_get k (put_all kvs (fst (pin k c))) = cache_get k (fst (pin k c))
  else pin k c = (c, Raise LRUError).
Proof.
  intros Hother. unfold pin. destruct (in_cache k c) eqn:Hin; [| reflexivity].
  cbn [fst snd]. split; [reflexivity |].
  set (c1 := mkLRUCache (capacity c) (set_pinned true k (nodes c)) (evicted c)).
  split.
  { unfold cache_get, c1, set_pinned. cbn [nodes].
    rewrite find_map_same_key by (intros n; now destruct (has_key k n)).
    destruct (List.find (has_key k) (nodes c)) as [n |]; [| reflexivity].
    cbn. now destruct (has_key k n). }
  assert (all_pinned k c1 = true) as Hpinned.
  { unfold all_pinned, c1, set_pinned. cbn [nodes].
    apply forallb_forall. intros n Hn. apply in_map_iff in Hn as (n0 & <- & _).
    destruct (has_key k n0) eqn:Hk; cbn.
    - apply orb_true_r.
    - now rewrite Hk. }
  revert Hpinned. generalize c1. clear c1 Hin.
  induction kvs as [| [k' v'] kvs IH]; intros c1 Hpinned; [reflexivity |].
  cbn [forallb] in Hother. apply andb_true_iff in Hother as [Hk' Hother].
  cbn [fst] in Hk'. apply negb_true_iff, bool_decide_eq_false in Hk'.
  destruct (put_keeps_pinned c1 k k' v' Hk' Hpinned) as [Hsame Hpinned'].
  unfold put_all in *. cbn [fold_left fst snd].
  rewrite (IH Hother _ Hpinned'). exact Hsame.
Qed.

(** When the cache has room, or holds an unpinned entry of another key to
    evict, [put] leaves the new entry cached. *)
Definition has_room (k : K) (c : LRUCache K V) : bool :=
  (len (nodes c) <? capacity c)
  || existsb (fun n => negb (has_key k n) && negb (pinned n)) (nodes c).

Lemma put_caches_new (c : LRUCache K V) (k : K) (v : V) :
  has_room k c = true ->
  cache_get k (fst (put k v c)) = Some (mkLRUNode k v false).
Proof.
  unfold has_room. intros Hroom.
  rewrite put_unfold. pose proof (find_relinked_self k v c) as Hself.
  destruct (len (relinked k v c) >? capacity c) eqn:Hover; [| exact Hself].
  apply orb_true_iff in Hroom as [Hroom | Hroom].
  { exfalso. unfold relinked, _add in Hover. rewrite len_app in Hover.
    change (len [_]) with 1 in Hover.
    assert (len (if in_cache k c then _remove k (nodes c) else nodes c)
            <= len (nodes c)); [| lia].
    destruct (in_cache k c); [| lia].
    pose proof (length_remove_le k (nodes c)). unfold len. lia. }
  apply existsb_exists in Hroom as (n & Hin & Hn).
  apply andb_true_iff in Hn as [Hkey Hun].
  assert (In n (if in_cache k c then _remove k (nodes c) else nodes c)) as Hin1.
  { destruct (in_cache k c); [| exact Hin]. apply In_remove. split; [exact Hin |].
    unfold has_key in Hkey. now apply negb_true_iff, bool_decide_eq_false in Hkey. }
  destruct (first_unpinned (relinked k v c)) as [victim |] eqn:Hv.
  2:{ exfalso. unfold first_unpinned in Hv.
      assert (In n (relinked k v c)) as Hin2
        by (unfold relinked, _add; apply in_app_iff; now left).
      pose proof (find_none _ _ Hv _ Hin2) as Hf. congruence. }
  cbn [fst]. unfold cache_get. cbn [nodes].
  rewrite find_remove_other; [exact Hself |].
  unfold first_unpinned, relinked, _add in Hv. rewrite find_app_first in Hv.
  destruct (List.find (fun n0 => negb (pinned n0))
              (if in_cache k c then _remove k (nodes c) else nodes c))
    as [first |] eqn:Hfirst.
  - injection Hv as <-. apply find_some in Hfirst as [Hf _].
    destruct (in_cache k c) eqn:Ein.
    + apply In_remove in Hf as [_ Hf]. congruence.
    + unfold in_cache, cache_get in Ein.
      destruct (List.find (has_key k) (nodes c)) eqn:Ek; [discriminate |].
      pose proof (find_none _ _ Ek first Hf) as Hk.
      unfold has_key in Hk. apply bool_decide_eq_false in Hk. congruence.
  - exfalso. pose proof (find_none _ _ Hfirst n Hin1) as Hf. congruence.
Qed.

(** X8: [put] followed by [get] of the same key returns the value, as long
    as the cache has room or holds an unpinned entry of another key to
    evict; the [get] leaves the entry cached. *)
Theorem put_then_get (c : LRUCache K V) (k : K) (v : V) :
  has_room k c = true ->
  snd (get k (fst (put k v c))) = Ok (Some v)
  /\ in_cache k (fst (get k (fst (put k v c)))) = true.
Proof.
  intros Hroom. pose proof (put_caches_new c k v Hroom) as Hget.
  destruct (get k (fst (put k v c))) as [c' r] eqn:Hrun.
  apply get_lookup in Hrun as [-> Hsame]. rewrite Hget. cbn [option_map snd fst].
  split; [reflexivity |].
  specialize (Hsame k). rewrite Hget in Hsame. unfold in_cache.
  destruct (cache_get k c'); [reflexivity | discriminate].
Qed.

(** X9: the victim is the least recently used entry that is not pinned: a
    [put] of a new key into a full cache unlinks the first unpinned node from
    the head, keeps its value in [evicted], and caches the new entry. *)
Theorem put_evicts_least_recent (c : LRUCache K V) (k : K) (v : V)
    (victim : LRUNode K V) :
  in_cache k c = false ->
  first_unpinned (nodes c) = Some victim ->
  capacity c <= len (nodes c) ->
  evicted (fst (put k v c)) !! key victim = Some (value victim)
  /\ cache_get (key victim) (fst (put k v c)) = None
  /\ cache_get k (fst (put k v c)) = Some (mkLRUNode k v false).
Proof.
  intros Hnew Hv Hfull. rewrite put_unfold.
  pose proof (find_relinked_self k v c) as Hself.
  assert (first_unpinned (relinked k v c) = Some victim) as Hv2.
  { unfold first_unpinned, relinked, _add in *. rewrite Hnew, find_app_first.
    now rewrite Hv. }
  assert (len (relinked k v c) = len (nodes c) + 1) as Hlen.
  { unfold relinked, _add. rewrite Hnew, len_app. reflexivity. }
  destruct (len (relinked k v c) >? capacity c) eqn:Hover; [| lia].
  rewrite Hv2. cbn [fst evicted]. unfold cache_get. cbn [nodes].
  split; [apply lookup_insert_eq | split; [apply find_remove_self |]].
  rewrite find_remove_other; [exact Hself |].
  apply find_some in Hv as [Hin _].
  unfold in_cache, cache_get in Hnew.
  destruct (List.find (has_key k) (nodes c)) eqn:Ek; [discriminate |].
  pose proof (find_none _ _ Ek victim Hin) as Hk.
  unfold has_key in Hk. apply bool_decide_eq_false in Hk. congruence.
Qed.

End Cache.

(** A cache of capacity 3 holding keys 1, 2, 3, the first one pinned. *)
Definition three_entries : LRUCache Z Z :=
  fst (pin 1 (fst (put 3 30 (fst (put 2 20 (fst (put 1 10 (LRUCache_new 3)))))))).

Lemma put_within_capacity_witness :
  len (nodes three_entries) <= capacity three_entries
  /\ snd (put 4 40 three_entries) = Ok tt
  /\ len (nodes (fst (put 4 40 three_entries))) <= capacity three_entries.
Proof.
  split; [vm_compute; discriminate |].
  destruct (put_within_capacity three_entries 4 40) as (Hok & Hlen & _).
  - vm_compute. discriminate.
  - split; assumption.
Defined.

(** Keys 1, 2 and 3 cached and nothing pinned. *)
Definition unpinned_entries : LRUCache Z Z :=
  fst (put 3 30 (fst (put 2 20 (fst (put 1 10 (LRUCache_new 3)))))).

Lemma pin_protects_from_eviction_witness :
  cache_get 1 (put_all [(4, 40); (5, 50); (6, 60); (7, 70)]
                 (fst (pin 1 unpinned_entries)))
  = cache_get 1 (fst (pin 1 unpinned_entries)).
Proof.
  pose proof (pin_protects_from_eviction unpinned_entries 1
                [(4, 40); (5, 50); (6, 60); (7, 70)] eq_refl) as H.
  change (in_cache 1 unpinned_entries) with true in H.
  exact (proj2 (proj2 H)).
Defined.

Lemma put_then_get_witness :
  snd (get 4 (fst (put 4 40 three_entries))) = Ok (Some 40).
Proof. exact (proj1 (put_then_get three_entries 4 40 eq_refl)). Defined.

Lemma put_evicts_least_recent_witness :
  evicted (fst (put 4 40 three_entries)) !! 2 = Some 20
  /\ cache_get 2 (fst (put 4 40 three_entries)) = None.
Proof.
  destruct (put_evicts_least_recent three_entries 4 40 (mkLRUNode 2 20 false))
    as (Hev & Hgone & _).
  - reflexivity.
  - reflexivity.
  - vm_compute. discriminate.
  - split; assumption.
Defined.

End lru_cache_props.

(** ** transaction/redo.py: lsns, buffering and what reaches the file *)

Module redo_log_props.
Import recovery_props.

Section Log.
Context `{External}.

(** The flushed position and the buffered records add up to the write
    position. *)
Definition lsn_consistent (m : redo.RedoLogManager) : Prop :=
  redo.flush_lsn m + redo.total_len (redo.log_buffer m) = redo.write_lsn m.

(** X10: [write] returns the lsn of the end of the record, which is
    strictly beyond every lsn returned before, and [write] and [flush] keep
    [flush_lsn] plus the buffered bytes equal to [write_lsn]. *)
Theorem write_advances_lsn (m : redo.RedoLogManager) (r : redo.RedoRecord) :
  lsn_consistent m ->
  snd (redo.write r m) = Ok (redo.write_lsn m + redo.RedoRecord_len r)
  /\ redo.write_lsn (fst (redo.write r m))
     = redo.write_lsn m + redo.RedoRecord_len r
  /\ redo.write_lsn m < redo.write_lsn (fst (redo.write r m))
  /\ lsn_consistent (fst (redo.write r m))
  /\ lsn_consistent (fst (redo.flush m))
  /\ redo.flush_lsn (fst (redo.flush m)) = redo.write_lsn m.
Proof.
  unfold lsn_consistent. intros Hinv.
  pose proof (RedoRecord_len_pos r) as Hpos.
  unfold redo.write, redo.flush.
  cbn [redo.log_buffer redo.write_lsn redo.flush_lsn redo.log_file redo.action].
  destruct ((redo.action r =? redo.COMMIT) || _);
    cbn [fst snd redo.log_buffer redo.write_lsn redo.flush_lsn];
    rewrite ?total_len_app, ?total_len_cons; cbn [redo.total_len foldr];
    repeat split; lia.
Qed.

(** X11: a record reaches the log file when it is a COMMIT or when it is
    the eleventh record in the buffer, and then everything buffered is
    appended to the file in write order and [replay] returns it; any other
    record only joins the buffer and the file is left as it was. *)
Theorem write_flushes_on_commit_or_full (m : redo.RedoLogManager)
    (r : redo.RedoRecord) :
  let m' := fst (redo.write r m) in
  if (redo.action r =? redo.COMMIT)
     || (redo.REDOLOG_BUFFER_SIZE <=? len (redo.log_buffer m))
  then redo.log_buffer m' = []
       /\ redo.log_file m'
          = Some (default [] (redo.log_file m) ++ redo.log_buffer m ++ [r])
       /\ redo.replay m' 0
          = Ok (default [] (redo.log_file m) ++ redo.log_buffer m ++ [r])
  else redo.log_buffer m' = redo.log_buffer m ++ [r]
       /\ redo.log_file m' = redo.log_file m
       /\ redo.replay m' 0 = redo.replay m 0.
Proof.
  cbn zeta. unfold redo.write. cbn [redo.log_buffer].
  rewrite len_app. change (len [r]) with 1.
  replace (len (redo.log_buffer m) + 1 >? redo.REDOLOG_BUFFER_SIZE)
    with (redo.REDOLOG_BUFFER_SIZE <=? len (redo.log_buffer m))
    by (unfold redo.REDOLOG_BUFFER_SIZE; lia).
  destruct ((redo.action r =? redo.COMMIT) || _).
  - unfold redo.flush, redo.replay.
    cbn [fst redo.log_buffer redo.log_file]. change (0 <? 0) with false.
    rewrite frames_from_start.
    destruct (redo.log_file m); cbn [default]; repeat split; reflexivity.
  - unfold redo.replay. cbn [fst redo.log_buffer redo.log_file].
    repeat split; reflexivity.
Qed.

(** X12: where [recovery] resumes.  The first loop of [recovery] finds the
    byte position just after the last CHECKPOINT record, and [replay] from
    that position returns exactly the records written after it; without any
    CHECKPOINT the position is 0 and the whole file is replayed. *)
Theorem replay_from_last_checkpoint (m : redo.RedoLogManager)
    (before after : list redo.RedoRecord) :
  redo.log_file m = Some (before ++ after) ->
  ends_with_checkpoint before -> no_checkpoint after ->
  transaction.find_checkpoint (before ++ after) = redo.total_len before
  /\ redo.replay m (transaction.find_checkpoint (before ++ after)) = Ok after.
Proof.
  intros Hfile Hb Ha. rewrite find_checkpoint_split by assumption.
  split; [reflexivity |]. unfold redo.replay. rewrite Hfile.
  pose proof (total_len_nonneg before).
  destruct (redo.total_len before <? 0) eqn:E; [lia |].
  apply frames_from_prefix.
Qed.

End Log.

Lemma write_advances_lsn_witness :
  redo.write_lsn
    (fst (@redo.write sample.pickle
            (redo.mkRedoRecord 1 redo.BEGIN None None [])
            redo.RedoLogManager_new))
  = 0 + @redo.RedoRecord_len sample.pickle
          (redo.mkRedoRecord 1 redo.BEGIN None None []).
Proof.
  refine (proj1 (proj2 (@write_advances_lsn sample.pickle
            redo.RedoLogManager_new
            (redo.mkRedoRecord 1 redo.BEGIN None None []) _))).
  reflexivity.
Defined.

Lemma replay_from_last_checkpoint_witness :
  @redo.replay sample.pickle
    (redo.mkRedoLogManager (Some commit_after_checkpoint) [] 0 0)
    (@transaction.find_checkpoint sample.pickle commit_after_checkpoint)
  = Ok [redo.mkRedoRecord 7 redo.COMMIT None None []].
Proof.
  refine (proj2 (@replay_from_last_checkpoint sample.pickle
            (redo.mkRedoLogManager (Some commit_after_checkpoint) [] 0 0)
            [redo.mkRedoRecord 7 redo.BEGIN None None [];
             redo.mkRedoRecord (-1) redo.CHECKPOINT None None []]
            [redo.mkRedoRecord 7 redo.COMMIT None None []] _ _ _)).
  - reflexivity.
  - right. exists [redo.mkRedoRecord 7 redo.BEGIN None None []],
      (redo.mkRedoRecord (-1) redo.CHECKPOINT None None []).
    split; reflexivity.
  - repeat constructor; discriminate.
Defined.

End redo_log_props.

(** ** transaction/undo.py: what a transaction leaves in its undo file *)

Module undo_log_props.

Lemma writes_append (xid0 : Z) (rs l : list undo.UndoRecord)
    (m : undo.UndoLogManager) :
  Forall (fun r => undo.xid r = xid0) rs ->
  undo.active_transactions m !! xid0 = Some l ->
  for_each rs undo.write m
  = (undo.mkUndoLogManager (<[xid0 := l ++ rs]> (undo.active_transactions m))
       (undo.files m), Ok tt).
Proof.
  revert l m. induction rs as [| r rs IH]; intros l m Hall Hl.
  - cbn. rewrite app_nil_r, insert_id by assumption. now destruct m.
  - inversion Hall as [| ? ? Hr Hrs]; subst. cbn [for_each].
    unfold undo.write at 1. rewrite Hl.
    rewrite (IH (l ++ [r])); [| assumption | apply lookup_insert_eq].
    cbn [undo.active_transactions undo.files].
    now rewrite insert_insert_eq, <- app_assoc.
Qed.

(** X13: the undo file of a transaction.  After [start_transaction], any
    number of [write]s for that xid and [commit_transaction], the file
    [undo/<xid>] holds, after what it held before, BEGIN, the records in
    write order and COMMIT; [parse_record] yields them last first; the
    transaction is no longer active, so a later [write] for it fails its
    assertion. *)
Theorem commit_leaves_undo_file (m : undo.UndoLogManager) (xid0 : Z)
    (rs : list undo.UndoRecord) :
  Forall (fun r => undo.xid r = xid0) rs ->
  let started := fst (undo.start_transaction xid0 m) in
  let written := fst (for_each rs undo.write started) in
  let done := undo.commit_transaction xid0 written in
  snd done = Ok tt
  /\ undo.parse_record xid0 (fst done)
     = Ok (rev (default [] (undo.files m !! xid0)
                ++ undo.mkUndoRecord xid0 undo.BEGIN None None (undo.Bytes [])
                   :: rs
                ++ [undo.mkUndoRecord xid0 undo.COMMIT None None (undo.Bytes [])]))
  /\ undo.active_transactions (fst done) !! xid0 = None
  /\ forall r, undo.xid r = xid0 ->
               snd (undo.write r (fst done)) = Raise AssertionError.
Proof.
  intros Hall started written done.
  assert (undo.active_transactions started !! xid0
          = Some [undo.mkUndoRecord xid0 undo.BEGIN None None (undo.Bytes [])])
    as Hstart by apply lookup_insert_eq.
  subst done written.
  rewrite (writes_append xid0 rs _ started Hall Hstart).
  unfold undo.commit_transaction, bind, undo.write, undo.flush, undo.forget.
  cbn [undo.active_transactions undo.files undo.xid fst snd].
  repeat (rewrite lookup_insert_eq;
          cbn [fst snd undo.active_transactions undo.files]).
  unfold undo.parse_record. cbn [undo.files].
  rewrite lookup_insert_eq.
  split; [reflexivity | split; [| split; [apply lookup_delete_eq |]]].
  - subst started. cbn [undo.start_transaction fst undo.files app].
    rewrite <- ?app_assoc. reflexivity.
  - intros r Hr. unfold undo.write. cbn [undo.active_transactions].
    now rewrite Hr, lookup_delete_eq.
Qed.

Lemma commit_leaves_undo_file_witness :
  undo.parse_record 5
    (fst (undo.commit_transaction 5
       (fst (for_each
               [undo.mkUndoRecord 5 undo.TABLE_DELETE (Some "t"%string)
                  (Some (0, 0)) (undo.Bytes [])]
               undo.write
               (fst (undo.start_transaction 5 undo.UndoLogManager_new))))))
  = Ok [undo.mkUndoRecord 5 undo.COMMIT None None (undo.Bytes []);
        undo.mkUndoRecord 5 undo.TABLE_DELETE (Some "t"%string) (Some (0, 0))
          (undo.Bytes []);
        undo.mkUndoRecord 5 undo.BEGIN None None (undo.Bytes [])].
Proof.
  refine (proj1 (proj2 (commit_leaves_undo_file undo.UndoLogManager_new 5
            [undo.mkUndoRecord 5 undo.TABLE_DELETE (Some "t"%string)
               (Some (0, 0)) (undo.Bytes [])] _))).
  repeat constructor.
Defined.

End undo_log_props.

(** ** lock/lock.py: what the lock table never allows *)

Module lock_table_props.
Import lock lock_props.

Section Table.
Context {R : Type} `{Countable R}.

(** What threads do to the lock table under the mutex: one try of
    [_acquire_lock], or a [release_lock]. *)
Inductive lock_op : Type :=
| Try (resource : R) (xid : Z) (md : mode)
| Release (resource : R) (xid : Z).

Definition apply_op (lk : gmap R lock_entry) (o : lock_op) : gmap R lock_entry :=
  match o with
  | Try r xid md => fst (_acquire_lock r xid md lk)
  | Release r xid => locks (fst (release_lock r xid (mkLockManager lk [])))
  end.

Definition run_lock_ops (ops : list lock_op) : gmap R lock_entry :=
  fold_left apply_op ops ∅.

(** An entry has a holder, and an entry in mode ['x'] is held by one
    transaction only (as often as it asked). *)
Definition single_owner (e : lock_entry) : Prop :=
  holders e <> []
  /\ (lock_mode e = x -> forall h h', h ∈ holders e -> h' ∈ holders e -> h = h').

Definition exclusive (lk : gmap R lock_entry) : Prop :=
  forall r e, lk !! r = Some e -> single_owner e.

Lemma exclusive_insert (lk : gmap R lock_entry) (r : R) (e : lock_entry) :
  exclusive lk -> single_owner e -> exclusive (<[r := e]> lk).
Proof.
  intros Hlk He r' e' Hr'. destruct (decide (r = r')) as [<- | Hne].
  - rewrite lookup_insert_eq in Hr'. now injection Hr' as <-.
  - rewrite lookup_insert_ne in Hr' by assumption. eapply Hlk, Hr'.
Qed.

Lemma single_owner_again (md : mode) (held_by : list Z) (xid : Z) :
  if_only_duplicated_elements held_by xid = true ->
  single_owner (mk_lock_entry md (held_by ++ [xid])).
Proof.
  intros Hsole. apply if_only_duplicated_elements_spec in Hsole as [_ Hall].
  split; cbn [holders lock_mode].
  - now destruct held_by.
  - intros _ h h' Hh Hh'.
    assert (forall y, y ∈ held_by ++ [xid] -> y = xid) as Hxid.
    { intros y Hy. apply elem_of_app in Hy as [Hy | Hy]; [now apply Hall |].
      now apply list_elem_of_singleton in Hy. }
    rewrite (Hxid h Hh), (Hxid h' Hh'). reflexivity.
Qed.

Lemma remove_first_subset (xid h : Z) (l : list Z) :
  h ∈ remove_first xid l -> h ∈ l.
Proof.
  induction l as [| a l IH]; cbn; [trivial |].
  destruct (a =? xid); intros Hh; [now right |].
  apply elem_of_cons in Hh as [-> | Hh]; [now left | right; now apply IH].
Qed.

Lemma exclusive_step (lk : gmap R lock_entry) (o : lock_op) :
  exclusive lk -> exclusive (apply_op lk o).
Proof.
  intros Hlk. destruct o as [r xid md | r xid]; cbn [apply_op].
  - unfold _acquire_lock. destruct (lk !! r) as [[held held_by] |] eqn:Er.
    + destruct (Hlk r _ Er) as [Hne Hone]. cbn [holders lock_mode] in *.
      destruct held, md; cbn [mode_eqb andb fst];
        try destruct (if_only_duplicated_elements held_by xid) eqn:Hsole;
        cbn [fst]; try assumption;
        apply exclusive_insert; try assumption;
        try (now apply single_owner_again).
      split; cbn [holders lock_mode]; [now destruct held_by | discriminate].
    + cbn [fst]. apply exclusive_insert; [assumption |].
      split; cbn [holders lock_mode]; [discriminate |].
      intros _ h h' Hh Hh'. apply list_elem_of_singleton in Hh, Hh'. congruence.
  - unfold release_lock. cbn [locks].
    destruct (lk !! r) as [e |] eqn:Er; [| exact Hlk].
    destruct (bool_decide (xid ∈ holders e)); [| exact Hlk].
    destruct (remove_first xid (holders e)) as [| h0 rest] eqn:Hrest; cbn [fst locks].
    + intros r' e' Hr'. destruct (decide (r = r')) as [<- | Hne].
      * now rewrite lookup_delete_eq in Hr'.
      * rewrite lookup_delete_ne in Hr' by assumption. eapply Hlk, Hr'.
    + apply exclusive_insert; [assumption |].
      destruct (Hlk r e Er) as [_ Hone].
      split; cbn [holders lock_mode]; [discriminate |].
      intros Hx h h' Hh Hh'. rewrite <- Hrest in Hh, Hh'.
      apply remove_first_subset in Hh, Hh'. now apply Hone.
Qed.

(** X14: mutual exclusion.  Whatever tries and releases were made, by any
    transactions in any order, every entry of the lock table has a holder,
    and an entry in mode ['x'] is held by a single transaction. *)
Theorem exclusive_lock_has_one_owner (ops : list lock_op) :
  exclusive (run_lock_ops ops).
Proof.
  unfold run_lock_ops.
  assert (exclusive (∅ : gmap R lock_entry)) as Hstart
    by (intros r e Hr; now rewrite lookup_empty in Hr).
  revert Hstart. generalize (∅ : gmap R lock_entry).
  induction ops as [| o ops IH]; intros lk Hlk; cbn [fold_left]; [exact Hlk |].
  apply IH. now apply exclusive_step.
Qed.

(** X15: holders are counted.  On a free resource a granted lock followed
    by its release gives the table back; after an upgrade from ['s'] to
    ['x'] the transaction is listed twice, one release leaves the resource
    locked in mode ['x'], and only the second one frees it. *)
Theorem releases_are_counted (lk : gmap R lock_entry) (r : R) (xid : Z)
    (md : mode) :
  lk !! r = None ->
  let once := fst (_acquire_lock r xid md lk) in
  let upgraded :=
    fst (_acquire_lock r xid x (fst (_acquire_lock r xid s lk))) in
  let release from := locks (fst (release_lock r xid (mkLockManager from []))) in
  snd (_acquire_lock r xid md lk) = true
  /\ release once = lk
  /\ upgraded !! r = Some (mk_lock_entry x [xid; xid])
  /\ release upgraded !! r = Some (mk_lock_entry x [xid])
  /\ release (release upgraded) = lk.
Proof.
  intros Hfree once upgraded release. subst once upgraded release.
  assert (if_only_duplicated_elements [xid] xid = true) as Hsole.
  { apply if_only_duplicated_elements_spec. split; [discriminate |].
    intros h Hh. now apply list_elem_of_singleton in Hh. }
  unfold _acquire_lock at 1 2. rewrite Hfree. cbn [fst snd].
  split; [reflexivity |].
  assert (forall e0, holders e0 = [xid] ->
            locks (fst (release_lock r xid (mkLockManager (<[r := e0]> lk) [])))
            = lk) as Hrelease.
  { intros e0 He0. unfold release_lock. cbn [locks].
    rewrite lookup_insert_eq, He0.
    rewrite bool_decide_eq_true_2 by (now left).
    cbn [remove_first]. rewrite Z.eqb_refl. cbn [fst locks].
    now apply delete_insert_id. }
  split; [now apply Hrelease |].
  unfold _acquire_lock. rewrite Hfree. cbn [fst].
  rewrite lookup_insert_eq. cbn [lock_mode holders mode_eqb andb].
  rewrite Hsole. cbn [fst app].
  rewrite insert_insert_eq.
  split; [apply lookup_insert_eq |].
  assert (locks (fst (release_lock r xid
            (mkLockManager (<[r := mk_lock_entry x [xid; xid]]> lk) [])))
          = <[r := mk_lock_entry x [xid]]> lk) as ->.
  { unfold release_lock. cbn [locks].
    rewrite lookup_insert_eq. cbn [holders lock_mode].
    rewrite bool_decide_eq_true_2 by (now left).
    cbn [remove_first]. rewrite Z.eqb_refl. cbn [fst locks].
    apply insert_insert_eq. }
  split; [apply lookup_insert_eq | now apply Hrelease].
Qed.

End Table.

Lemma releases_are_counted_witness :
  locks (fst (release_lock "r"%string 1
     (mkLockManager
        (fst (_acquire_lock "r"%string 1 x
                (fst (_acquire_lock "r"%string 1 s ∅)))) [])))
  !! "r"%string
  = Some (mk_lock_entry x [1]).
Proof.
  refine (proj1 (proj2 (proj2 (proj2
    (releases_are_counted (∅ : gmap string lock_entry) "r"%string 1 s _))))).
  reflexivity.
Defined.

End lock_table_props.

(** ** planner.py: which index [implement_scan] may pick *)

Module planner_choice_props.
Import planner planner_props.

Lemma shortest_In (first : CatalogIndexForm) (l : list CatalogIndexForm) :
  In first l -> In (shortest first l) l.
Proof.
  unfold shortest. intros Hfirst.
  assert (forall l0 acc, In acc l -> (forall c, In c l0 -> In c l) ->
            In (fold_left
                  (fun shortest_index c =>
                     if len (index_columns c) <? len (index_columns shortest_index)
                     then c else shortest_index) l0 acc) l) as Hfold.
  { induction l0 as [| c l0 IH]; intros acc Hacc Hsub; cbn [fold_left];
      [exact Hacc |].
    apply IH; [| intros c' Hc'; apply Hsub; now right].
    destruct (_ <? _); [apply Hsub; now left | exact Hacc]. }
  apply Hfold; [exact Hfirst | trivial].
Qed.

(** The index scans [implement_scan] can return, with their index. *)
Definition scan_index (p : physical_scan) : option string :=
  match p with
  | TableScan _ _ => None
  | IndexScan i _ => Some i
  | CoveredIndexScan i _ => Some i
  end.

Definition scan_condition (p : physical_scan) : option Condition :=
  match p with
  | TableScan _ c => c
  | IndexScan _ c => c
  | CoveredIndexScan _ c => c
  end.

(** X16: [implement_scan] never invents an access path.  The scan it
    returns carries the node's condition unchanged; an index scan names an
    index of the catalog that is on the scanned table, the condition has
    exactly one column operand, and every column of that index has that
    operand's column name; a covered index scan is chosen only for an index
    with as many columns as the table scan lists. *)
Theorem implement_scan_sound (catalog_index : list CatalogIndexForm)
    (node : ScanOperator) (p : physical_scan) :
  implement_scan catalog_index node = Ok p ->
  scan_condition p = condition node
  /\ forall i, scan_index p = Some i ->
       exists form cond cc,
         In form catalog_index
         /\ index_name form = i
         /\ index_table_name form = table_name node
         /\ condition node = Some cond
         /\ is_table_column (left cond) ++ is_table_column (right cond) = [cc]
         /\ forallb (String.eqb (column_name cc)) (index_columns form) = true
         /\ (forall c, p = CoveredIndexScan i c ->
               len (columns node) = len (index_columns form)).
Proof.
  unfold implement_scan.
  set (results := List.filter _ catalog_index).
  assert (forall f, In f results ->
            In f catalog_index /\ index_table_name f = table_name node) as Hres.
  { intros f Hf. apply filter_In in Hf as [Hin Ht].
    split; [exact Hin | now apply String.eqb_eq]. }
  destruct results as [| r0 rest] eqn:Eres.
  { intros [= <-]. split; [reflexivity | discriminate]. }
  destruct (condition node) as [cond |] eqn:Econd.
  2:{ intros [= <-]. split; [reflexivity | discriminate]. }
  set (ccs := is_table_column (left cond) ++ is_table_column (right cond)).
  destruct (len ccs >=? 2) eqn:E2; [discriminate |].
  destruct (len ccs =? 0) eqn:E0.
  { intros [= <-]. split; [reflexivity | discriminate]. }
  assert (exists cc, ccs = [cc]) as [cc Hcc].
  { destruct ccs as [| cc [| ? ?]]; [discriminate | eauto |].
    exfalso. rewrite Z.geb_leb in E2. apply Z.leb_gt in E2.
    unfold len in E2. cbn [List.length] in E2. lia. }
  rewrite Hcc.
  set (candidates := List.filter (index_matched [cc]) (r0 :: rest)).
  assert (forall f, In f candidates ->
            In f catalog_index /\ index_table_name f = table_name node
            /\ forallb (String.eqb (column_name cc)) (index_columns f) = true)
    as Hcand.
  { intros f Hf. apply filter_In in Hf as [Hin Hm].
    destruct (Hres f Hin) as [? ?]. rewrite index_matched_single in Hm. auto. }
  destruct candidates as [| first others] eqn:Ecand.
  { intros [= <-]. split; [reflexivity | discriminate]. }
  destruct (covering node (first :: others)) as [cov |] eqn:Ecov.
  - intros [= <-]. split; [reflexivity |]. intros i [= <-].
    unfold covering in Ecov. apply find_some in Ecov as [Hin Hlen].
    destruct (Hcand cov Hin) as (? & ? & ?).
    exists cov, cond, cc. repeat split; try assumption; try reflexivity.
    intros c _. lia.
  - intros [= <-]. split; [reflexivity |]. intros i [= <-].
    assert (In (shortest first (first :: others)) (first :: others)) as Hin
      by (apply shortest_In; now left).
    destruct (Hcand _ Hin) as (? & ? & ?).
    exists (shortest first (first :: others)), cond, cc.
    repeat split; try assumption; try reflexivity.
    intros c [=].
Qed.

Lemma implement_scan_sound_witness :
  scan_condition (IndexScan "ix_a" (Some where_a_eq_1)) = condition scan_t.
Proof.
  refine (proj1 (implement_scan_sound
            [mkCatalogIndexForm "ix_a" "t" ["a"%string]] scan_t
            (IndexScan "ix_a" (Some where_a_eq_1)) _)).
  reflexivity.
Defined.

(** X17: a single-column index on the predicate's column is always used.
    When the catalog has an index on the scanned table whose only column is
    the one the condition compares with a constant, [implement_scan] returns
    an index scan or a covered index scan, never a table scan. *)
Theorem single_column_index_is_used (catalog_index : list CatalogIndexForm)
    (node : ScanOperator) (form : CatalogIndexForm) (cond : Condition)
    (cc : TableColumn) :
  In form catalog_index ->
  index_table_name form = table_name node ->
  index_columns form = [column_name cc] ->
  condition node = Some cond ->
  is_table_column (left cond) ++ is_table_column (right cond) = [cc] ->
  exists p i, implement_scan catalog_index node = Ok p
              /\ scan_index p = Some i.
Proof.
  intros Hin Htable Hcols Hcond Hcc. unfold implement_scan.
  set (results := List.filter _ catalog_index).
  assert (In form results) as Hres
    by (apply filter_In; split; [exact Hin | now apply String.eqb_eq]).
  destruct results as [| r0 rest] eqn:Eres; [destruct Hres |].
  rewrite Hcond, Hcc. change (len [cc] >=? 2) with false.
  change (len [cc] =? 0) with false. cbv iota.
  set (candidates := List.filter (index_matched [cc]) (r0 :: rest)).
  assert (In form candidates) as Hcand.
  { apply filter_In. split; [exact Hres |].
    rewrite index_matched_single, Hcols. cbn [forallb].
    now rewrite String.eqb_refl. }
  destruct candidates as [| first others] eqn:Ecand; [destruct Hcand |].
  destruct (covering node (first :: others)) as [cov |];
    eexists _, _; split; reflexivity.
Qed.

Lemma single_column_index_is_used_witness :
  exists p i,
    implement_scan
      [mkCatalogIndexForm "ix_ab" "t" ["a"; "b"]%string;
       mkCatalogIndexForm "ix_a" "t" ["a"%string]] scan_t = Ok p
    /\ scan_index p = Some i.
Proof.
  apply (single_column_index_is_used _ scan_t
           (mkCatalogIndexForm "ix_a" "t" ["a"%string]) where_a_eq_1
           (mkTableColumn "t" "a")).
  - right. now left.
  - reflexivity.
  - reflexivity.
  - reflexivity.
  - reflexivity.
Defined.

End planner_choice_props.

(** ** bplus_tree.py: the order of [BPlusTreeTuple] *)

Module bplus_tuple_props.
Import bplus_tree.

Lemma value_eqb_sym (a b : py_value) : value_eqb a b = value_eqb b a.
Proof.
  destruct a, b; cbn; try reflexivity; [apply Z.eqb_sym | apply String.eqb_sym].
Qed.

Lemma tuple_eqb_sym (x y : py_tuple) : tuple_eqb x y = tuple_eqb y x.
Proof.
  revert y. induction x as [| a x IH]; intros [| b y]; cbn; try reflexivity.
  now rewrite value_eqb_sym, IH.
Qed.

(** Swapping the arguments of [_cmp] flips the sign of its result. *)
Lemma _cmp_swap (a b : py_value) (r : Z) :
  _cmp a b = Ok r -> (r = -1 \/ r = 0 \/ r = 1) /\ _cmp b a = Ok (- r).
Proof.
  destruct a as [| m | s1], b as [| n | s2]; cbn;
    try (intros [= <-]; split; [lia | reflexivity]); try discriminate.
  - rewrite (Z.eqb_sym n m). destruct (m =? n) eqn:E.
    + intros [= <-]. split; [lia | reflexivity].
    + cbn. destruct (m <? n) eqn:E1; intros [= <-]; (split; [lia |]).
      * destruct (n <? m) eqn:E2; [lia | reflexivity].
      * destruct (n <? m) eqn:E2; [reflexivity | lia].
  - rewrite (String.eqb_sym s2 s1). destruct (String.eqb s1 s2) eqn:E.
    + intros [= <-]. split; [lia | reflexivity].
    + cbn. unfold String.ltb. rewrite (String.compare_antisym s1 s2).
      destruct (String.compare s2 s1) eqn:Ec; cbn; intros [= <-];
        (split; [lia |]); try reflexivity.
      apply String.compare_eq_iff in Ec. subst.
      now rewrite String.eqb_refl in E.
Qed.

Lemma _cmp_eq (a b : py_value) : value_eqb a b = true -> _cmp a b = Ok 0.
Proof.
  destruct a, b; cbn; try discriminate; try reflexivity; now intros ->.
Qed.

Lemma lt_loop_eq (x y : py_tuple) : tuple_eqb x y = true -> lt_loop x y = Ok false.
Proof.
  revert y. induction x as [| a x IH]; intros [| b y]; cbn; try reflexivity;
    try discriminate.
  intros Heq. apply andb_true_iff in Heq as [Ha Hx].
  rewrite (_cmp_eq a b Ha). cbn. now apply IH.
Qed.

Lemma lt_loop_swap (x y : py_tuple) :
  lt_loop x y = Ok true -> lt_loop y x = Ok false.
Proof.
  revert y. induction x as [| a x IH]; intros [| b y]; cbn; try discriminate.
  destruct (_cmp a b) as [r |] eqn:E; [| discriminate].
  apply _cmp_swap in E as [Hr ->]. cbn.
  destruct Hr as [-> | [-> | ->]]; cbn; try discriminate.
  - reflexivity.
  - apply IH.
Qed.

(** X18: the order on keys is asymmetric and agrees across the comparison
    operators: if [x < y] holds then [x == y] and [y < x] do not, [y > x]
    and [y >= x] hold, and [y <= x] does not; and no key is below itself. *)
Theorem lt_is_asymmetric (x y : py_tuple) :
  __lt__ x y = Ok true ->
  __eq__ x y = false
  /\ __lt__ y x = Ok false
  /\ __gt__ y x = Ok true
  /\ __ge__ y x = Ok true
  /\ __le__ y x = Ok false
  /\ __lt__ x x = Ok false.
Proof.
  unfold __lt__. destruct (len x =? len y) eqn:Hlen; [| discriminate].
  intros Hlt.
  assert (tuple_eqb x y = false) as Hne.
  { destruct (tuple_eqb x y) eqn:E; [| reflexivity].
    apply lt_loop_eq in E. congruence. }
  assert (lt_loop y x = Ok false) as Hswap by now apply lt_loop_swap.
  unfold __gt__, __ge__, __le__, __eq__, __lt__.
  rewrite (tuple_eqb_sym y x), Hne, (Z.eqb_sym (len y) (len x)), Hlen, Hswap.
  rewrite Z.eqb_refl. cbn [rbind negb].
  repeat split; try reflexivity.
  apply lt_loop_eq. clear. induction x as [| a x IH]; cbn; [reflexivity |].
  rewrite IH, andb_true_r. destruct a; cbn; try reflexivity;
    [apply Z.eqb_refl | apply String.eqb_refl].
Qed.

Lemma lt_is_asymmetric_witness :
  __lt__ [PyInt 2; PyStr "b"] [PyInt 2; PyStr "a"] = Ok false
  /\ __gt__ [PyInt 2; PyStr "b"] [PyInt 2; PyStr "a"] = Ok true.
Proof.
  destruct (lt_is_asymmetric [PyInt 2; PyStr "a"] [PyInt 2; PyStr "b"] eq_refl)
    as (_ & Hlt & Hgt & _).
  split; assumption.
Defined.

End bplus_tuple_props.

(** ** storage/entry.py: what a heap insert or delete leaves behind *)

Module heap_props.
Import slotted_page lru state common transaction entry pool_props
       replay_props allocate_page_props.

Section Heap.
Context `{External}.

(** Every redo record written so far, flushed or still buffered. *)
Definition all_records (db : DB) : list redo.RedoRecord :=
  default [] (redo.log_file (redo_mgr (transaction_mgr db)))
  ++ redo.log_buffer (redo_mgr (transaction_mgr db)).

(** The undo records a transaction has buffered. *)
Definition undo_active (db : DB) (xid0 : Z) : option (list undo.UndoRecord) :=
  undo.active_transactions (undo_mgr (transaction_mgr db)) !! xid0.

Lemma on_undo_write_Ok (ur : undo.UndoRecord) (db db' : DB) :
  on_undo (undo.write ur) db = (db', Ok tt) ->
  buffer_pool db' = buffer_pool db
  /\ table_files db' = table_files db
  /\ redo_mgr (transaction_mgr db') = redo_mgr (transaction_mgr db)
  /\ exists l, undo_active db (undo.xid ur) = Some l
               /\ undo_active db' (undo.xid ur) = Some (l ++ [ur])
               /\ undo.files (undo_mgr (transaction_mgr db'))
                  = undo.files (undo_mgr (transaction_mgr db)).
Proof.
  unfold on_undo, on_mgr, undo.write, undo_active.
  destruct (undo.active_transactions (undo_mgr (transaction_mgr db))
              !! undo.xid ur) as [l |] eqn:El; [| discriminate].
  intros [= <-]. cbn. repeat split. exists l. split; [reflexivity |].
  split; [apply lookup_insert_eq | reflexivity].
Qed.

Lemma on_redo_write_Ok (rr : redo.RedoRecord) (db db' : DB) (lsn0 : Z) :
  on_redo (redo.write rr) db = (db', Ok lsn0) ->
  buffer_pool db' = buffer_pool db
  /\ table_files db' = table_files db
  /\ undo_mgr (transaction_mgr db') = undo_mgr (transaction_mgr db)
  /\ lsn0 = redo.write_lsn (redo_mgr (transaction_mgr db'))
  /\ all_records db' = all_records db ++ [rr].
Proof.
  unfold on_redo, on_mgr, redo.write, redo.flush, all_records.
  destruct ((redo.action rr =? redo.COMMIT) || _); intros [= <- <-]; cbn;
    repeat split.
  - rewrite app_nil_r. destruct (redo.log_file _); cbn; now rewrite ?app_assoc.
  - now rewrite app_assoc.
Qed.

Lemma mark_dirty_Ok (k : page_key) (db db' : DB) :
  on_pool (mark_dirty k) db = (db', Ok tt) ->
  dirty_pages (buffer_pool db') = {[k]} ∪ dirty_pages (buffer_pool db)
  /\ table_files db' = table_files db.
Proof.
  unfold on_pool, mark_dirty.
  destruct (__contains__ k (buffer_pool db)); [| discriminate].
  intros [= <-]. split; reflexivity.
Qed.

Lemma on_page_frame {A} (k : page_key) (page : option Page) (m : M Page A)
    (db db' : DB) (r : result A) :
  on_page k page m db = (db', r) ->
  dirty_pages (buffer_pool db') = dirty_pages (buffer_pool db)
  /\ table_files db' = table_files db.
Proof.
  unfold on_page. destruct page as [pg |].
  - destruct (cache_get k (lru_cache (buffer_pool db))) as [node |].
    + destruct (m (value node)). intros [= <- _]. split; reflexivity.
    + intros [= <- _]. split; reflexivity.
  - intros [= <- _]. split; reflexivity.
Qed.

Lemma on_page_Ok {A} (k : page_key) (page : option Page) (m : M Page A)
    (db db' : DB) (a : A) :
  on_page k page m db = (db', Ok a) ->
  exists p0, cached_page k db = Some p0 /\ snd (m p0) = Ok a
             /\ cached_page k db' = Some (fst (m p0))
             /\ transaction_mgr db' = transaction_mgr db.
Proof.
  intros Hrun. destruct page as [pg |]; [| discriminate].
  apply on_page_effect in Hrun
    as (Hmgr & [(p0 & Hc & Hr & Hc' & _) | (_ & _ & Hr)]); [| discriminate].
  exists p0. auto.
Qed.

Lemma cached_page_pool (k : page_key) (db db' : DB) :
  buffer_pool db' = buffer_pool db -> cached_page k db' = cached_page k db.
Proof. unfold cached_page. now intros ->. Qed.

Lemma try_except_Ok {S A} (body handler : M S A) (st st' : S) (a : A) :
  try_except body is_PageError handler st = (st', Ok a) ->
  body st = (st', Ok a)
  \/ exists st1, body st = (st1, Raise PageError) /\ handler st1 = (st', Ok a).
Proof.
  unfold try_except. destruct (body st) as [st1 [a0 | e]]; [now left |].
  destruct e; cbn [is_PageError]; try discriminate. right. eauto.
Qed.

(** What a successful [table_tuple_insert_one] did. *)
Lemma insert_one_inv (t : string) (tup : py_tuple) (db db' : DB)
    (pageno sid : Z) :
  table_tuple_insert_one t tup db = (db', Ok (pageno, sid)) ->
  let xid0 := session_xid db in
  let record := tuple_to_bytes tup in
  exists p0 l,
    snd (table_tuple_get_last_pageno t db) = Ok pageno
    /\ snd (insert record p0) = Ok sid
    /\ cached_page (t, pageno) db'
       = Some (set_header (redo.write_lsn (redo_mgr (transaction_mgr db')))
                          (fst (insert record p0)))
    /\ dirty_pages (buffer_pool db')
       = {[(t, pageno)]} ∪ dirty_pages (buffer_pool db)
    /\ table_files db' = table_files db
    /\ all_records db'
       = all_records db
         ++ [redo.mkRedoRecord xid0 redo.TABLE_INSERT (Some t)
               (Some (pageno, sid)) record]
    /\ undo_active db xid0 = Some l
    /\ undo_active db' xid0
       = Some (l ++ [undo.mkUndoRecord xid0 undo.TABLE_DELETE (Some t)
                       (Some (pageno, sid)) (undo.Bytes [])])
    /\ (forall p, cached_page (t, pageno) db = Some p -> p0 = p)
    /\ undo.files (undo_mgr (transaction_mgr db'))
       = undo.files (undo_mgr (transaction_mgr db)).
Proof.
  intros Hrun xid0 record. unfold table_tuple_insert_one in Hrun.
  apply bind_Ok_inv in Hrun as (dbA & pageno0 & Hlast & Hrun).
  pose proof (get_last_pageno_inv _ _ _ _ Hlast) as (-> & disk & Hdisk & Hp0).
  destruct (pageno0 <? 0) eqn:Eneg; [lia |].
  apply bind_Ok_inv in Hrun as (dbB & pageno1 & Hret & Hrun).
  unfold ret in Hret. injection Hret as <- <-.
  apply bind_Ok_inv in Hrun as (db1 & page & Hget & Hrun).
  apply bind_Ok_inv in Hrun as (db1' & dbv & Hst & Hrun).
  unfold get_state in Hst. injection Hst as <- <-.
  apply bind_Ok_inv in Hrun as (db2 & sid0 & Htry & Hrun).
  unfold ret in Hrun. injection Hrun as <- <- <-.
  pose proof (get_page_effect _ _ _ _ _ Hget) as (Hmgr1 & _ & _ & Hhit).
  pose proof (get_page_dirty t pageno0 db) as [Hfiles1 Hdirty1].
  rewrite Hget in Hfiles1, Hdirty1. cbn [fst] in Hfiles1, Hdirty1.
  apply try_except_Ok in Htry as [Hbody | (st1 & _ & Hfall)].
  2:{ destruct (insert_one_fallback_raises t pageno0 page (session_xid db1)
                  (tuple_to_bytes tup) st1) as [e He].
      rewrite Hfall in He. discriminate. }
  apply bind_Ok_inv in Hbody as (dbC & sid1 & Hins & Hbody).
  apply bind_Ok_inv in Hbody as (dbD & u1 & Hmark & Hbody).
  apply bind_Ok_inv in Hbody as (dbE & u2 & Hlogs & Hbody).
  unfold ret in Hbody. injection Hbody as <- <-.
  unfold write_logs in Hlogs.
  apply bind_Ok_inv in Hlogs as (dbF & u3 & Hundo & Hlogs).
  apply bind_Ok_inv in Hlogs as (dbG & lsn0 & Hredo & Hstamp).
  destruct u1, u2, u3.
  pose proof (on_page_frame _ _ _ _ _ _ Hins) as [HdirtyC HfilesC].
  apply on_page_Ok in Hins as (p0 & Hc1 & Hsid & HcC & HmgrC).
  pose proof (on_page_frame _ _ _ _ _ _ Hstamp) as [HdirtyE HfilesE].
  apply on_page_Ok in Hstamp as (pG & HcG & _ & HcE & HmgrE).
  destruct (mark_dirty_effect _ _ _ _ Hmark) as [HsameD HmgrD].
  apply mark_dirty_Ok in Hmark as [HdirtyD HfilesD].
  apply on_undo_write_Ok in Hundo
    as (HpoolF & HfilesF & HredoF & l & Hl & Hl' & Hufiles).
  apply on_redo_write_Ok in Hredo as (HpoolG & HfilesG & HundoG & Hlsn & Hrecs).
  assert (session_xid db1 = xid0) as Hxid
    by (unfold xid0, session_xid; now rewrite Hmgr1).
  rewrite Hxid in *. cbn [undo.xid] in Hl, Hl'.
  assert (transaction_mgr dbD = transaction_mgr db) as HmgrD0 by congruence.
  assert (pG = fst (insert record p0)) as ->.
  { rewrite (cached_page_pool _ _ _ HpoolG), (cached_page_pool _ _ _ HpoolF),
      HsameD, HcC in HcG. now injection HcG. }
  exists p0, l.
  split; [now rewrite Hlast |]. split; [exact Hsid |].
  split; [rewrite HcE, HmgrE, <- Hlsn; reflexivity |].
  split.
  { rewrite HdirtyE, HpoolG, HpoolF, HdirtyD, HdirtyC.
    destruct Hdirty1 as [-> | ->]; set_solver. }
  split; [congruence |].
  split.
  { unfold all_records in *. rewrite HmgrE, Hrecs, HredoF, HmgrD0. reflexivity. }
  unfold undo_active in *. rewrite HmgrD0 in Hl.
  split; [exact Hl |]. split; [now rewrite HmgrE, HundoG |].
  split.
  - intros p Hp. destruct (Hhit p Hp) as [_ Hsame].
    rewrite Hsame, Hp in Hc1. now injection Hc1.
  - now rewrite HmgrE, HundoG, Hufiles, HmgrD0.
Qed.

(** [set_header] leaves the slots and the records alone. *)
Lemma select_set_header (lsn0 sid : Z) (p : Page) :
  select sid (set_header lsn0 p) = select sid p.
Proof. reflexivity. Qed.

Lemma insert_then_select (record : bytes) (p0 : Page) (sid : Z) :
  snd (insert record p0) = Ok sid ->
  select sid (fst (insert record p0)) = Ok record.
Proof.
  unfold insert, allocate_slot.
  destruct (total_page_size p0 record >=? PAGE_SIZE); [discriminate |].
  cbn [fst snd slot_directory]. rewrite len_app. change (len [_]) with 1.
  intros [= <-].
  replace (len (slot_directory p0) + 1 - 1) with (len (slot_directory p0)) by lia.
  apply slotted_page_props.select_last.
Qed.

(** Reading a location whose page is cached. *)
Lemma get_one_cached (t : string) (pageno sid : Z) (db : DB) (p : Page) :
  cached_page (t, pageno) db = Some p ->
  snd (table_tuple_get_one t (pageno, sid) db)
  = rbind (select sid p) bytes_to_tuple.
Proof.
  intros Hc. unfold table_tuple_get_one, bind.
  destruct (table_tuple_get_page t pageno db) as [db1 r1] eqn:Hget.
  destruct (get_page_effect _ _ _ _ _ Hget) as (_ & _ & _ & Hhit).
  destruct (Hhit p Hc) as [-> Hsame].
  unfold select_.
  destruct (on_page (t, pageno) (Some p) (fun p1 => (p1, select sid p1)) db1)
    as [db2 r2] eqn:Hsel.
  apply on_page_effect in Hsel
    as (_ & [(p1 & Hc1 & -> & _) | (Hnone & _)]).
  - rewrite Hsame, Hc in Hc1. injection Hc1 as <-. cbn [snd].
    destruct (select sid p); reflexivity.
  - rewrite Hsame, Hc in Hnone. discriminate.
Qed.

(** X19: write-ahead logging of a heap insert.  Every successful
    [table_tuple_insert_one] goes to the table's last page, appends exactly
    one redo record (TABLE_INSERT, with the session's xid, the location and
    the pickled tuple) and one undo record (TABLE_DELETE of that location),
    stamps the page header with the lsn the redo write returned, and marks
    that page, and no other, dirty; the table file is not touched. *)
Theorem insert_one_is_logged (t : string) (tup : py_tuple) (db db' : DB)
    (pageno sid : Z) :
  table_tuple_insert_one t tup db = (db', Ok (pageno, sid)) ->
  let xid0 := session_xid db in
  snd (table_tuple_get_last_pageno t db) = Ok pageno
  /\ option_map (fun p => lsn (page_header p)) (cached_page (t, pageno) db')
     = Some (redo.write_lsn (redo_mgr (transaction_mgr db')))
  /\ dirty_pages (buffer_pool db')
     = {[(t, pageno)]} ∪ dirty_pages (buffer_pool db)
  /\ table_files db' = table_files db
  /\ all_records db'
     = all_records db
       ++ [redo.mkRedoRecord xid0 redo.TABLE_INSERT (Some t)
             (Some (pageno, sid)) (tuple_to_bytes tup)]
  /\ exists l,
       undo_active db xid0 = Some l
       /\ undo_active db' xid0
          = Some (l ++ [undo.mkUndoRecord xid0 undo.TABLE_DELETE (Some t)
                          (Some (pageno, sid)) (undo.Bytes [])]).
Proof.
  intros Hrun xid0.
  destruct (insert_one_inv _ _ _ _ _ _ Hrun)
    as (p0 & l & Hlast & _ & Hc & Hdirty & Hfiles & Hrecs & Hl & Hl' & _).
  split; [exact Hlast |]. split; [now rewrite Hc |].
  split; [exact Hdirty |]. split; [exact Hfiles |]. split; [exact Hrecs |].
  exists l. split; assumption.
Qed.

(** X20: a tuple that was inserted can be read back.  After a successful
    [table_tuple_insert_one], [table_tuple_get_one] at the location it
    returned gives the tuple, for every tuple that [pickle] turns into a
    non-empty byte string it can load again. *)
Theorem insert_one_then_get_one (t : string) (tup : py_tuple) (db db' : DB)
    (pageno sid : Z) :
  table_tuple_insert_one t tup db = (db', Ok (pageno, sid)) ->
  0 < len (dumps_tuple tup) ->
  loads_tuple (dumps_tuple tup) = Ok tup ->
  snd (table_tuple_get_one t (pageno, sid) db') = Ok tup
  /\ snd (table_tuple_is_dead t (pageno, sid) db')
     = Ok (len tup =? 0).
Proof.
  intros Hrun Hlen Hload.
  destruct (insert_one_inv _ _ _ _ _ _ Hrun) as (p0 & l & _ & Hsid & Hc & _).
  assert (snd (table_tuple_get_one t (pageno, sid) db') = Ok tup) as Hget.
  { rewrite (get_one_cached _ _ _ _ _ Hc), select_set_header.
    rewrite (insert_then_select _ _ _ Hsid). cbn [rbind].
    unfold bytes_to_tuple, tuple_to_bytes.
    destruct (len (dumps_tuple tup) =? 0) eqn:E; [lia | exact Hload]. }
  split; [exact Hget |].
  unfold table_tuple_is_dead, bind, ret.
  destruct (table_tuple_get_one t (pageno, sid) db') as [db2 r2].
  cbn [snd] in Hget. now subst r2.
Qed.

Lemma get_last_pageno_eq (t : string) (db : DB) :
  table_tuple_get_last_pageno t db
  = (db, rbind (snd (table_tuple_get_disk_pages t db)) (fun disk =>
           Ok (Z.max (Z.max (find_max_pageno t (buffer_pool db) + 1) disk - 1) 0))).
Proof.
  unfold table_tuple_get_last_pageno, table_tuple_get_pages,
    table_tuple_get_disk_pages, bind, get_state, ret.
  repeat case_match; simplify_eq; reflexivity.
Qed.

(** Marking the last page dirty does not move the last page. *)
Lemma last_pageno_stable (t : string) (db db' : DB) (n : Z) :
  table_files db' = table_files db ->
  dirty_pages (buffer_pool db') = {[(t, n)]} ∪ dirty_pages (buffer_pool db) ->
  snd (table_tuple_get_last_pageno t db) = Ok n ->
  snd (table_tuple_get_last_pageno t db') = Ok n.
Proof.
  intros Hfiles Hdirty. rewrite !get_last_pageno_eq. cbn [snd].
  rewrite (get_disk_pages_files t db db' Hfiles).
  destruct (snd (table_tuple_get_disk_pages t db)) as [disk |]; [| discriminate].
  cbn [rbind]. intros [= Hn]. f_equal.
  pose proof (find_max_pageno_spec t (buffer_pool db)) as Hold.
  pose proof (find_max_pageno_spec t (buffer_pool db')) as Hnew.
  set (m := find_max_pageno t (buffer_pool db)) in *.
  set (m' := find_max_pageno t (buffer_pool db')) in *.
  rewrite Hdirty in Hnew.
  assert (m <= m' <= n) as Hm; [| lia].
  destruct Hnew as [[Hm' Hno'] | [Hin' Hub']].
  { exfalso. apply (Hno' n). set_solver. }
  assert (n <= m') by (apply Hub'; set_solver).
  apply elem_of_union in Hin' as [Hin' | Hin'].
  - apply elem_of_singleton in Hin'. injection Hin' as Hin'. lia.
  - destruct Hold as [[Hm0 Hno] | [Hin Hub]]; [now apply Hno in Hin' |].
    specialize (Hub _ Hin'). lia.
Qed.

(** X21: the heap never gets a second page.  A successful
    [table_tuple_insert_one] leaves the table's last page number as it was,
    and once the record no longer fits the last page every insert raises:
    the fallback that should allocate a page never completes. *)
Theorem insert_one_never_adds_page (t : string) (tup : py_tuple) (db : DB) :
  (forall db' pageno sid,
      table_tuple_insert_one t tup db = (db', Ok (pageno, sid)) ->
      snd (table_tuple_get_last_pageno t db') = Ok pageno
      /\ snd (table_tuple_get_last_pageno t db) = Ok pageno)
  /\ (forall pageno p,
        snd (table_tuple_get_last_pageno t db) = Ok pageno ->
        cached_page (t, pageno) db = Some p ->
        PAGE_SIZE <= total_page_size p (tuple_to_bytes tup) ->
        is_ok (snd (table_tuple_insert_one t tup db)) = false).
Proof.
  split.
  - intros db' pageno sid Hrun.
    destruct (insert_one_inv _ _ _ _ _ _ Hrun)
      as (p0 & l & Hlast & _ & _ & Hdirty & Hfiles & _).
    split; [| exact Hlast].
    now apply (last_pageno_stable t db db' pageno).
  - intros pageno p Hlast Hp Hfull.
    destruct (table_tuple_insert_one t tup db) as [db' [[pageno' sid] | e]] eqn:Hrun;
      [| reflexivity].
    exfalso.
    destruct (insert_one_inv _ _ _ _ _ _ Hrun)
      as (p0 & l & Hlast' & Hsid & _ & _ & _ & _ & _ & _ & Hsame & _).
    rewrite Hlast in Hlast'. injection Hlast' as <-.
    rewrite (Hsame p Hp) in Hsid. unfold insert, allocate_slot in Hsid.
    destruct (total_page_size p (tuple_to_bytes tup) >=? PAGE_SIZE) eqn:E;
      [discriminate | lia].
Qed.

Lemma delete_then_select (sid : Z) (p0 : Page) (b : bool) :
  snd (delete sid p0) = Ok b -> select sid (fst (delete sid p0)) = Ok [].
Proof.
  unfold delete. destruct (sid >=? len (slot_directory p0)) eqn:E; [discriminate |].
  destruct (py_index (slot_directory p0) sid) as [slot |] eqn:Hidx; [| discriminate].
  intros _. cbn [fst].
  apply slotted_page_history.py_index_Ok in Hidx as (n & Hnorm & Hn).
  unfold alter_slot. rewrite Hnorm.
  now rewrite (page_ops_props.select_altered p0 sid n slot _ _ Hnorm Hn).
Qed.

(** X22: deleting a tuple.  A successful [table_tuple_delete_one] leaves
    the location reading as the empty tuple (dead); it appends one redo
    record (TABLE_DELETE of the location) and one undo record (TABLE_INSERT
    carrying the pickled tuple that was there), stamps the page with the
    redo lsn and marks it dirty. *)
Theorem delete_one_is_logged (t : string) (pageno sid : Z) (db db' : DB) :
  table_tuple_delete_one t (pageno, sid) db = (db', Ok tt) ->
  let xid0 := session_xid db in
  snd (table_tuple_get_one t (pageno, sid) db') = Ok []
  /\ snd (table_tuple_is_dead t (pageno, sid) db') = Ok true
  /\ option_map (fun p => lsn (page_header p)) (cached_page (t, pageno) db')
     = Some (redo.write_lsn (redo_mgr (transaction_mgr db')))
  /\ (t, pageno) ∈ dirty_pages (buffer_pool db')
  /\ all_records db'
     = all_records db
       ++ [redo.mkRedoRecord xid0 redo.TABLE_DELETE (Some t)
             (Some (pageno, sid)) []]
  /\ exists old l,
       snd (table_tuple_get_one t (pageno, sid) db) = Ok old
       /\ undo_active db xid0 = Some l
       /\ undo_active db' xid0
          = Some (l ++ [undo.mkUndoRecord xid0 undo.TABLE_INSERT (Some t)
                          (Some (pageno, sid))
                          (undo.Bytes (tuple_to_bytes old))]).
Proof.
  intros Hrun xid0. unfold table_tuple_delete_one in Hrun.
  apply bind_Ok_inv in Hrun as (db1 & page & Hget & Hrun).
  apply bind_Ok_inv in Hrun as (db1' & dbv & Hst & Hrun).
  unfold get_state in Hst. injection Hst as <- <-.
  apply bind_Ok_inv in Hrun as (db2 & old & Hold & Hrun).
  apply bind_Ok_inv in Hrun as (dbC & b & Hdel & Hrun).
  apply bind_Ok_inv in Hrun as (dbD & u1 & Hmark & Hlogs).
  unfold write_logs in Hlogs.
  apply bind_Ok_inv in Hlogs as (dbF & u3 & Hundo & Hlogs).
  apply bind_Ok_inv in Hlogs as (dbG & lsn0 & Hredo & Hstamp).
  destruct u1, u3.
  destruct page as [pg |]; [| unfold on_page in Hdel; discriminate].
  pose proof (get_page_effect _ _ _ _ _ Hget) as (Hmgr1 & _ & Hret & _).
  specialize (Hret pg eq_refl).
  (* the read of the old tuple inside the call *)
  assert (transaction_mgr db2 = transaction_mgr db1) as Hmgr2.
  { unfold table_tuple_get_one in Hold.
    apply bind_Ok_inv in Hold as (db1a & page_a & Hget_a & Hold).
    apply bind_Ok_inv in Hold as (db1b & rec_a & Hsel_a & Hold).
    pose proof (get_page_effect _ _ _ _ _ Hget_a) as (Hmgr_a & _).
    unfold lift_result in Hold. injection Hold as -> _.
    unfold select_ in Hsel_a.
    apply on_page_Ok in Hsel_a as (pa & _ & _ & _ & Hmgr_b). congruence. }
  assert (rbind (select sid pg) bytes_to_tuple = Ok old) as Hread.
  { rewrite <- (get_one_cached t pageno sid db1 pg Hret). now rewrite Hold. }
  (* the mutation and the logs *)
  apply on_page_Ok in Hdel as (p0 & Hc2 & Hb & HcC & HmgrC).
  pose proof (on_page_frame _ _ _ _ _ _ Hstamp) as [HdirtyE _].
  apply on_page_Ok in Hstamp as (pG & HcG & _ & HcE & HmgrE).
  destruct (mark_dirty_effect _ _ _ _ Hmark) as [HsameD HmgrD].
  apply mark_dirty_Ok in Hmark as [HdirtyD _].
  apply on_undo_write_Ok in Hundo as (HpoolF & _ & HredoF & l & Hl & Hl' & _).
  apply on_redo_write_Ok in Hredo as (HpoolG & _ & HundoG & Hlsn & Hrecs).
  cbn [undo.xid] in Hl, Hl'.
  assert (session_xid db1 = xid0) as Hxid
    by (unfold xid0, session_xid; now rewrite Hmgr1).
  rewrite Hxid in *.
  assert (transaction_mgr dbD = transaction_mgr db) as HmgrD0 by congruence.
  assert (pG = fst (delete sid p0)) as ->.
  { rewrite (cached_page_pool _ _ _ HpoolG), (cached_page_pool _ _ _ HpoolF),
      HsameD, HcC in HcG. now injection HcG. }
  cbn [modify fst] in HcE.
  assert (snd (table_tuple_get_one t (pageno, sid) db') = Ok []) as Hdead.
  { rewrite (get_one_cached _ _ _ _ _ HcE), select_set_header.
    now rewrite (delete_then_select _ _ _ Hb). }
  split; [exact Hdead |].
  split.
  { unfold table_tuple_is_dead, bind, ret.
    destruct (table_tuple_get_one t (pageno, sid) db') as [dbx rx].
    cbn [snd] in Hdead. now subst rx. }
  split; [rewrite HcE; cbn; now rewrite HmgrE, <- Hlsn |].
  split; [rewrite HdirtyE, HpoolG, HpoolF, HdirtyD; set_solver |].
  split.
  { unfold all_records in *. rewrite HmgrE, Hrecs, HredoF, HmgrD0. reflexivity. }
  exists old, l.
  unfold undo_active in *. rewrite HmgrD0 in Hl.
  split; [| split; [exact Hl | now rewrite HmgrE, HundoG]].
  (* a reader calling before the delete saw the same tuple *)
  rewrite <- Hread. unfold table_tuple_get_one, bind. rewrite Hget.
  unfold select_.
  destruct (on_page (t, pageno) (Some pg) (fun p1 => (p1, select sid p1)) db1)
    as [dbs rs] eqn:Hsel.
  apply on_page_effect in Hsel
    as (_ & [(p1 & Hc1 & -> & _) | (Hnone & _)]).
  - rewrite Hret in Hc1. injection Hc1 as <-. cbn [snd].
    destruct (select sid pg); reflexivity.
  - rewrite Hret in Hnone. discriminate.
Qed.

(** X28: what a successful [table_tuple_update_one] that stays in its page
    leaves behind.  When the call returns a slot id, the page was updated by
    [Page.update], is dirty and carries the new redo lsn; the redo log got
    one TABLE_UPDATE record with the new tuple at the returned slot, and the
    undo list of the session's transaction got one TABLE_UPDATE record for
    the slot that was asked for, holding the serialized bytes of the old
    record as [select] returned them. *)
Theorem update_one_is_logged (t : string) (pageno sid : Z) (tup : py_tuple)
    (db db' : DB) (new_sid : Z) :
  table_tuple_update_one t (pageno, sid) tup db = (db', Ok (Sid new_sid)) ->
  let xid0 := session_xid db in
  (t, pageno) ∈ dirty_pages (buffer_pool db')
  /\ all_records db'
     = all_records db
       ++ [redo.mkRedoRecord xid0 redo.TABLE_UPDATE (Some t)
             (Some (pageno, new_sid)) (tuple_to_bytes tup)]
  /\ exists p0 old l,
       cached_page (t, pageno) (fst (table_tuple_get_page t pageno db)) = Some p0
       /\ select sid p0 = Ok old
       /\ snd (update sid (tuple_to_bytes tup) p0) = Ok new_sid
       /\ cached_page (t, pageno) db'
          = Some (set_header (redo.write_lsn (redo_mgr (transaction_mgr db')))
                    (fst (update sid (tuple_to_bytes tup) p0)))
       /\ snd (table_tuple_get_one t (pageno, new_sid) db')
          = rbind (select new_sid (fst (update sid (tuple_to_bytes tup) p0)))
                  bytes_to_tuple
       /\ undo_active db xid0 = Some l
       /\ undo_active db' xid0
          = Some (l ++ [undo.mkUndoRecord xid0 undo.TABLE_UPDATE (Some t)
                          (Some (pageno, sid))
                          (undo.Bytes (dumps_bytes old))]).
Proof.
  intros Hrun xid0. unfold table_tuple_update_one in Hrun.
  apply bind_Ok_inv in Hrun as (db1 & page & Hget & Hrun).
  apply bind_Ok_inv in Hrun as (db1' & dbv & Hst & Hrun).
  unfold get_state in Hst. injection Hst as <- <-.
  apply bind_Ok_inv in Hrun as (db2 & old & Hold & Hrun).
  apply try_except_Ok in Hrun as [Hbody | (st1 & _ & Hhandler)].
  2: { apply bind_Ok_inv in Hhandler as (dbh & uh & _ & Hhandler).
       apply bind_Ok_inv in Hhandler as (dbi & loc & _ & Hhandler).
       unfold ret in Hhandler. discriminate. }
  apply bind_Ok_inv in Hbody as (dbC & ns & Hupd & Hbody).
  apply bind_Ok_inv in Hbody as (dbD & u1 & Hmark & Hbody).
  apply bind_Ok_inv in Hbody as (dbE & u2 & Hlogs & Hret).
  unfold ret in Hret. injection Hret as -> ->.
  unfold write_logs in Hlogs.
  apply bind_Ok_inv in Hlogs as (dbF & u3 & Hundo & Hlogs).
  apply bind_Ok_inv in Hlogs as (dbG & lsn0 & Hredo & Hstamp).
  destruct u1, u3.
  pose proof (get_page_effect _ _ _ _ _ Hget) as (Hmgr1 & _).
  unfold select_ in Hold.
  apply on_page_Ok in Hold as (p0 & Hc1 & Hsel & Hc2 & Hmgr2).
  cbn [fst snd] in Hsel, Hc2.
  apply on_page_Ok in Hupd as (p1 & Hc2' & Hns & HcC & HmgrC).
  assert (p1 = p0) as -> by congruence.
  pose proof (on_page_frame _ _ _ _ _ _ Hstamp) as [HdirtyE _].
  apply on_page_Ok in Hstamp as (pG & HcG & _ & HcE & HmgrE).
  destruct (mark_dirty_effect _ _ _ _ Hmark) as [HsameD HmgrD].
  apply mark_dirty_Ok in Hmark as [HdirtyD _].
  apply on_undo_write_Ok in Hundo as (HpoolF & _ & HredoF & l & Hl & Hl' & _).
  apply on_redo_write_Ok in Hredo as (HpoolG & _ & HundoG & Hlsn & Hrecs).
  cbn [undo.xid] in Hl, Hl'.
  assert (session_xid db1 = xid0) as Hxid
    by (unfold xid0, session_xid; now rewrite Hmgr1).
  rewrite Hxid in *.
  assert (transaction_mgr dbD = transaction_mgr db) as HmgrD0 by congruence.
  assert (pG = fst (update sid (tuple_to_bytes tup) p0)) as ->.
  { rewrite (cached_page_pool _ _ _ HpoolG), (cached_page_pool _ _ _ HpoolF),
      HsameD, HcC in HcG. now injection HcG. }
  cbn [modify fst] in HcE.
  split; [rewrite HdirtyE, HpoolG, HpoolF, HdirtyD; set_solver |].
  split.
  { unfold all_records in *. rewrite HmgrE, Hrecs, HredoF, HmgrD0. reflexivity. }
  exists p0, old, l. rewrite Hget. cbn [fst].
  split; [exact Hc1 |]. split; [exact Hsel |]. split; [exact Hns |].
  assert (redo.write_lsn (redo_mgr (transaction_mgr db')) = lsn0) as Hw
    by (now rewrite HmgrE, <- Hlsn).
  rewrite Hw. split; [exact HcE |].
  split.
  { now rewrite (get_one_cached _ _ _ _ _ HcE), select_set_header. }
  unfold undo_active in *. rewrite HmgrD0 in Hl.
  split; [exact Hl | now rewrite HmgrE, HundoG].
Qed.

End Heap.

End heap_props.

(** The theorems above on a fresh database: a transaction is started and
    one row is inserted into the empty table [t]. *)
Module heap_examples.
Import slotted_page lru state common transaction entry sample heap_logging
       heap_props.

Lemma pair_of_snd {A B} (x : A * B) (b : B) : snd x = b -> x = (fst x, b).
Proof. destruct x as [a b0]. cbn. intros H. exact (f_equal (pair a) H). Defined.

Definition started : DB := fst (start_transaction fresh).

Definition one_row : DB := fst (table_tuple_insert_one "t" [PyInt 7] started).

Lemma one_row_inserted :
  table_tuple_insert_one "t" [PyInt 7] started = (one_row, Ok (0, 0)).
Proof.
  unfold one_row. apply pair_of_snd. vm_compute. reflexivity.
Defined.

Definition row_deleted : DB := fst (table_tuple_delete_one "t" (0, 0) one_row).

Lemma one_row_deleted :
  table_tuple_delete_one "t" (0, 0) one_row = (row_deleted, Ok tt).
Proof.
  unfold row_deleted. apply pair_of_snd. vm_compute. reflexivity.
Defined.

Lemma insert_one_is_logged_witness :
  dirty_pages (buffer_pool one_row)
  = {[("t"%string, 0)]} ∪ dirty_pages (buffer_pool started)
  /\ all_records one_row
     = all_records started
       ++ [redo.mkRedoRecord (session_xid started) redo.TABLE_INSERT
             (Some "t"%string) (Some (0, 0)) (tuple_to_bytes [PyInt 7])].
Proof.
  destruct (insert_one_is_logged "t" [PyInt 7] started one_row 0 0
              one_row_inserted) as (_ & _ & Hdirty & _ & Hrecs & _).
  split; assumption.
Defined.

Lemma insert_one_then_get_one_witness :
  snd (table_tuple_get_one "t" (0, 0) one_row) = Ok [PyInt 7].
Proof.
  refine (proj1 (insert_one_then_get_one "t" [PyInt 7] started one_row 0 0
                   one_row_inserted _ _)).
  - vm_compute. reflexivity.
  - vm_compute. reflexivity.
Defined.

Lemma insert_one_never_adds_page_witness :
  snd (table_tuple_get_last_pageno "t" one_row) = Ok 0.
Proof.
  exact (proj1 (proj1 (insert_one_never_adds_page "t" [PyInt 7] started)
                  one_row 0 0 one_row_inserted)).
Defined.

Lemma delete_one_is_logged_witness :
  snd (table_tuple_get_one "t" (0, 0) row_deleted) = Ok []
  /\ snd (table_tuple_is_dead "t" (0, 0) row_deleted) = Ok true.
Proof.
  destruct (delete_one_is_logged "t" 0 0 one_row row_deleted one_row_deleted)
    as (Hget & Hdead & _).
  split; assumption.
Defined.

Definition row_updated : DB :=
  fst (table_tuple_update_one "t" (0, 0) [PyInt 9] one_row).

Lemma one_row_updated :
  table_tuple_update_one "t" (0, 0) [PyInt 9] one_row = (row_updated, Ok (Sid 0)).
Proof.
  unfold row_updated. apply pair_of_snd. vm_compute. reflexivity.
Defined.

Lemma update_one_is_logged_witness :
  ("t"%string, 0) ∈ dirty_pages (buffer_pool row_updated)
  /\ all_records row_updated
     = all_records one_row
       ++ [redo.mkRedoRecord (session_xid one_row) redo.TABLE_UPDATE
             (Some "t"%string) (Some (0, 0)) (tuple_to_bytes [PyInt 9])].
Proof.
  destruct (update_one_is_logged "t" 0 0 [PyInt 9] one_row row_updated 0
              one_row_updated) as (Hdirty & Hrecs & _).
  split; assumption.
Defined.

End heap_examples.

(** ** transaction/entry.py: commit, abort and a clean restart *)

Module transaction_props.
Import slotted_page lru state common transaction entry pool_props
       recovery_props replay_props heap_props.

Section Transactions.
Context `{External}.

Lemma bind_step {S A B} (m : M S A) (k : A -> M S B) (st st1 : S) (a : A) :
  m st = (st1, Ok a) -> bind m k st = k a st1.
Proof. intros Hm. unfold bind. now rewrite Hm. Qed.

(** X23: commit is durable.  [commit_transaction] of an active transaction
    returns normally; the redo log file then holds every record written so
    far followed by the COMMIT record of the session's xid, with nothing
    left in the buffer; the undo file of the transaction holds its
    buffered records followed by COMMIT, and the transaction is no longer
    active.  The buffer pool is not touched: no page is written at
    commit. *)
Theorem commit_is_durable (db : DB) (xid0 own : Z) (l : list undo.UndoRecord) :
  thread_local_xid (transaction_mgr db) = Some own ->
  undo_active db xid0 = Some l ->
  let out := commit_transaction xid0 db in
  snd out = Ok tt
  /\ redo.log_buffer (redo_mgr (transaction_mgr (fst out))) = []
  /\ redo.log_file (redo_mgr (transaction_mgr (fst out)))
     = Some (all_records db ++ [redo.mkRedoRecord own redo.COMMIT None None []])
  /\ undo.files (undo_mgr (transaction_mgr (fst out))) !! xid0
     = Some (default [] (undo.files (undo_mgr (transaction_mgr db)) !! xid0)
             ++ l
             ++ [undo.mkUndoRecord xid0 undo.COMMIT None None (undo.Bytes [])])
  /\ undo_active (fst out) xid0 = None
  /\ buffer_pool (fst out) = buffer_pool db.
Proof.
  destruct db as [pool files [rm um cx tl] idx].
  unfold undo_active, all_records. cbn [transaction_mgr thread_local_xid undo_mgr
    redo_mgr]. intros -> Hl.
  unfold commit_transaction, bind, on_undo, on_redo, on_mgr, get_state,
    undo.commit_transaction, bind, undo.flush, undo.write, undo.forget,
    redo.write, redo.flush.
  repeat first
    [ progress cbn [transaction_mgr thread_local_xid undo_mgr redo_mgr
        buffer_pool table_files indexes current_xid fst snd orb redo.action
        undo.active_transactions undo.files undo.xid redo.log_file
        redo.log_buffer redo.write_lsn redo.flush_lsn]
    | progress change (redo.COMMIT =? redo.COMMIT) with true
    | rewrite Hl
    | rewrite lookup_insert_eq ].
  split; [reflexivity |]. split; [reflexivity |].
  split; [f_equal; destruct (redo.log_file rm); cbn; now rewrite ?app_assoc |].
  split; [cbn [default app]; now rewrite ?app_assoc |].
  split; [apply lookup_delete_eq | reflexivity].
Qed.

(** A log is clean when there is no log file yet or the file ends with a
    CHECKPOINT record. *)
Definition clean_log (db : DB) : Prop :=
  match redo.log_file (redo_mgr (transaction_mgr db)) with
  | None => True
  | Some file => ends_with_checkpoint file
  end.

(** X24: restart after a clean shutdown.  When there is no redo log file,
    or the file ends with a CHECKPOINT record, [recovery] replays nothing
    and rolls nothing back: it returns normally, leaves the buffer pool, the
    table files and the undo logs as they are, and only sets [flush_lsn] and
    [write_lsn] to the size of the log file. *)
Theorem recovery_of_clean_log (db : DB) :
  clean_log db ->
  recovery db = (at_replay_start db, Ok tt)
  /\ buffer_pool (at_replay_start db) = buffer_pool db
  /\ table_files (at_replay_start db) = table_files db
  /\ undo_mgr (transaction_mgr (at_replay_start db))
     = undo_mgr (transaction_mgr db)
  /\ redo.write_lsn (redo_mgr (transaction_mgr (at_replay_start db)))
     = redo.total_len (default [] (redo.log_file (redo_mgr (transaction_mgr db))))
  /\ redo.flush_lsn (redo_mgr (transaction_mgr (at_replay_start db)))
     = redo.total_len (default [] (redo.log_file (redo_mgr (transaction_mgr db)))).
Proof.
  unfold clean_log. intros Hclean. split.
  - destruct (redo.log_file (redo_mgr (transaction_mgr db))) as [file |] eqn:Hfile.
    + unfold recovery, bind.
      rewrite (recovery_replay_after_checkpoint db file []);
        [reflexivity | now rewrite app_nil_r | exact Hclean | constructor].
    + unfold recovery, recovery_replay, at_replay_start, bind, get_state,
        lift_result, redo.replay. rewrite Hfile.
      unfold set_lsns, on_redo, on_mgr, modify. cbn. now rewrite Hfile.
  - unfold at_replay_start, set_lsns, on_redo, on_mgr, modify. cbn.
    destruct (redo.log_file (redo_mgr (transaction_mgr db))); cbn;
      repeat split; reflexivity.
Qed.

Lemma on_redo_write_total (rr : redo.RedoRecord) (db : DB) :
  exists db' lsn0, on_redo (redo.write rr) db = (db', Ok lsn0).
Proof.
  unfold on_redo, on_mgr, redo.write.
  destruct (_ || _); eexists _, _; reflexivity.
Qed.

Lemma on_undo_flush_Ok (xid0 : Z) (db : DB) (l : list undo.UndoRecord) :
  undo_active db xid0 = Some l ->
  exists db', on_undo (undo.flush xid0) db = (db', Ok tt)
    /\ buffer_pool db' = buffer_pool db
    /\ redo_mgr (transaction_mgr db') = redo_mgr (transaction_mgr db)
    /\ undo_active db' xid0 = Some []
    /\ undo.files (undo_mgr (transaction_mgr db')) !! xid0
       = Some (default [] (undo.files (undo_mgr (transaction_mgr db)) !! xid0)
               ++ l).
Proof.
  unfold undo_active, on_undo, on_mgr, undo.flush. intros ->.
  eexists. split; [reflexivity |]. cbn.
  split; [reflexivity |]. split; [reflexivity |].
  split; apply lookup_insert_eq.
Qed.

Lemma on_undo_abort_Ok (xid0 : Z) (db : DB) (l : list undo.UndoRecord) :
  undo_active db xid0 = Some l ->
  exists db', on_undo (undo.abort_transaction xid0) db = (db', Ok tt)
    /\ buffer_pool db' = buffer_pool db
    /\ redo_mgr (transaction_mgr db') = redo_mgr (transaction_mgr db)
    /\ undo_active db' xid0 = None.
Proof.
  unfold undo_active, on_undo, on_mgr, undo.abort_transaction, bind,
    undo.write, undo.flush, undo.forget. intros Hl.
  repeat first
    [ progress cbn [undo.active_transactions undo.files undo.xid fst snd]
    | rewrite Hl
    | rewrite lookup_insert_eq ].
  eexists. split; [reflexivity |]. cbn.
  split; [reflexivity |]. split; [reflexivity | apply lookup_delete_eq].
Qed.

Lemma get_page_hit (t : string) (n : Z) (db : DB) (p : Page) :
  cached_page (t, n) db = Some p ->
  exists db', table_tuple_get_page t n db = (db', Ok (Some p))
    /\ cached_page (t, n) db' = Some p
    /\ transaction_mgr db' = transaction_mgr db.
Proof.
  intros Hc. destruct (table_tuple_get_page t n db) as [db' r] eqn:Hget.
  destruct (get_page_effect _ _ _ _ _ Hget) as (Hmgr & _ & _ & Hhit).
  destruct (Hhit p Hc) as [-> Hsame]. exists db'.
  split; [reflexivity |]. split; [now rewrite Hsame | exact Hmgr].
Qed.

Lemma on_page_hit {A} (k : page_key) (pg : Page) (m : M Page A) (db : DB)
    (p : Page) :
  cached_page k db = Some p ->
  exists db', on_page k (Some pg) m db = (db', snd (m p))
    /\ cached_page k db' = Some (fst (m p))
    /\ transaction_mgr db' = transaction_mgr db.
Proof.
  intros Hc. destruct (on_page k (Some pg) m db) as [db' r] eqn:Hrun.
  apply on_page_effect in Hrun
    as (Hmgr & [(p1 & Hc1 & -> & Hc' & _) | (Hnone & _)]).
  - rewrite Hc in Hc1. injection Hc1 as <-. exists db'. auto.
  - rewrite Hc in Hnone. discriminate.
Qed.

Lemma mark_dirty_hit (k : page_key) (db : DB) (p : Page) :
  cached_page k db = Some p ->
  exists db', on_pool (mark_dirty k) db = (db', Ok tt)
    /\ cached_page k db' = Some p
    /\ transaction_mgr db' = transaction_mgr db.
Proof.
  intros Hc.
  assert (__contains__ k (buffer_pool db) = true) as Hin
    by (apply contains_cached; eauto).
  unfold on_pool, mark_dirty. rewrite Hin. eexists. split; [reflexivity |].
  split; [exact Hc | reflexivity].
Qed.

(** Undoing an insert: the TABLE_DELETE branch of [perform_undo]. *)
Lemma undo_one_table_delete (lsn0 x pageno sid : Z) (t : string)
    (d : undo.undo_data) (db : DB) (p : Page) (b : bool) :
  cached_page (t, pageno) db = Some p ->
  snd (delete sid p) = Ok b ->
  exists db',
    undo_one lsn0
      (undo.mkUndoRecord x undo.TABLE_DELETE (Some t) (Some (pageno, sid)) d) db
    = (db', Ok tt)
    /\ cached_page (t, pageno) db' = Some (set_header lsn0 (fst (delete sid p)))
    /\ transaction_mgr db' = transaction_mgr db.
Proof.
  intros Hc Hdel. unfold undo_one. cbn [undo.operation undo.relation undo.location].
  change (undo.TABLE_DELETE =? undo.TABLE_DELETE) with true. cbv iota.
  unfold unpack. rewrite (bind_step _ _ db db (t, pageno, sid)) by reflexivity.
  destruct (get_page_hit t pageno db p Hc) as (db1 & Hget & Hc1 & Hm1).
  rewrite (bind_step _ _ _ _ _ Hget).
  destruct (on_page_hit (t, pageno) p (delete sid) db1 p Hc1)
    as (db2 & Hrun2 & Hc2 & Hm2).
  rewrite Hdel in Hrun2. rewrite (bind_step _ _ _ _ _ Hrun2).
  destruct (on_page_hit (t, pageno) p (modify (set_header lsn0)) db2 _ Hc2)
    as (db3 & Hrun3 & Hc3 & Hm3).
  cbn [modify fst snd] in Hrun3, Hc3. rewrite (bind_step _ _ _ _ _ Hrun3).
  destruct (mark_dirty_hit (t, pageno) db3 _ Hc3) as (db4 & Hrun4 & Hc4 & Hm4).
  exists db4. split; [exact Hrun4 |]. split; [exact Hc4 | congruence].
Qed.

Lemma delete_inserted (record : bytes) (p0 : Page) (sid lsn0 : Z) :
  snd (insert record p0) = Ok sid ->
  snd (delete sid (set_header lsn0 (fst (insert record p0)))) = Ok true.
Proof.
  unfold insert, allocate_slot.
  destruct (total_page_size p0 record >=? PAGE_SIZE); [discriminate |].
  cbn [fst snd slot_directory]. rewrite len_app. change (len [_]) with 1.
  intros [= <-]. unfold delete, set_header. cbn [slot_directory].
  rewrite len_app. change (len [_]) with 1.
  pose proof (len_nonneg (slot_directory p0)).
  destruct (len (slot_directory p0) + 1 - 1 >=? len (slot_directory p0) + 1)
    eqn:E; [lia |].
  unfold py_index.
  rewrite py_norm_nonneg by (rewrite len_app; change (len [_]) with 1; lia).
  replace (Z.to_nat (len (slot_directory p0) + 1 - 1))
    with (List.length (slot_directory p0)) by (unfold len; lia).
  rewrite lookup_app_r by lia. rewrite Nat.sub_diag. reflexivity.
Qed.

(** X25: abort rolls an insert back.  In a transaction that was just
    started (its undo file does not exist yet) and has inserted one tuple,
    [abort_transaction] returns normally, writes an ABORT record to the redo
    log, and afterwards the inserted location reads as the empty tuple
    (dead) and the transaction is no longer active. *)
Theorem abort_undoes_insert (t : string) (tup : py_tuple) (db0 db2 : DB)
    (pageno sid : Z) :
  let xid0 := current_xid (transaction_mgr db0) + 1 in
  undo.files (undo_mgr (transaction_mgr db0)) !! xid0 = None ->
  table_tuple_insert_one t tup (fst (start_transaction db0))
  = (db2, Ok (pageno, sid)) ->
  snd (start_transaction db0) = Ok xid0
  /\ snd (abort_transaction xid0 db2) = Ok tt
  /\ snd (table_tuple_get_one t (pageno, sid) (fst (abort_transaction xid0 db2)))
     = Ok []
  /\ undo_active (fst (abort_transaction xid0 db2)) xid0 = None
  /\ all_records (fst (abort_transaction xid0 db2))
     = all_records db2 ++ [redo.mkRedoRecord xid0 redo.ABORT None None []].
Proof.
  intros xid0 Hfresh Hins.
  set (db1 := fst (start_transaction db0)) in *.
  assert (snd (start_transaction db0) = Ok xid0
          /\ session_xid db1 = xid0
          /\ undo_active db1 xid0
             = Some [undo.mkUndoRecord xid0 undo.BEGIN None None (undo.Bytes [])]
          /\ undo.files (undo_mgr (transaction_mgr db1))
             = undo.files (undo_mgr (transaction_mgr db0)))
    as (Hstart & Hxid & Hbegin & Hfiles1).
  { subst db1. unfold start_transaction, bind, get_state, set_current_xid,
      set_thread_local_xid, on_undo, on_redo, on_mgr, modify,
      undo.start_transaction, redo.write, ret, undo_active, session_xid.
    destruct (_ || _); cbn; (repeat split; try reflexivity);
      apply lookup_insert_eq. }
  split; [exact Hstart |].
  destruct (insert_one_inv _ _ _ _ _ _ Hins)
    as (p0 & l & _ & Hsid & Hc & _ & _ & _ & Hl & Hl' & _ & Hfiles2).
  rewrite Hxid in Hl, Hl'. rewrite Hbegin in Hl. injection Hl as <-.
  rewrite Hfiles1 in Hfiles2.
  set (ur := undo.mkUndoRecord xid0 undo.TABLE_DELETE (Some t)
               (Some (pageno, sid)) (undo.Bytes [])) in *.
  set (pfinal := set_header (redo.write_lsn (redo_mgr (transaction_mgr db2)))
                   (fst (insert (tuple_to_bytes tup) p0))) in *.
  (* the ABORT record *)
  destruct (on_redo_write_total
              (redo.mkRedoRecord xid0 redo.ABORT None None []) db2)
    as (dbA & lsnA & HrunA).
  pose proof (on_redo_write_Ok _ _ _ _ HrunA)
    as (HpoolA & _ & HundoA & _ & HrecsA).
  (* the undo records reach the file *)
  assert (undo_active dbA xid0 = Some ([undo.mkUndoRecord xid0 undo.BEGIN None
            None (undo.Bytes [])] ++ [ur])) as HactA
    by (unfold undo_active in *; now rewrite HundoA).
  destruct (on_undo_flush_Ok xid0 dbA _ HactA)
    as (dbB & HrunB & HpoolB & HredoB & HactB & HfileB).
  rewrite HundoA, Hfiles2, Hfresh in HfileB. cbn [default app] in HfileB.
  (* the undo itself *)
  assert (cached_page (t, pageno) dbB = Some pfinal) as HcB
    by (rewrite (cached_page_pool _ _ _ HpoolB), (cached_page_pool _ _ _ HpoolA);
        exact Hc).
  pose proof (delete_inserted _ _ _
                (redo.write_lsn (redo_mgr (transaction_mgr db2))) Hsid) as Hdel.
  fold pfinal in Hdel.
  destruct (undo_one_table_delete lsnA xid0 pageno sid t (undo.Bytes []) dbB
              pfinal true HcB Hdel) as (dbC & HrunC & HcC & HmgrC).
  fold ur in HrunC.
  assert (perform_undo xid0 lsnA dbB = (dbC, Ok tt)) as Hundo.
  { unfold perform_undo, bind, get_state, lift_result, undo.parse_record.
    rewrite HfileB. cbn [rev app for_each]. rewrite HrunC. reflexivity. }
  (* the transaction is closed *)
  assert (undo_active dbC xid0 = Some []) as HactC
    by (unfold undo_active in *; now rewrite HmgrC).
  destruct (on_undo_abort_Ok xid0 dbC _ HactC)
    as (dbD & HrunD & HpoolD & HredoD & HactD).
  assert (abort_transaction xid0 db2 = (dbD, Ok tt)) as Habort.
  { unfold abort_transaction.
    rewrite (bind_step _ _ _ _ _ HrunA), (bind_step _ _ _ _ _ HrunB),
      (bind_step _ _ _ _ _ Hundo). exact HrunD. }
  rewrite Habort. cbn [fst snd].
  split; [reflexivity |]. split; [| split; [exact HactD |]].
  - assert (cached_page (t, pageno) dbD
            = Some (set_header lsnA (fst (delete sid pfinal)))) as HcD
      by (rewrite (cached_page_pool _ _ _ HpoolD); exact HcC).
    rewrite (get_one_cached _ _ _ _ _ HcD), select_set_header.
    now rewrite (delete_then_select _ _ _ Hdel).
  - unfold all_records in *. now rewrite HredoD, HmgrC, HredoB.
Qed.

End Transactions.

Lemma commit_is_durable_witness :
  snd (commit_transaction 1 heap_examples.one_row) = Ok tt
  /\ redo.log_buffer
       (redo_mgr (transaction_mgr (fst (commit_transaction 1 heap_examples.one_row))))
     = [].
Proof.
  destruct (commit_is_durable heap_examples.one_row 1 1
              [undo.mkUndoRecord 1 undo.BEGIN None None (undo.Bytes []);
               undo.mkUndoRecord 1 undo.TABLE_DELETE (Some "t"%string)
                 (Some (0, 0)) (undo.Bytes [])])
    as (Hok & Hbuf & _).
  - reflexivity.
  - vm_compute. reflexivity.
  - split; assumption.
Defined.

Lemma abort_undoes_insert_witness :
  snd (table_tuple_get_one "t" (0, 0)
         (fst (abort_transaction 1 heap_examples.one_row))) = Ok []
  /\ snd (abort_transaction 1 heap_examples.one_row) = Ok tt.
Proof.
  destruct (abort_undoes_insert "t" [PyInt 7] heap_logging.fresh
              heap_examples.one_row 0 0 eq_refl heap_examples.one_row_inserted)
    as (_ & Hok & Hdead & _).
  split; assumption.
Defined.

Lemma recovery_of_clean_log_witness :
  recovery heap_logging.fresh
  = (at_replay_start heap_logging.fresh, Ok tt).
Proof. exact (proj1 (recovery_of_clean_log heap_logging.fresh I)). Defined.

End transaction_props.

(** ** storage/common.py: loading a page from the table file *)

Module page_read_props.
Import slotted_page lru state common pool_props replay_props lru_cache_props.

Section Read.
Context `{External}.

(** X26: reading a page that is on disk.  For a page that is not in the
    buffer pool and lies inside the table file, [table_tuple_get_page]
    returns the page that [Page.deserialize] reads from the [PAGE_SIZE]
    bytes at offset [pageno * PAGE_SIZE], caches it under [(table, pageno)]
    and does not mark it dirty; the file is not changed.  (The pool must be
    able to keep the new entry: it has room, or an unpinned entry of another
    key to evict.) *)
Theorem get_page_reads_disk (t : string) (pageno : Z) (db : DB) (p : Page)
    (pre buff post : bytes) :
  cached_page (t, pageno) db = None ->
  table_files db !! t = Some (pre ++ buff ++ post) ->
  len pre = pageno * PAGE_SIZE ->
  len buff = PAGE_SIZE ->
  len post mod PAGE_SIZE = 0 ->
  deserialize buff = Ok p ->
  has_room (t, pageno) (lru_cache (buffer_pool db)) = true ->
  snd (table_tuple_get_page t pageno db) = Ok (Some p)
  /\ cached_page (t, pageno) (fst (table_tuple_get_page t pageno db)) = Some p
  /\ dirty_pages (buffer_pool (fst (table_tuple_get_page t pageno db)))
     = dirty_pages (buffer_pool db)
  /\ table_files (fst (table_tuple_get_page t pageno db)) = table_files db.
Proof.
  intros Hmiss Hfile Hpre Hbuff Hpost Hdes Hroom.
  assert (__contains__ (t, pageno) (buffer_pool db) = false) as Hnot.
  { destruct (__contains__ (t, pageno) (buffer_pool db)) eqn:E; [| reflexivity].
    apply contains_cached in E as [p1 Hp1]. congruence. }
  pose proof (len_nonneg pre) as Hpre0. pose proof (len_nonneg post) as Hpost0.
  assert (0 <= pageno) as Hpageno by (unfold PAGE_SIZE in Hpre; lia).
  assert (len (pre ++ buff ++ post) = (pageno + 1) * PAGE_SIZE + len post)
    as Hlen by (rewrite !len_app; lia).
  assert (len (pre ++ buff ++ post) mod PAGE_SIZE = 0) as Hmod.
  { rewrite Hlen, Z.add_comm, Z.mod_add by (unfold PAGE_SIZE; lia). exact Hpost. }
  assert (pageno < len (pre ++ buff ++ post) / PAGE_SIZE) as Hdisk.
  { rewrite Hlen, Z.add_comm, Z.div_add by (unfold PAGE_SIZE; lia).
    assert (0 <= len post / PAGE_SIZE)
      by (apply Z.div_pos; unfold PAGE_SIZE; lia). lia. }
  assert (slice (pre ++ buff ++ post) (pageno * PAGE_SIZE)
                (pageno * PAGE_SIZE + PAGE_SIZE) = buff) as Hslice.
  { rewrite <- Hpre, <- Hbuff. apply slotted_page_layout.slice_middle. }
  destruct (put (t, pageno) p (lru_cache (buffer_pool db))) as [c1 r1] eqn:Hput.
  assert (r1 = Ok tt) as ->.
  { pose proof (lru_props.put_never_raises (lru_cache (buffer_pool db))
                  (t, pageno) p) as Hok. now rewrite Hput in Hok. }
  assert (cache_get (t, pageno) c1 = Some (mkLRUNode (t, pageno) p false))
    as Hc1.
  { pose proof (put_caches_new (lru_cache (buffer_pool db)) (t, pageno) p Hroom)
      as Hnew. now rewrite Hput in Hnew. }
  destruct (get (t, pageno) c1) as [c2 r2] eqn:Hget.
  pose proof (get_lookup _ _ _ _ Hget) as [-> Hsame].
  assert (table_tuple_get_page t pageno db
          = (mkDB (mkBufferPool c2 (dirty_pages (buffer_pool db)))
                  (table_files db) (transaction_mgr db) (indexes db),
             Ok (Some p))) as Hrun.
  { unfold table_tuple_get_page, bind, get_state, table_tuple_get_disk_pages,
      file_exists, read_page, ret, on_pool, __setitem__, __getitem__.
    rewrite Hnot, Hfile, Hmod. change (0 =? 0) with true. cbn [negb].
    rewrite andb_false_r.
    destruct (pageno <? len (pre ++ buff ++ post) / PAGE_SIZE) eqn:E1; [| lia].
    cbn [negb]. destruct (pageno <? 0) eqn:E2; [lia |].
    rewrite Hfile, Hslice, Hdes. cbn [buffer_pool lru_cache dirty_pages].
    rewrite Hput. cbn [buffer_pool lru_cache dirty_pages table_files
                       transaction_mgr indexes].
    rewrite Hget, Hc1. reflexivity. }
  rewrite Hrun. cbn [fst snd buffer_pool dirty_pages table_files].
  repeat split. unfold cached_page. cbn [buffer_pool lru_cache].
  now rewrite Hsame, Hc1.
Qed.

End Read.

(** A table file of two pages; the second one holds two rows. *)
Definition first_page : Page := set_header 3 Page_new.

Definition second_page : Page := set_header 7 page_ops_props.two_rows.

Definition page_bytes (p : Page) : bytes :=
  match serialize p with Ok buff => buff | Raise _ => [] end.

Definition two_page_table : @DB sample.pickle :=
  @mkDB sample.pickle (BufferPool_new LRU_CAPACITY)
       {[ "t"%string := page_bytes first_page ++ page_bytes second_page ++ [] ]}
       TransactionManager_new tt.

Lemma get_page_reads_disk_witness :
  snd (table_tuple_get_page "t" 1 two_page_table) = Ok (Some second_page).
Proof.
  refine (proj1 (get_page_reads_disk "t" 1 two_page_table second_page
                   (page_bytes first_page) (page_bytes second_page) []
                   _ _ _ _ _ _ _)); vm_compute; reflexivity.
Defined.

End page_read_props.

(** ** storage/bplus_tree.py: [find] *)

Module bplus_tree_search.
Import bplus_tree.

(** [for index in indexes: values.append(node.values[index])] *)
Fixpoint values_at (vs : list location_t) (indexes : list Z)
    : result (list location_t) :=
  match indexes with
  | [] => Ok []
  | index :: rest =>
      rbind (py_index vs index) (fun v =>
      rbind (values_at vs rest) (fun found => Ok (v :: found)))
  end.

(** The [while node] loop of [find], along the leaves. *)
Fixpoint find_from (fuel : nat) (t : BPlusTree) (ref : option Z) (key : py_tuple)
    : result (list location_t) :=
  match ref with
  | None => Ok []
  | Some _ =>
      rbind (node_at t ref) (fun node =>
      rbind (_find_indexes (keys node) key 0) (fun indexes =>
      match indexes with
      | [] => Ok []
      | _ :: _ =>
          rbind (values_at (values node) indexes) (fun found =>
          match fuel with
          | O => Raise OutOfFuel
          | S fuel' =>
              rbind (find_from fuel' t (next_leaf node) key) (fun rest =>
              Ok (found ++ rest))
          end)
      end))
  end.

Definition find (t : BPlusTree) (key : py_tuple) : result (list location_t) :=
  rbind (find_leaf_node t key) (fun leaf => find_from (fuel_of t) t leaf key).

End bplus_tree_search.

Module bplus_leaf_props.
Import bplus_tree bplus_tree_search.

(** A key of one integer column. *)
Definition ikey (z : Z) : py_tuple := [PyInt z].

Lemma eq_ikey (a b : Z) : __eq__ (ikey a) (ikey b) = (a =? b).
Proof. unfold __eq__, ikey. cbn. apply andb_true_r. Qed.

Lemma lt_ikey (a b : Z) : __lt__ (ikey a) (ikey b) = Ok (a <? b).
Proof.
  unfold __lt__, ikey. cbn. destruct (a =? b) eqn:E; cbn.
  - f_equal. lia.
  - destruct (a <? b); reflexivity.
Qed.

Lemma le_ikey (a b : Z) : __le__ (ikey a) (ikey b) = Ok (a <=? b).
Proof.
  unfold __le__. rewrite eq_ikey, lt_ikey.
  destruct (a =? b) eqn:E; f_equal; lia.
Qed.

Lemma gt_ikey (a b : Z) : __gt__ (ikey a) (ikey b) = Ok (b <? a).
Proof.
  unfold __gt__. rewrite eq_ikey, lt_ikey.
  destruct (a =? b) eqn:E; cbn; f_equal; lia.
Qed.

(** The keys of a leaf around a key [n]: smaller ones, the run of [n], and
    larger ones. *)
Record around (n : Z) (lo eq hi : list Z) : Prop := mk_around {
  lo_below : Forall (fun z => z < n) lo;
  eq_same : Forall (fun z => z = n) eq;
  hi_above : Forall (fun z => n < z) hi
}.

Lemma rightmost_hi (n : Z) (hi : list Z) (i : Z) :
  Forall (fun z => n < z) hi ->
  _find_rightmost_from (map ikey hi) (ikey n) i = Ok i.
Proof.
  destruct hi as [| h hi]; [reflexivity |]. intros Hhi.
  inversion Hhi as [| ? ? Hh _]; subst. cbn [map _find_rightmost_from].
  rewrite le_ikey. destruct (h <=? n) eqn:E; [lia | reflexivity].
Qed.

Lemma rightmost_le (n : Z) (l rest : list Z) (i : Z) :
  Forall (fun z => z <= n) l ->
  _find_rightmost_from (map ikey (l ++ rest)) (ikey n) i
  = _find_rightmost_from (map ikey rest) (ikey n) (i + len l).
Proof.
  revert i. induction l as [| a l IH]; intros i Hl.
  - cbn [app]. f_equal. change (len []) with 0. lia.
  - inversion Hl as [| ? ? Ha Hl']; subst. cbn [app map _find_rightmost_from].
    rewrite le_ikey. destruct (a <=? n) eqn:E; [| lia]. cbn [rbind].
    rewrite IH by assumption. f_equal. unfold len. cbn [List.length]. lia.
Qed.

Lemma rightmost_around (n : Z) (lo eq hi : list Z) :
  around n lo eq hi ->
  _find_rightmost_from (map ikey (lo ++ eq ++ hi)) (ikey n) 0
  = Ok (len lo + len eq).
Proof.
  intros [Hlo Heq Hhi].
  rewrite rightmost_le by (eapply Forall_impl; [exact Hlo | cbn; lia]).
  rewrite rightmost_le by (eapply Forall_impl; [exact Heq | cbn; lia]).
  rewrite rightmost_hi by assumption. reflexivity.
Qed.

Lemma indexes_hi (n : Z) (hi : list Z) (i : Z) :
  Forall (fun z => n < z) hi ->
  _find_indexes (map ikey hi) (ikey n) i = Ok [].
Proof.
  destruct hi as [| h hi]; [reflexivity |]. intros Hhi.
  inversion Hhi as [| ? ? Hh _]; subst. cbn [map _find_indexes].
  rewrite eq_ikey, gt_ikey. destruct (n =? h) eqn:E; [lia |].
  cbn [rbind]. destruct (n <? h) eqn:E1; [reflexivity | lia].
Qed.

Lemma indexes_eq (n : Z) (eq hi : list Z) (i : Z) :
  Forall (fun z => z = n) eq -> Forall (fun z => n < z) hi ->
  _find_indexes (map ikey (eq ++ hi)) (ikey n) i
  = Ok (map (fun j => i + Z.of_nat j) (seq 0 (List.length eq))).
Proof.
  revert i. induction eq as [| a eq IH]; intros i Heq Hhi.
  - cbn [app]. now apply indexes_hi.
  - inversion Heq as [| ? ? Ha Heq']; subst. cbn [app map _find_indexes].
    rewrite eq_ikey, Z.eqb_refl, (IH (i + 1)) by assumption. cbn [rbind].
    cbn [List.length seq map]. f_equal. f_equal; [lia |].
    rewrite <- seq_shift, map_map. apply map_ext. intros j. lia.
Qed.

Lemma indexes_around (n : Z) (lo eq hi : list Z) (i : Z) :
  around n lo eq hi ->
  _find_indexes (map ikey (lo ++ eq ++ hi)) (ikey n) i
  = Ok (map (fun j => i + len lo + Z.of_nat j) (seq 0 (List.length eq))).
Proof.
  intros [Hlo Heq Hhi]. revert i. induction lo as [| a lo IH]; intros i.
  - cbn [app]. rewrite indexes_eq by assumption. f_equal.
    apply map_ext. intros j. change (len []) with 0. lia.
  - inversion Hlo as [| ? ? Ha Hlo']; subst. cbn [app map _find_indexes].
    rewrite eq_ikey, gt_ikey. destruct (n =? a) eqn:E; [lia |].
    cbn [rbind]. destruct (n <? a) eqn:E1; [lia |].
    rewrite (IH Hlo' (i + 1)). f_equal. apply map_ext. intros j.
    unfold len. cbn [List.length]. lia.
Qed.

Lemma values_at_run (pre run post : list location_t) :
  values_at (pre ++ run ++ post)
    (map (fun j => 0 + len pre + Z.of_nat j) (seq 0 (List.length run)))
  = Ok run.
Proof.
  revert pre. induction run as [| a run IH]; intros pre; [reflexivity |].
  cbn [List.length seq map values_at].
  assert (py_index (pre ++ (a :: run) ++ post) (0 + len pre + Z.of_nat 0) = Ok a)
    as ->.
  { unfold py_index. pose proof (len_nonneg pre).
    rewrite py_norm_nonneg
      by (rewrite len_app; unfold len; cbn [List.length app];
          rewrite ?length_app; cbn [List.length]; lia).
    replace (Z.to_nat (0 + len pre + Z.of_nat 0)) with (List.length pre)
      by (unfold len; lia).
    rewrite lookup_app_r by lia. now rewrite Nat.sub_diag. }
  cbn [rbind].
  replace (pre ++ (a :: run) ++ post) with ((pre ++ [a]) ++ run ++ post)
    by (now rewrite <- app_assoc).
  replace (map (fun j => 0 + len pre + Z.of_nat j) (seq 1 (List.length run)))
    with (map (fun j => 0 + len (pre ++ [a]) + Z.of_nat j)
              (seq 0 (List.length run))).
  - now rewrite IH.
  - rewrite <- seq_shift, map_map. apply map_ext. intros j.
    rewrite len_app. change (len [a]) with 1. lia.
Qed.

Lemma list_insert_middle {A} (l1 l2 : list A) (x : A) :
  list_insert (len l1) x (l1 ++ l2) = l1 ++ [x] ++ l2.
Proof.
  unfold list_insert, len. rewrite Nat2Z.id.
  now rewrite take_app_length, drop_app_length.
Qed.

(** A tree that is one leaf: the root has never split. *)
Record single_leaf (t : BPlusTree) (node : BPlusTreeNode) : Prop := mk_single_leaf {
  leaf_at_root : nodes t !! root t = Some node;
  leaf_is_leaf : is_leaf node = true;
  leaf_is_last : next_leaf node = None;
  leaf_pageno : pageno node = root t
}.

Lemma find_leaf_node_single (t : BPlusTree) (node : BPlusTreeNode) (n : Z)
    (ks : list Z) :
  single_leaf t node -> keys node = map ikey ks ->
  find_leaf_node t (ikey n) = Ok (Some (root t)).
Proof.
  intros [Hroot Hleaf Hlast _] Hkeys. unfold find_leaf_node, fuel_of.
  cbn [descend]. unfold node_at. rewrite Hroot. cbn [rbind]. rewrite Hleaf.
  cbn [rbind advance]. unfold node_at. rewrite Hroot. cbn [rbind].
  rewrite Hkeys. destruct ks as [| k0 ks']; [reflexivity |]. cbn [map].
  unfold last_key.
  destruct (py_index (ikey k0 :: map ikey ks') (-1)) as [k |] eqn:Hidx.
  - cbn [rbind].
    assert (exists z, k = ikey z) as [z ->].
    { apply slotted_page_history.py_index_Ok in Hidx as (i & _ & Hi).
      change (ikey k0 :: map ikey ks') with (map ikey (k0 :: ks')) in Hi.
      rewrite list_lookup_fmap in Hi.
      destruct ((k0 :: ks') !! i) as [z |]; [| discriminate].
      exists z. now injection Hi. }
    rewrite lt_ikey. cbn [rbind]. rewrite Hlast. now destruct (z <? n).
  - exfalso. unfold py_index, py_norm in Hidx.
    change (0 <=? -1) with false in Hidx. cbv iota in Hidx.
    set (l := ikey k0 :: map ikey ks') in *.
    assert (0 < len l) as Hpos by (unfold l, len; cbn [List.length]; lia).
    destruct (- len l <=? -1) eqn:E; [| lia].
    destruct (l !! Z.to_nat (len l + -1)) eqn:El; [discriminate |].
    apply lookup_ge_None in El. unfold len in *. lia.
Qed.

Lemma find_single (t : BPlusTree) (node : BPlusTreeNode) (n : Z)
    (lo eq hi : list Z) (vlo veq vhi : list location_t) :
  single_leaf t node -> around n lo eq hi ->
  keys node = map ikey (lo ++ eq ++ hi) ->
  values node = vlo ++ veq ++ vhi ->
  List.length vlo = List.length lo -> List.length veq = List.length eq ->
  find t (ikey n) = Ok veq.
Proof.
  intros Hleaf Haround Hkeys Hvalues Hlo Heq. unfold find.
  rewrite (find_leaf_node_single t node n _ Hleaf Hkeys). cbn [rbind].
  unfold fuel_of. cbn [find_from]. unfold node_at.
  rewrite (leaf_at_root _ _ Hleaf). cbn [rbind].
  rewrite Hkeys, (indexes_around n lo eq hi 0 Haround). cbn [rbind].
  destruct eq as [| e eq'].
  { destruct veq; [reflexivity | discriminate]. }
  cbn [List.length seq map]. rewrite Hvalues.
  replace (0 + len lo + Z.of_nat 0
           :: map (fun j => 0 + len lo + Z.of_nat j) (seq 1 (List.length eq')))
    with (map (fun j => 0 + len vlo + Z.of_nat j) (seq 0 (List.length veq))).
  - rewrite values_at_run. cbn [rbind]. rewrite (leaf_is_last _ _ Hleaf).
    destruct (Z.to_nat (node_count t)); cbn [find_from rbind];
      now rewrite app_nil_r.
  - rewrite Heq. cbn [List.length seq map]. unfold len. now rewrite Hlo.
Qed.

(** X27: insert and find in a leaf.  In a tree that has not split yet (one
    leaf, holding at most nine sorted integer keys), [find] returns the
    values stored under the key, in the order they are stored, and [insert]
    returns normally, allocates no node and puts the new value after the
    ones already stored under that key: a following [find] returns the old
    values followed by the new one.  Keys need not be unique. *)
Theorem insert_then_find_in_leaf (t : BPlusTree) (node : BPlusTreeNode)
    (n : Z) (v : location_t) (lo eq hi : list Z) (vlo veq vhi : list location_t) :
  single_leaf t node -> around n lo eq hi ->
  keys node = map ikey (lo ++ eq ++ hi) ->
  values node = vlo ++ veq ++ vhi ->
  List.length vlo = List.length lo -> List.length veq = List.length eq ->
  len (keys node) < 10 ->
  find t (ikey n) = Ok veq
  /\ snd (insert (ikey n) v t) = Ok tt
  /\ find (fst (insert (ikey n) v t)) (ikey n) = Ok (veq ++ [v])
  /\ root (fst (insert (ikey n) v t)) = root t
  /\ node_count (fst (insert (ikey n) v t)) = node_count t.
Proof.
  intros Hleaf Haround Hkeys Hvalues Hlo Heq Hroom.
  split; [now apply (find_single t node n lo eq hi vlo veq vhi) |].
  set (node' := mkBPlusTreeNode (is_leaf node)
                  (map ikey (lo ++ (eq ++ [n]) ++ hi)) (children node)
                  (vlo ++ (veq ++ [v]) ++ vhi) (next_leaf node) (pageno node)).
  assert (insert (ikey n) v t
          = (mkBPlusTree (<[root t := node']> (nodes t)) (root t) (node_count t),
             Ok tt)) as Hins.
  { unfold insert, bind, get_state, lift_result.
    rewrite (find_leaf_node_single t node n _ Hleaf Hkeys).
    unfold node_at. rewrite (leaf_at_root _ _ Hleaf).
    unfold _find_rightmost_key_index.
    rewrite Hkeys, (rightmost_around n lo eq hi Haround).
    assert (list_insert (len lo + len eq) (ikey n) (map ikey (lo ++ eq ++ hi))
            = map ikey (lo ++ (eq ++ [n]) ++ hi)) as ->.
    { rewrite app_assoc, map_app.
      replace (len lo + len eq) with (len (map ikey (lo ++ eq)))
        by (unfold len; rewrite length_map, length_app; lia).
      rewrite list_insert_middle, <- !app_assoc, !map_app. cbn [map app].
      now rewrite <- !app_assoc. }
    assert (list_insert (len lo + len eq) v (values node)
            = vlo ++ (veq ++ [v]) ++ vhi) as ->.
    { rewrite Hvalues, app_assoc.
      replace (len lo + len eq) with (len (vlo ++ veq))
        by (unfold len; rewrite length_app; lia).
      rewrite list_insert_middle. now rewrite <- !app_assoc. }
    fold node'. unfold set_node. cbn [pageno node'].
    rewrite (leaf_pageno _ _ Hleaf). unfold _need_split. cbn [keys node'].
    assert (len (map ikey (lo ++ (eq ++ [n]) ++ hi)) = len (keys node) + 1)
      as Hlen.
    { rewrite Hkeys. unfold len. rewrite !length_map, !length_app.
      cbn [List.length]. lia. }
    rewrite Hlen. destruct (len (keys node) + 1 >? 10) eqn:E; [lia |].
    reflexivity. }
  rewrite Hins. cbn [fst snd root node_count].
  split; [reflexivity |]. split; [| split; reflexivity].
  apply (find_single _ node' n lo (eq ++ [n]) hi vlo (veq ++ [v]) vhi).
  - split; cbn [nodes root node' is_leaf next_leaf pageno].
    + apply lookup_insert_eq.
    + apply (leaf_is_leaf _ _ Hleaf).
    + apply (leaf_is_last _ _ Hleaf).
    + apply (leaf_pageno _ _ Hleaf).
  - destruct Haround as [Hlo' Heq' Hhi']. split; try assumption.
    apply Forall_app. split; [assumption | now constructor].
  - reflexivity.
  - reflexivity.
  - assumption.
  - rewrite !length_app. cbn [List.length]. lia.
Qed.

(** A leaf holding the keys 1, 5, 5, 8. *)
Definition four_keys : BPlusTree :=
  fst (run_tree_ops
         [Insert (ikey 5) (0, 1); Insert (ikey 1) (0, 2); Insert (ikey 8) (0, 3);
          Insert (ikey 5) (0, 4)] BPlusTree_new).

Definition four_keys_leaf : BPlusTreeNode :=
  mkBPlusTreeNode true (map ikey ([1] ++ [5; 5] ++ [8])) []
    ([(0, 2)] ++ [(0, 1); (0, 4)] ++ [(0, 3)]) None 0.

Lemma four_keys_single_leaf : single_leaf four_keys four_keys_leaf.
Proof. split; reflexivity. Defined.

Lemma four_keys_around : around 5 [1] [5; 5] [8].
Proof. split; repeat constructor. Defined.

Lemma insert_then_find_in_leaf_witness :
  find four_keys (ikey 5) = Ok [(0, 1); (0, 4)]
  /\ find (fst (insert (ikey 5) (0, 9) four_keys)) (ikey 5)
     = Ok [(0, 1); (0, 4); (0, 9)].
Proof.
  destruct (insert_then_find_in_leaf four_keys four_keys_leaf 5 (0, 9)
              [1] [5; 5] [8] [(0, 2)] [(0, 1); (0, 4)] [(0, 3)]
              four_keys_single_leaf four_keys_around eq_refl eq_refl eq_refl
              eq_refl ltac:(vm_compute; reflexivity))
    as (Hfind & _ & Hafter & _).
  split; assumption.
Defined.

End bplus_leaf_props.
